(** * HermitClaw front end: transcript reconciliation and live session

    A shallow embedding of [frontend/src/App.tsx]: the two item
    classifiers [renderInputItem] and [renderOutputItem], the loop that
    builds the conversation stream from the list of API calls, and the
    event handlers of the [App] component ([connectWs], [loadCrabState],
    [switchCrab], the countdown effect); then the labels and bubbles of the
    render, [sendMessage], and from the game world the sprite frames of the
    walk animation and the label of the activity.

    Conventions of the embedding.
    - Values that the source reads from JSON payloads with the static type
      [unknown] are modelled by [JSValue]; numbers are integers.
    - A JavaScript exception is a result [Throw]; [try { } catch { }] is
      [try_catch].
    - [JSON.parse] and [JSON.stringify] belong to the JavaScript runtime,
      not to the repository: they are the two fields of a [Host].
    - Strings are sequences of 8-bit characters; the line terminators of the
      regular expression dot are LF and CR in that range. *)

From Stdlib Require Import String Ascii List ZArith Bool Arith Lia.
From Stdlib Require Import Numbers.DecimalString.
Import ListNotations.
Open Scope string_scope.

Set Implicit Arguments.

(** ** JavaScript values *)

#[warnings="-register-all"]
Inductive JSValue : Type :=
| JUndefined
| JNull
| JBool (b : bool)
| JNum (n : Z)
| JStr (s : string)
| JArr (elems : list JSValue)
| JObj (fields : list (string * JSValue)).

(** [Record<string, unknown>]: the first binding of a key is the one read. *)
Definition JSObject : Type := list (string * JSValue).

Fixpoint get (o : JSObject) (k : string) : JSValue :=
  match o with
  | [] => JUndefined
  | (k', v) :: o' => if String.eqb k' k then v else get o' k
  end.

(** Exceptions. The source only has untyped [catch] clauses; the kind is kept
    for the reader. *)
Inductive Exn : Type := TypeError | SyntaxError.

Inductive Throws (A : Type) : Type :=
| Ok (a : A)
| Throw (e : Exn).
Arguments Throw {A} e.

Definition bind {A B : Type} (c : Throws A) (k : A -> Throws B) : Throws B :=
  match c with
  | Ok a => k a
  | Throw e => Throw e
  end.

Notation "x <- c ;; k" := (bind c (fun x => k))
  (at level 61, c at next level, right associativity).

Definition try_catch {A : Type} (body : Throws A) (handler : Throws A) : Throws A :=
  match body with
  | Ok a => Ok a
  | Throw _ => handler
  end.

Fixpoint mapM {A B : Type} (f : A -> Throws B) (l : list A) : Throws (list B) :=
  match l with
  | [] => Ok []
  | a :: l' => b <- f a ;; bs <- mapM f l' ;; Ok (b :: bs)
  end.

(** [v.k] for a key [k] that no built-in prototype defines (every key the
    source reads is such a key): a [TypeError] on [undefined] and [null],
    [undefined] on the other primitives and on arrays. *)
Definition prop (v : JSValue) (k : string) : Throws JSValue :=
  match v with
  | JUndefined | JNull => Throw TypeError
  | JObj fields => Ok (get fields k)
  | _ => Ok JUndefined
  end.

(** [v === "s"] *)
Definition is_str (v : JSValue) (s : string) : bool :=
  match v with
  | JStr s' => String.eqb s' s
  | _ => false
  end.

(** ToBoolean *)
Definition truthy (v : JSValue) : bool :=
  match v with
  | JUndefined | JNull => false
  | JBool b => b
  | JNum n => negb (n =? 0)%Z
  | JStr s => negb (String.eqb s "")
  | JArr _ | JObj _ => true
  end.

(** [a || b] *)
Definition js_or (a b : JSValue) : JSValue := if truthy a then a else b.

Definition LF : ascii := "010"%char.
Definition CR : ascii := "013"%char.
Definition nl : string := String LF "".
Definition DQ : ascii := "034"%char.

(** [s] between double quotes *)
Definition quoted (s : string) : string := String DQ (s ++ String DQ "").

Fixpoint join (sep : string) (l : list string) : string :=
  match l with
  | [] => ""
  | [s] => s
  | s :: l' => s ++ sep ++ join sep l'
  end.

(** ToString, as [String(v)] and template literals apply it. *)
Fixpoint ToString (v : JSValue) : string :=
  match v with
  | JUndefined => "undefined"
  | JNull => "null"
  | JBool true => "true"
  | JBool false => "false"
  | JNum n => NilZero.string_of_int (Z.to_int n)
  | JStr s => s
  | JArr elems =>
      join "," (map (fun e => match e with
                              | JUndefined | JNull => ""
                              | _ => ToString e
                              end) elems)
  | JObj _ => "[object Object]"
  end.

(** [Array.prototype.join(sep)] *)
Definition js_join (sep : string) (l : list JSValue) : string :=
  join sep (map (fun e => match e with
                          | JUndefined | JNull => ""
                          | _ => ToString e
                          end) l).

(** The runtime's JSON built-ins. [JSON_parse s] throws on text that is not
    JSON; [JSON_stringify v] is [JSON.stringify(v, null, 2)], a string or
    [undefined]. *)
Record Host : Type := {
  JSON_parse : string -> Throws JSValue;
  JSON_stringify : JSValue -> JSValue
}.

(** ** Transcript lines *)

Inductive Phase : Type := Normal | Dream | Planning.
Inductive Side : Type := Left | Right | System.

(** [image] absent is [JUndefined]; [isRespond] absent is [false]. *)
Record Msg : Type := mkMsg {
  side : Side;
  text : JSValue;
  phase : Phase;
  image : JSValue;
  isRespond : bool
}.

(** ** The classifiers *)

(** The loop over the parts of a structured user content. *)
Fixpoint scan_parts (parts : list JSValue) (text image : JSValue)
  : Throws (JSValue * JSValue) :=
  match parts with
  | [] => Ok (text, image)
  | part :: rest =>
      ty <- prop part "type" ;;
      text' <- (if is_str ty "input_text" then prop part "text" else Ok text) ;;
      ty' <- prop part "type" ;;
      image' <- (if is_str ty' "input_image" then prop part "image_url" else Ok image) ;;
      scan_parts rest text' image'
  end.

Definition renderInputItem (item : JSObject) (phase : Phase) : Throws (option Msg) :=
  if is_str (get item "role") "user" then
    let content := get item "content" in
    match content with
    | JArr parts =>
        ti <- scan_parts parts (JStr "") JUndefined ;;
        Ok (Some (mkMsg Left (js_or (fst ti) (JStr "[image]")) phase (snd ti) false))
    | _ => Ok (Some (mkMsg Left content phase JUndefined false))
    end
  else if is_str (get item "type") "function_call_output" then
    Ok (Some (mkMsg Left (get item "output") phase JUndefined false))
  else Ok None.

Section Classifier.

Variable host : Host.

(** [typeof a === "string" ? JSON.parse(a) : a] *)
Definition parse_arguments (a : JSValue) : Throws JSValue :=
  match a with
  | JStr s => JSON_parse host s
  | _ => Ok a
  end.

(** One element of [content.map(...)] of a message item. *)
Definition part_text (c : JSValue) : Throws JSValue :=
  t <- prop c "text" ;;
  if truthy t then Ok t
  else ty <- prop c "type" ;; Ok (JStr ("[" ++ ToString ty ++ "]")).

(** [content?.map(...).join("\n")]: [undefined] on an absent content, a
    [TypeError] on a content that has no [map] method. *)
Definition message_text (content : JSValue) : Throws JSValue :=
  match content with
  | JUndefined | JNull => Ok JUndefined
  | JArr cs => ts <- mapM part_text cs ;; Ok (JStr (js_join nl ts))
  | _ => Throw TypeError
  end.

(** The [try] block of the respond branch, and its [catch] block. *)
Definition respond_try (item : JSObject) (phase : Phase) : Throws (option Msg) :=
  args <- parse_arguments (get item "arguments") ;;
  m <- prop args "message" ;;
  Ok (Some (mkMsg Right m phase JUndefined true)).

Definition respond_catch (item : JSObject) (phase : Phase) : Throws (option Msg) :=
  Ok (Some (mkMsg Right (JStr (ToString (get item "arguments"))) phase JUndefined true)).

(** The [try] and [catch] blocks of the shell branch. *)
Definition shell_try (item : JSObject) : Throws string :=
  args <- parse_arguments (get item "arguments") ;;
  c <- prop args "command" ;;
  Ok ("$ " ++ ToString c).

Definition shell_catch (item : JSObject) : Throws string :=
  Ok ("$ " ++ ToString (get item "arguments")).

Definition renderOutputItem (item : JSObject) (phase : Phase) : Throws (option Msg) :=
  if is_str (get item "type") "message" then
    text <- message_text (get item "content") ;;
    if truthy text then Ok (Some (mkMsg Right text phase JUndefined false))
    else Ok None
  else if is_str (get item "type") "function_call" then
    if is_str (get item "name") "respond" then
      try_catch (respond_try item phase) (respond_catch item phase)
    else
      cmd <- (if is_str (get item "name") "shell" then
                try_catch (shell_try item) (shell_catch item)
              else
                let args := match get item "arguments" with
                            | JStr s => JStr s
                            | a => JSON_stringify host a
                            end in
                Ok ("[" ++ ToString (get item "name") ++ "] " ++ ToString args)) ;;
      Ok (Some (mkMsg Right (JStr cmd) phase JUndefined false))
  else if is_str (get item "type") "web_search_call" then
    Ok (Some (mkMsg Right (JStr "[web search]") phase JUndefined false))
  else Ok None.

End Classifier.

(** ** Normalising the instructions: [strip] *)

(** [drop_prefix p s]: the rest of [s] after the literal [p], if [s] starts
    with it. *)
Fixpoint drop_prefix (p s : string) : option string :=
  match p with
  | EmptyString => Some s
  | String a p' =>
      match s with
      | EmptyString => None
      | String b s' => if Ascii.eqb a b then drop_prefix p' s' else None
      end
  end.

(** The characters that the dot of a regular expression does not match. *)
Definition is_line_terminator (c : ascii) : bool :=
  Ascii.eqb c LF || Ascii.eqb c CR.

(** The longest run of dot-matched characters at the head of [s], and what
    follows it. *)
Fixpoint span_dot (s : string) : string * string :=
  match s with
  | EmptyString => (EmptyString, EmptyString)
  | String c s' =>
      if is_line_terminator c then (EmptyString, s)
      else let (run, rest) := span_dot s' in (String c run, rest)
  end.

Definition time_label : string := "Right now it is ".

(** A match of [/Right now it is .+\n/] at the head of [s]: the greedy [.+]
    can only be followed by LF when it takes the whole run. The result is what
    follows the match. *)
Definition match_time (s : string) : option string :=
  match drop_prefix time_label s with
  | Some r =>
      match span_dot r with
      | (String _ _, String c rest) => if Ascii.eqb c LF then Some rest else None
      | _ => None
      end
  | None => None
  end.

(** The lazy [[\s\S]*?] before the lookahead [(?=\n##)]: the shortest prefix
    after which the text continues with LF and two hashes. The result is the
    text from the lookahead on, which the match does not consume. *)
Fixpoint until_next_heading (s : string) : option string :=
  match drop_prefix (nl ++ "##") s with
  | Some _ => Some s
  | None =>
      match s with
      | EmptyString => None
      | String _ s' => until_next_heading s'
      end
  end.

(** A match of [/## Current (mood|focus)\n[\s\S]*?(?=\n##)/] at the head of
    [s]. *)
Definition match_block (s : string) : option string :=
  match drop_prefix "## Current " s with
  | Some r =>
      let after_word := match drop_prefix "mood" r with
                        | Some r' => Some r'
                        | None => drop_prefix "focus" r
                        end in
      match after_word with
      | Some (String c body) => if Ascii.eqb c LF then until_next_heading body else None
      | _ => None
      end
  | None => None
  end.

(** [s.replace(re, "")] for a regular expression without the [g] flag: the
    leftmost match is removed. [m] recognises a match at the head. *)
Fixpoint replace_first (m : string -> option string) (s : string) : string :=
  match m s with
  | Some rest => rest
  | None =>
      match s with
      | EmptyString => EmptyString
      | String c s' => String c (replace_first m s')
      end
  end.

Definition strip (s : string) : string :=
  replace_first match_block (replace_first match_time s).

(** ** The conversation stream *)

Record ApiCall : Type := mkApiCall {
  timestamp : string;
  instructions : string;
  input : list JSObject;
  output : list JSObject;
  is_dream : option bool;
  is_planning : option bool
}.

(** [flag ?? false] *)
Definition or_false (flag : option bool) : bool :=
  match flag with
  | Some b => b
  | None => false
  end.

(** [calls[i - 1]]: [undefined] at index 0 *)
Definition previous (calls : list ApiCall) (i : nat) : option ApiCall :=
  match i with
  | 0 => None
  | S j => nth_error calls j
  end.

Definition phase_of (call : ApiCall) : Phase :=
  if or_false (is_dream call) then Dream
  else if or_false (is_planning call) then Planning
  else Normal.

(** The three header tests of the loop body, for the call at index [i]. *)
Definition system_divider (calls : list ApiCall) (i : nat) (call : ApiCall) : bool :=
  negb (or_false (is_dream call)) && negb (or_false (is_planning call))
  && (Nat.eqb i 0
      || negb (String.eqb (strip (instructions call))
                 (strip (match previous calls i with
                         | Some p => instructions p
                         | None => ""
                         end)))).

Definition dream_divider (calls : list ApiCall) (i : nat) (call : ApiCall) : bool :=
  or_false (is_dream call)
  && (Nat.eqb i 0
      || negb (match previous calls i with
               | Some p => or_false (is_dream p)
               | None => false
               end)).

Definition planning_divider (calls : list ApiCall) (i : nat) (call : ApiCall) : bool :=
  or_false (is_planning call)
  && (Nat.eqb i 0
      || negb (match previous calls i with
               | Some p => or_false (is_planning p)
               | None => false
               end)).

Definition push_if (b : bool) (m : Msg) (messages : list Msg) : list Msg :=
  if b then (messages ++ [m])%list else messages.

Definition push_opt (msg : option Msg) (messages : list Msg) : list Msg :=
  match msg with
  | Some m => (messages ++ [m])%list
  | None => messages
  end.

(** [for (const item of items) { const msg = render(item, phase); if (msg)
    messages.push(msg); }] *)
Fixpoint render_items (render : JSObject -> Phase -> Throws (option Msg))
    (items : list JSObject) (ph : Phase) (messages : list Msg) : Throws (list Msg) :=
  match items with
  | [] => Ok messages
  | item :: rest =>
      msg <- render item ph ;;
      render_items render rest ph (push_opt msg messages)
  end.

(** The two variables the loop updates. *)
Record Stream : Type := mkStream {
  messages : list Msg;
  seenInputItems : nat
}.

Section Reconciler.

Variable host : Host.

(** The cursor after the reset test. *)
Definition reset_cursor (seen : nat) (call : ApiCall) : nat :=
  if Nat.leb (length (input call)) seen then 0 else seen.

(** One iteration of [calls.forEach((call, i) => ...)]. *)
Definition reconcile_call (calls : list ApiCall) (i : nat) (call : ApiCall)
    (st : Stream) : Throws Stream :=
  let ph := phase_of call in
  let ms := push_if (system_divider calls i call)
              (mkMsg System (JStr (instructions call)) Normal JUndefined false)
              (messages st) in
  let ms := push_if (dream_divider calls i call)
              (mkMsg System (JStr "Reflecting...") Dream JUndefined false) ms in
  let ms := push_if (planning_divider calls i call)
              (mkMsg System (JStr "Planning...") Planning JUndefined false) ms in
  let seen := reset_cursor (seenInputItems st) call in
  let newInputs := skipn seen (input call) in
  ms <- render_items renderInputItem newInputs ph ms ;;
  ms <- render_items (renderOutputItem host) (output call) ph ms ;;
  Ok (mkStream ms (length (input call) + length (output call))).

Fixpoint reconcile_from (calls : list ApiCall) (i : nat) (rest : list ApiCall)
    (st : Stream) : Throws Stream :=
  match rest with
  | [] => Ok st
  | call :: rest' =>
      st' <- reconcile_call calls i call st ;;
      reconcile_from calls (S i) rest' st'
  end.

(** The stream built on one render of [App] from the state [calls]. *)
Definition reconcile (calls : list ApiCall) : Throws Stream :=
  reconcile_from calls 0 calls (mkStream [] 0).

End Reconciler.

(** ** The stream with the origin of each line

    The same loop, recording for every line pushed which statement pushed it
    and for which call and item. Erasing the origins gives back [reconcile]
    (lemma [reconcile_traced_erase]). *)

Inductive Origin : Type :=
| SystemPrompt (call : nat)
| DreamDivider (call : nat)
| PlanningDivider (call : nat)
| InputItem (call idx : nat)
| OutputItem (call idx : nat).

Definition Line : Type := (Origin * Msg)%type.

Record Traced : Type := mkTraced {
  trace : list Line;
  cursor : nat
}.

Definition erase (t : Traced) : Stream :=
  mkStream (map snd (trace t)) (cursor t).

Definition note_if (b : bool) (o : Origin) (m : Msg) (tr : list Line) : list Line :=
  if b then (tr ++ [(o, m)])%list else tr.

Definition note_opt (o : Origin) (msg : option Msg) (tr : list Line) : list Line :=
  match msg with
  | Some m => (tr ++ [(o, m)])%list
  | None => tr
  end.

(** [j] is the index of the head of [items] in the array it comes from. *)
Fixpoint trace_items (render : JSObject -> Phase -> Throws (option Msg))
    (origin : nat -> Origin) (items : list JSObject) (j : nat) (ph : Phase)
    (tr : list Line) : Throws (list Line) :=
  match items with
  | [] => Ok tr
  | item :: rest =>
      msg <- render item ph ;;
      trace_items render origin rest (S j) ph (note_opt (origin j) msg tr)
  end.

Section TracedReconciler.

Variable host : Host.

Definition reconcile_call_traced (calls : list ApiCall) (i : nat) (call : ApiCall)
    (st : Traced) : Throws Traced :=
  let ph := phase_of call in
  let tr := note_if (system_divider calls i call) (SystemPrompt i)
              (mkMsg System (JStr (instructions call)) Normal JUndefined false)
              (trace st) in
  let tr := note_if (dream_divider calls i call) (DreamDivider i)
              (mkMsg System (JStr "Reflecting...") Dream JUndefined false) tr in
  let tr := note_if (planning_divider calls i call) (PlanningDivider i)
              (mkMsg System (JStr "Planning...") Planning JUndefined false) tr in
  let seen := reset_cursor (cursor st) call in
  let newInputs := skipn seen (input call) in
  tr <- trace_items renderInputItem (InputItem i) newInputs seen ph tr ;;
  tr <- trace_items (renderOutputItem host) (OutputItem i) (output call) 0 ph tr ;;
  Ok (mkTraced tr (length (input call) + length (output call))).

Fixpoint reconcile_from_traced (calls : list ApiCall) (i : nat) (rest : list ApiCall)
    (st : Traced) : Throws Traced :=
  match rest with
  | [] => Ok st
  | call :: rest' =>
      st' <- reconcile_call_traced calls i call st ;;
      reconcile_from_traced calls (S i) rest' st'
  end.

Definition reconcile_traced (calls : list ApiCall) : Throws Traced :=
  reconcile_from_traced calls 0 calls (mkTraced [] 0).

End TracedReconciler.

(** The lines of a trace that come from output items, with the position of
    the item. *)
Fixpoint output_lines (tr : list Line) : list (nat * nat * Msg) :=
  match tr with
  | [] => []
  | (OutputItem i j, m) :: tr' => (i, j, m) :: output_lines tr'
  | _ :: tr' => output_lines tr'
  end.

(** The system prompts that a trace shows, with the index of their call. *)
Fixpoint prompt_lines (tr : list Line) : list (nat * Msg) :=
  match tr with
  | [] => []
  | (SystemPrompt i, m) :: tr' => (i, m) :: prompt_lines tr'
  | _ :: tr' => prompt_lines tr'
  end.

(** The lines that the classifier [render] gives for [items], in order. *)
Fixpoint classified (render : JSObject -> Phase -> Throws (option Msg))
    (items : list JSObject) (ph : Phase) : Throws (list Msg) :=
  match items with
  | [] => Ok []
  | item :: rest =>
      msg <- render item ph ;;
      ms <- classified render rest ph ;;
      Ok (match msg with Some m => m :: ms | None => ms end)
  end.

(** ** A reference host

    An instance of [Host] for the closed examples below: a recursive-descent
    reader for JSON texts whose numbers are integers and whose [\u] escapes
    stay below 256, and the indenting writer. The general theorems hold for
    every host. *)
Module RefHost.

Definition is_ws (c : ascii) : bool :=
  Ascii.eqb c " " || Ascii.eqb c LF || Ascii.eqb c CR || Ascii.eqb c "009".

Fixpoint skip_ws (s : string) : string :=
  match s with
  | String c s' => if is_ws c then skip_ws s' else s
  | EmptyString => s
  end.

Definition digit_val (c : ascii) : option Z :=
  let n := nat_of_ascii c in
  if Nat.leb 48 n && Nat.leb n 57 then Some (Z.of_nat (n - 48)) else None.

Definition hex_val (c : ascii) : option nat :=
  let n := nat_of_ascii c in
  if Nat.leb 48 n && Nat.leb n 57 then Some (n - 48)
  else if Nat.leb 97 n && Nat.leb n 102 then Some (n - 87)
  else if Nat.leb 65 n && Nat.leb n 70 then Some (n - 55)
  else None.

Fixpoint digits (acc : Z) (s : string) : Z * string :=
  match s with
  | String c s' =>
      match digit_val c with
      | Some d => digits (acc * 10 + d) s'
      | None => (acc, s)
      end
  | EmptyString => (acc, s)
  end.

(** An integer literal; a fraction or an exponent is outside the model. *)
Definition read_number (s : string) : option (Z * string) :=
  let (neg, s1) := match s with
                   | String "-" s' => (true, s')
                   | _ => (false, s)
                   end in
  match s1 with
  | String c s2 =>
      match digit_val c with
      | Some d =>
          let (n, rest) := if (d =? 0)%Z then (0%Z, s2) else digits d s2 in
          match rest with
          | String "." _ | String "e" _ | String "E" _ => None
          | String c' _ => match digit_val c' with
                           | Some _ => None
                           | None => Some (if neg then (- n)%Z else n, rest)
                           end
          | EmptyString => Some (if neg then (- n)%Z else n, rest)
          end
      | None => None
      end
  | EmptyString => None
  end.

(** The characters of a string literal after its opening quote. *)
Fixpoint read_string (s : string) : option (string * string) :=
  match s with
  | EmptyString => None
  | String "034" rest => Some (EmptyString, rest)
  | String "\" (String e s') =>
      let simple (c : ascii) :=
        match read_string s' with
        | Some (t, rest) => Some (String c t, rest)
        | None => None
        end in
      match e with
      | "034"%char => simple DQ
      | "\"%char => simple "\"%char
      | "/"%char => simple "/"%char
      | "b"%char => simple "008"%char
      | "f"%char => simple "012"%char
      | "n"%char => simple LF
      | "r"%char => simple CR
      | "t"%char => simple "009"%char
      | "u"%char =>
          match s' with
          | String "0" (String "0" (String h (String l s''))) =>
              match hex_val h, hex_val l, read_string s'' with
              | Some a, Some b, Some (t, rest) =>
                  Some (String (ascii_of_nat (16 * a + b)) t, rest)
              | _, _, _ => None
              end
          | _ => None
          end
      | _ => None
      end
  | String c s' =>
      if Nat.ltb (nat_of_ascii c) 32 then None
      else match read_string s' with
           | Some (t, rest) => Some (String c t, rest)
           | None => None
           end
  end.

(** A later member with the same key replaces the earlier value. *)
Fixpoint set_field (k : string) (v : JSValue) (o : JSObject) : JSObject :=
  match o with
  | [] => [(k, v)]
  | (k', v') :: o' =>
      if String.eqb k' k then (k', v) :: o' else (k', v') :: set_field k v o'
  end.

Fixpoint read_value (fuel : nat) (s : string) : option (JSValue * string) :=
  match fuel with
  | 0 => None
  | S fuel' =>
      let read_elems :=
        fix read_elems (n : nat) (acc : list JSValue) (s : string)
          : option (JSValue * string) :=
          match n with
          | 0 => None
          | S n' =>
              match read_value fuel' s with
              | Some (v, rest) =>
                  match skip_ws rest with
                  | String "," rest' => read_elems n' (acc ++ [v])%list rest'
                  | String "]" rest' => Some (JArr (acc ++ [v])%list, rest')
                  | _ => None
                  end
              | None => None
              end
          end in
      let read_members :=
        fix read_members (n : nat) (acc : JSObject) (s : string)
          : option (JSValue * string) :=
          match n with
          | 0 => None
          | S n' =>
              match skip_ws s with
              | String "034" s1 =>
                  match read_string s1 with
                  | Some (k, s2) =>
                      match skip_ws s2 with
                      | String ":" s3 =>
                          match read_value fuel' s3 with
                          | Some (v, rest) =>
                              match skip_ws rest with
                              | String "," rest' => read_members n' (set_field k v acc) rest'
                              | String "}" rest' => Some (JObj (set_field k v acc), rest')
                              | _ => None
                              end
                          | None => None
                          end
                      | _ => None
                      end
                  | None => None
                  end
              | _ => None
              end
          end in
      match skip_ws s with
      | String "{" s1 =>
          match skip_ws s1 with
          | String "}" rest => Some (JObj [], rest)
          | _ => read_members fuel' [] s1
          end
      | String "[" s1 =>
          match skip_ws s1 with
          | String "]" rest => Some (JArr [], rest)
          | _ => read_elems fuel' [] s1
          end
      | String "034" s1 =>
          match read_string s1 with
          | Some (t, rest) => Some (JStr t, rest)
          | None => None
          end
      | s0 =>
          match drop_prefix "true" s0, drop_prefix "false" s0, drop_prefix "null" s0 with
          | Some rest, _, _ => Some (JBool true, rest)
          | _, Some rest, _ => Some (JBool false, rest)
          | _, _, Some rest => Some (JNull, rest)
          | _, _, _ =>
              match read_number s0 with
              | Some (n, rest) => Some (JNum n, rest)
              | None => None
              end
          end
      end
  end.

Definition parse (s : string) : Throws JSValue :=
  match read_value (S (String.length s)) s with
  | Some (v, rest) =>
      match skip_ws rest with
      | EmptyString => Ok v
      | _ => Throw SyntaxError
      end
  | None => Throw SyntaxError
  end.

Definition hex_digit (n : nat) : ascii :=
  if Nat.ltb n 10 then ascii_of_nat (48 + n) else ascii_of_nat (87 + n).

Fixpoint quote_chars (s : string) : string :=
  match s with
  | EmptyString => EmptyString
  | String c s' =>
      let n := nat_of_ascii c in
      (if Ascii.eqb c DQ then String "\" (String DQ "")
       else if Ascii.eqb c "\" then "\\"
       else if Nat.eqb n 8 then "\b"
       else if Nat.eqb n 12 then "\f"
       else if Nat.eqb n 10 then "\n"
       else if Nat.eqb n 13 then "\r"
       else if Nat.eqb n 9 then "\t"
       else if Nat.ltb n 32 then
         "\u00" ++ String (hex_digit (n / 16)) (String (hex_digit (n mod 16)) "")
       else String c "") ++ quote_chars s'
  end.

Definition quote (s : string) : string := quoted (quote_chars s).

Fixpoint spaces (n : nat) : string :=
  match n with
  | 0 => ""
  | S n' => String " " (spaces n')
  end.

(** The text of a value at indentation [ind]; [None] for [undefined]. *)
Fixpoint write (ind : nat) (v : JSValue) : option string :=
  match v with
  | JUndefined => None
  | JNull => Some "null"
  | JBool true => Some "true"
  | JBool false => Some "false"
  | JNum n => Some (NilZero.string_of_int (Z.to_int n))
  | JStr s => Some (quote s)
  | JArr elems =>
      match elems with
      | [] => Some "[]"
      | _ =>
          let items := map (fun e => spaces (ind + 2) ++
                                     match write (ind + 2) e with
                                     | Some t => t
                                     | None => "null"
                                     end) elems in
          Some ("[" ++ nl ++ join ("," ++ nl) items ++ nl ++ spaces ind ++ "]")
      end
  | JObj fields =>
      let items :=
        (fix members (fs : list (string * JSValue)) : list string :=
           match fs with
           | [] => []
           | (k, e) :: fs' =>
               match write (ind + 2) e with
               | Some t => (spaces (ind + 2) ++ quote k ++ ": " ++ t) :: members fs'
               | None => members fs'
               end
           end) fields in
      match items with
      | [] => Some "{}"
      | _ => Some ("{" ++ nl ++ join ("," ++ nl) items ++ nl ++ spaces ind ++ "}")
      end
  end.

Definition stringify (v : JSValue) : JSValue :=
  match write 0 v with
  | Some t => JStr t
  | None => JUndefined
  end.

Definition host : Host := {| JSON_parse := parse; JSON_stringify := stringify |}.

End RefHost.


(** ** The [App] component

    The state cells of [App], its two refs, and the browser objects they
    point to. The event loop is single-threaded: every handler runs to
    completion, and React 18 applies the state updates of one handler in one
    render, after which the effects whose dependencies changed run. The two
    scroll effects read the layout of the page and are left out, so that
    [hasNew] is only written here by [switchCrab]; so are the requests that
    write no state ([sendMessage], the snapshot effect), [ws.onerror], which
    only logs, and the cleanup on unmount: the component stays mounted. *)

Module Position.
Record t : Type := mk { x : Z; y : Z }.
End Position.

Module Activity.
Record t : Type := mk { type : string; detail : string }.
End Activity.

Module CrabInfo.
Record t : Type := mk { id : string; name : string; state : string; thought_count : Z }.
End CrabInfo.

Record View : Type := mkView {
  calls : list ApiCall;
  position : Position.t;
  crabState : string;
  alert : bool;
  activity : Activity.t;
  chatInput : string;
  conversing : bool;
  countdown : Z;
  hasNew : bool;
  crabName : string;
  focusMode : bool;
  crabs : list CrabInfo.t;
  activeCrab : string
}.

Definition setCalls (a : list ApiCall) (v : View) : View :=
  mkView a (position v) (crabState v) (alert v) (activity v) (chatInput v)
         (conversing v) (countdown v) (hasNew v) (crabName v) (focusMode v)
         (crabs v) (activeCrab v).
Definition setPosition (a : Position.t) (v : View) : View :=
  mkView (calls v) a (crabState v) (alert v) (activity v) (chatInput v)
         (conversing v) (countdown v) (hasNew v) (crabName v) (focusMode v)
         (crabs v) (activeCrab v).
Definition setCrabState (a : string) (v : View) : View :=
  mkView (calls v) (position v) a (alert v) (activity v) (chatInput v)
         (conversing v) (countdown v) (hasNew v) (crabName v) (focusMode v)
         (crabs v) (activeCrab v).
Definition setAlert (a : bool) (v : View) : View :=
  mkView (calls v) (position v) (crabState v) a (activity v) (chatInput v)
         (conversing v) (countdown v) (hasNew v) (crabName v) (focusMode v)
         (crabs v) (activeCrab v).
Definition setActivity (a : Activity.t) (v : View) : View :=
  mkView (calls v) (position v) (crabState v) (alert v) a (chatInput v)
         (conversing v) (countdown v) (hasNew v) (crabName v) (focusMode v)
         (crabs v) (activeCrab v).
Definition setConversing (a : bool) (v : View) : View :=
  mkView (calls v) (position v) (crabState v) (alert v) (activity v) (chatInput v)
         a (countdown v) (hasNew v) (crabName v) (focusMode v)
         (crabs v) (activeCrab v).
Definition setCountdown (a : Z) (v : View) : View :=
  mkView (calls v) (position v) (crabState v) (alert v) (activity v) (chatInput v)
         (conversing v) a (hasNew v) (crabName v) (focusMode v)
         (crabs v) (activeCrab v).
Definition setHasNew (a : bool) (v : View) : View :=
  mkView (calls v) (position v) (crabState v) (alert v) (activity v) (chatInput v)
         (conversing v) (countdown v) a (crabName v) (focusMode v)
         (crabs v) (activeCrab v).
Definition setCrabName (a : string) (v : View) : View :=
  mkView (calls v) (position v) (crabState v) (alert v) (activity v) (chatInput v)
         (conversing v) (countdown v) (hasNew v) a (focusMode v)
         (crabs v) (activeCrab v).
Definition setFocusMode (a : bool) (v : View) : View :=
  mkView (calls v) (position v) (crabState v) (alert v) (activity v) (chatInput v)
         (conversing v) (countdown v) (hasNew v) (crabName v) a
         (crabs v) (activeCrab v).
Definition setCrabs (a : list CrabInfo.t) (v : View) : View :=
  mkView (calls v) (position v) (crabState v) (alert v) (activity v) (chatInput v)
         (conversing v) (countdown v) (hasNew v) (crabName v) (focusMode v)
         a (activeCrab v).
Definition setActiveCrab (a : string) (v : View) : View :=
  mkView (calls v) (position v) (crabState v) (alert v) (activity v) (chatInput v)
         (conversing v) (countdown v) (hasNew v) (crabName v) (focusMode v)
         (crabs v) a.

(** The initial values of the [useState] cells. *)
Definition initial_view : View :=
  mkView [] (Position.mk 5 5) "idle" false (Activity.mk "idle" "") "" false 0
         false "the crab" false [] "".

(** The parsed frame of a socket, by its [event] field. A frame that is not
    JSON makes the handler throw before any update, and a frame with another
    [event] matches no test: both are [Other]. *)
Module Ev.
Inductive conversation_state : Type :=
| waiting (timeout : Z)
| ended
| other_state.

Inductive t : Type :=
| api_call (data : ApiCall)
| position (data : Position.t)
| status (state : string)
| alert
| activity (data : Activity.t)
| focus_mode (enabled : bool)
| conversation (st : conversation_state)
| Other.
End Ev.

(** The body of [ws.onmessage]. *)
Definition on_message (msg : Ev.t) (v : View) : View :=
  match msg with
  | Ev.api_call data => setCalls (calls v ++ [data])%list v
  | Ev.position data => setPosition data v
  | Ev.status st =>
      let v := setCrabState st v in
      if String.eqb st "thinking" then setAlert false v else v
  | Ev.alert => setAlert true v
  | Ev.activity data => setActivity data v
  | Ev.focus_mode enabled => setFocusMode enabled v
  | Ev.conversation (Ev.waiting timeout) => setCountdown timeout (setConversing true v)
  | Ev.conversation Ev.ended => setCountdown 0 (setConversing false v)
  | Ev.conversation Ev.other_state => v
  | Ev.Other => v
  end.

Inductive ReadyState : Type := CONNECTING | OPEN | CLOSING | CLOSED.

(** A [WebSocket] object: the crab of its URL, whether each handler
    property holds the handler that [connectWs] installs or [null], and its
    ready state. Its identity is its index in [sockets]. *)
Record WebSocket : Type := mkWebSocket {
  crab : string;
  onmessage : bool;
  onerror : bool;
  onclose : bool;
  readyState : ReadyState
}.

(** The body of [/api/status] as [loadCrabState] reads it. A position or a
    focus mode that the body does not have is [None]; a state that is missing
    or empty is the empty string, which the source tests as falsy. *)
Record StatusData : Type := mkStatusData {
  status_position : option Position.t;
  status_focus_mode : option bool;
  status_state : string
}.

(** What the three fetches of [loadCrabState] returned, once the three
    bodies are read: the history, an array of calls as its static type says;
    the status; and the name of the identity, the empty string when it is
    missing or empty. The status and the identity are [None] when their body
    is the JSON value [null], on which the first access to a field throws. *)
Record Snapshot : Type := mkSnapshot {
  rawData : list ApiCall;
  statusData : option StatusData;
  idData : option string
}.

Record World : Type := mkWorld {
  view : View;
  wsRef : option nat;
  sockets : list WebSocket;
  (** reconnect timeouts armed by [onclose] and not yet elapsed: the socket
      and the crab that the callback captured *)
  timeouts : list (nat * string);
  (** calls of [loadCrabState] not yet settled, each followed by [connectWs] *)
  loading : list string;
  countdownRef : option nat;
  (** handles of [setInterval] not yet cleared *)
  intervals : list nat;
  next_handle : nat
}.

Definition with_view (v : View) (w : World) : World :=
  mkWorld v (wsRef w) (sockets w) (timeouts w) (loading w) (countdownRef w)
          (intervals w) (next_handle w).
Definition with_wsRef (r : option nat) (w : World) : World :=
  mkWorld (view w) r (sockets w) (timeouts w) (loading w) (countdownRef w)
          (intervals w) (next_handle w).
Definition with_sockets (s : list WebSocket) (w : World) : World :=
  mkWorld (view w) (wsRef w) s (timeouts w) (loading w) (countdownRef w)
          (intervals w) (next_handle w).
Definition with_timeouts (t : list (nat * string)) (w : World) : World :=
  mkWorld (view w) (wsRef w) (sockets w) t (loading w) (countdownRef w)
          (intervals w) (next_handle w).
Definition with_loading (l : list string) (w : World) : World :=
  mkWorld (view w) (wsRef w) (sockets w) (timeouts w) l (countdownRef w)
          (intervals w) (next_handle w).

Definition initial_world : World :=
  mkWorld initial_view None [] [] [] None [] 1.

(** [l] without its element at index [k] *)
Fixpoint remove_nth {A : Type} (k : nat) (l : list A) : list A :=
  match k, l with
  | _, [] => []
  | 0, _ :: l' => l'
  | S k', a :: l' => a :: remove_nth k' l'
  end.

(** [l] with [f] applied to its element at index [k] *)
Fixpoint update_nth {A : Type} (k : nat) (f : A -> A) (l : list A) : list A :=
  match k, l with
  | _, [] => []
  | 0, a :: l' => f a :: l'
  | S k', a :: l' => a :: update_nth k' f l'
  end.

(** The three assignments of [null] at the head of [connectWs]. *)
Definition detach (s : WebSocket) : WebSocket :=
  mkWebSocket (crab s) false false false (readyState s).

(** [ws.close()] *)
Definition close (s : WebSocket) : WebSocket :=
  mkWebSocket (crab s) (onmessage s) (onerror s) (onclose s)
    match readyState s with
    | CONNECTING | OPEN => CLOSING
    | st => st
    end.

Definition connectWs (crabId : string) (w : World) : World :=
  let w := match wsRef w with
           | Some cur =>
               with_wsRef None
                 (with_sockets (update_nth cur (fun s => close (detach s)) (sockets w)) w)
           | None => w
           end in
  let ws := length (sockets w) in
  with_wsRef (Some ws)
    (with_sockets (sockets w ++ [mkWebSocket crabId true true true CONNECTING])%list w).

(** The updates of the [try] block of [loadCrabState]. When a fetch fails
    or a body is not JSON ([None]) the throw comes before the first update.
    When the status is [null] the access to its position throws after
    [setCalls]; when the identity is [null] the access to its name throws
    after [setCrabState]. The [catch] block swallows the exception, and the
    updates made before it stay. *)
Definition apply_snapshot (r : option Snapshot) (v : View) : View :=
  match r with
  | Some d =>
      let v := setCalls (rawData d) v in
      match statusData d with
      | Some st =>
          let v := match status_position st with
                   | Some p => setPosition p v
                   | None => v
                   end in
          let v := match status_focus_mode st with
                   | Some f => setFocusMode f v
                   | None => v
                   end in
          let v := setCrabState (if String.eqb (status_state st) "" then "idle"
                                 else status_state st) v in
          match idData d with
          | Some name => if String.eqb name "" then v else setCrabName name v
          | None => v
          end
      | None => v
      end
  | None => v
  end.

(** [clearInterval(countdownRef.current)] *)
Definition clear_countdown (w : World) : World :=
  match countdownRef w with
  | Some h =>
      mkWorld (view w) (wsRef w) (sockets w) (timeouts w) (loading w)
              (countdownRef w) (filter (fun h' => negb (Nat.eqb h' h)) (intervals w))
              (next_handle w)
  | None => w
  end.

(** The countdown effect: the cleanup of its previous run, then its body. *)
Definition countdown_effect (w : World) : World :=
  let w := clear_countdown w in
  let w := clear_countdown w in
  if (0 <? countdown (view w))%Z then
    let h := next_handle w in
    mkWorld (view w) (wsRef w) (sockets w) (timeouts w) (loading w)
            (Some h) (intervals w ++ [h])%list (S h)
  else w.

(** The render after a handler: the effect of dependency [conversing] runs
    when its value differs from the one of the render before. *)
Definition commit (before : World) (after : World) : World :=
  if Bool.eqb (conversing (view before)) (conversing (view after)) then after
  else countdown_effect after.

(** The callback of the interval. *)
Definition tick (w : World) : World :=
  if (countdown (view w) <=? 1)%Z then
    with_view (setCountdown 0 (view w)) (clear_countdown w)
  else with_view (setCountdown (countdown (view w) - 1) (view w)) w.

(** The synchronous part of [switchCrab]; the load it starts is recorded in
    [loading]. *)
Definition switchCrab (crabId : string) (w : World) : World :=
  if String.eqb crabId (activeCrab (view w)) then w
  else
    let v := setActiveCrab crabId (view w) in
    let v := setConversing false v in
    let v := setCountdown 0 v in
    let v := setAlert false v in
    let v := setActivity (Activity.mk "idle" "") v in
    let v := setHasNew false v in
    let v := match find (fun c => String.eqb (CrabInfo.id c) crabId) (crabs (view w)) with
             | Some c => setCrabName (CrabInfo.name c) v
             | None => v
             end in
    with_loading (loading w ++ [crabId])%list (with_view v w).

(** The body of [ws.onclose] for the socket [ws] of crab [crabId]. *)
Definition on_close (ws : nat) (crabId : string) (w : World) : World :=
  if match wsRef w with Some cur => Nat.eqb cur ws | None => false end
  then with_timeouts (timeouts w ++ [(ws, crabId)])%list w
  else w.

(** The callback of the reconnect timeout. *)
Definition on_timeout (ws : nat) (crabId : string) (w : World) : World :=
  if match wsRef w with Some cur => Nat.eqb cur ws | None => false end
  then connectWs crabId w
  else w.

Inductive Event : Type :=
(** the list of crabs fetched on mount arrives *)
| MountFetched (list : list CrabInfo.t)
(** the list of crabs fetched by the poll arrives *)
| Polled (list : list CrabInfo.t)
(** a click on a button of the switcher *)
| UserSwitch (crabId : string)
(** a click on the focus button *)
| UserToggleFocus
(** the load at index [k] of [loading] settles; [None] when a fetch or the
    reading of a body failed *)
| LoadSettled (k : nat) (r : option Snapshot)
(** the connection of a socket is established *)
| WsOpened (ws : nat)
(** a frame arrives on a socket *)
| WsMessage (ws : nat) (msg : Ev.t)
(** the connection of a socket is lost, or its closing completes *)
| WsClosed (ws : nat)
(** the timeout at index [k] of [timeouts] elapses *)
| TimeoutFired (k : nat)
(** the interval of handle [h] ticks *)
| Tick (h : nat).

Definition step (w : World) (e : Event) : World :=
  match e with
  | MountFetched list =>
      let w1 := with_view (setCrabs list (view w)) w in
      match list with
      | first :: _ =>
          let v := setCrabName (CrabInfo.name first)
                     (setActiveCrab (CrabInfo.id first) (view w1)) in
          with_loading (loading w ++ [CrabInfo.id first])%list (with_view v w1)
      | [] => w1
      end
  | Polled list => with_view (setCrabs list (view w)) w
  | UserSwitch crabId => commit w (switchCrab crabId w)
  | UserToggleFocus => with_view (setFocusMode (negb (focusMode (view w))) (view w)) w
  | LoadSettled k r =>
      match nth_error (loading w) k with
      | Some crabId =>
          let w := with_loading (remove_nth k (loading w)) w in
          connectWs crabId (with_view (apply_snapshot r (view w)) w)
      | None => w
      end
  | WsOpened ws =>
      match nth_error (sockets w) ws with
      | Some s =>
          match readyState s with
          | CONNECTING =>
              with_sockets (update_nth ws (fun s => mkWebSocket (crab s) (onmessage s)
                                             (onerror s) (onclose s) OPEN) (sockets w)) w
          | _ => w
          end
      | None => w
      end
  | WsMessage ws msg =>
      match nth_error (sockets w) ws with
      | Some s =>
          match readyState s with
          | OPEN => if onmessage s
                    then commit w (with_view (on_message msg (view w)) w)
                    else w
          | _ => w
          end
      | None => w
      end
  | WsClosed ws =>
      match nth_error (sockets w) ws with
      | Some s =>
          match readyState s with
          | CLOSED => w
          | _ =>
              let w := with_sockets
                         (update_nth ws (fun s => mkWebSocket (crab s) (onmessage s)
                                                   (onerror s) (onclose s) CLOSED)
                                     (sockets w)) w in
              if onclose s then on_close ws (crab s) w else w
          end
      | None => w
      end
  | TimeoutFired k =>
      match nth_error (timeouts w) k with
      | Some (ws, crabId) =>
          on_timeout ws crabId (with_timeouts (remove_nth k (timeouts w)) w)
      | None => w
      end
  | Tick h =>
      if existsb (Nat.eqb h) (intervals w) then tick w else w
  end.

Definition run (w : World) (events : list Event) : World :=
  fold_left step events w.

(** A socket that has not been closed and has not lost its connection. *)
Definition live (s : WebSocket) : bool :=
  match readyState s with
  | CONNECTING | OPEN => true
  | CLOSING | CLOSED => false
  end.

Definition open_channels (w : World) : nat :=
  length (filter live (sockets w)).

(** ** Vocabulary of the statements

    Definitions that the statements below use to describe what a classifier
    or the loop returns. *)

Definition nullish (v : JSValue) : bool :=
  match v with
  | JUndefined | JNull => true
  | _ => false
  end.

(** [part.k] for a part on which the access does not throw *)
Definition field (part : JSValue) (k : string) : JSValue :=
  match part with
  | JObj fields => get fields k
  | _ => JUndefined
  end.

Definition has_type (ty : string) (part : JSValue) : bool :=
  is_str (field part "type") ty.

(** The field [key] of the last part of type [ty], [init] when there is no
    such part. *)
Definition last_field (ty key : string) (init : JSValue) (parts : list JSValue) : JSValue :=
  match find (has_type ty) (rev parts) with
  | Some p => field p key
  | None => init
  end.

(** The field [key] of the first part of type [ty]. *)
Definition first_field (ty key : string) (init : JSValue) (parts : list JSValue) : JSValue :=
  match find (has_type ty) parts with
  | Some p => field p key
  | None => init
  end.

(** Items of the shapes the examples use. *)
Definition user_text (t : string) : JSObject :=
  [("role", JStr "user"); ("content", JStr t)].

Definition user_parts (parts : list JSValue) : JSObject :=
  [("role", JStr "user"); ("content", JArr parts)].

Definition text_part (t : string) : JSValue :=
  JObj [("type", JStr "input_text"); ("text", JStr t)].

Definition image_part (url : string) : JSValue :=
  JObj [("type", JStr "input_image"); ("image_url", JStr url)].

Definition tool_result (t : string) : JSObject :=
  [("type", JStr "function_call_output"); ("output", JStr t)].

Definition function_call (name : string) (arguments : JSValue) : JSObject :=
  [("type", JStr "function_call"); ("name", JStr name); ("arguments", arguments)].

(** The argument text of a respond call that carries [t]. *)
Definition message_payload (t : string) : string :=
  "{" ++ quoted "message" ++ ":" ++ quoted t ++ "}".

Definition subject_line (t : string) (ph : Phase) : Msg :=
  mkMsg Left (JStr t) ph JUndefined false.

Definition respond_line (t : JSValue) (ph : Phase) : Msg :=
  mkMsg Right t ph JUndefined true.

Definition system_line (instr : string) : Msg :=
  mkMsg System (JStr instr) Normal JUndefined false.
(** The lines of [classified], each with the origin of its item. *)
Fixpoint tagged (render : JSObject -> Phase -> Throws (option Msg))
    (origin : nat -> Origin) (items : list JSObject) (j : nat) (ph : Phase)
  : Throws (list Line) :=
  match items with
  | [] => Ok []
  | item :: rest =>
      msg <- render item ph ;;
      ls <- tagged render origin rest (S j) ph ;;
      Ok (match msg with Some m => (origin j, m) :: ls | None => ls end)
  end.

(** The divider lines of the call at index [i]. *)
Definition dividers_traced (calls : list ApiCall) (i : nat) (call : ApiCall) : list Line :=
  ((if system_divider calls i call
    then [(SystemPrompt i, system_line (instructions call))]
    else [])
   ++ (if dream_divider calls i call
       then [(DreamDivider i, mkMsg System (JStr "Reflecting...") Dream JUndefined false)]
       else [])
   ++ (if planning_divider calls i call
       then [(PlanningDivider i, mkMsg System (JStr "Planning...") Planning JUndefined false)]
       else []))%list.

Definition dividers (calls : list ApiCall) (i : nat) (call : ApiCall) : list Msg :=
  map snd (dividers_traced calls i call).

(** The output items of a call for which the classifier gives a line, with
    their positions; [j] is the index of the head of [items]. *)
Fixpoint call_outputs (host : Host) (i j : nat) (items : list JSObject) (ph : Phase)
  : list (nat * nat * Msg) :=
  match items with
  | [] => []
  | item :: rest =>
      match renderOutputItem host item ph with
      | Ok (Some m) => (i, j, m) :: call_outputs host i (S j) rest ph
      | _ => call_outputs host i (S j) rest ph
      end
  end.

(** The same over the calls [rest], the head of which has index [i]: call
    after call, and item after item within a call. *)
Fixpoint log_outputs (host : Host) (i : nat) (rest : list ApiCall)
  : list (nat * nat * Msg) :=
  match rest with
  | [] => []
  | call :: rest' =>
      (call_outputs host i 0 (output call) (phase_of call)
       ++ log_outputs host (S i) rest')%list
  end.

(** The system prompts of the calls [rest] that pass the test of the loop,
    the head of [rest] having index [i]. *)
Fixpoint log_prompts (calls : list ApiCall) (i : nat) (rest : list ApiCall)
  : list (nat * Msg) :=
  match rest with
  | [] => []
  | call :: rest' =>
      if system_divider calls i call
      then (i, system_line (instructions call)) :: log_prompts calls (S i) rest'
      else log_prompts calls (S i) rest'
  end.

(** The rule of the system prompt in the words of the specification: the
    instructions are compared with those of the previous normal-phase call. *)
Definition is_normal (call : ApiCall) : bool :=
  match phase_of call with
  | Normal => true
  | _ => false
  end.

Definition previous_normal (calls : list ApiCall) (i : nat) : option ApiCall :=
  find is_normal (rev (firstn i calls)).

Definition specified_system_divider (calls : list ApiCall) (i : nat) (call : ApiCall) : bool :=
  is_normal call
  && (Nat.eqb i 0
      || match previous_normal calls i with
         | Some p => negb (String.eqb (strip (instructions call)) (strip (instructions p)))
         | None => true
         end).

(** The number of lines of a side in a stream. *)
Definition side_eqb (a b : Side) : bool :=
  match a, b with
  | Left, Left | Right, Right | System, System => true
  | _, _ => false
  end.

Definition count_side (s : Side) (ms : list Msg) : nat :=
  length (filter (fun m => side_eqb (side m) s) ms).

(** Items on which the classifiers do not throw: the parts of a structured
    content are not [null], and the content of a message is an array or
    absent. *)
Definition parts_ok (parts : list JSValue) : bool :=
  forallb (fun p => negb (nullish p)) parts.

Definition input_item_ok (item : JSObject) : bool :=
  if is_str (get item "role") "user" then
    match get item "content" with
    | JArr parts => parts_ok parts
    | _ => true
    end
  else true.

Definition output_item_ok (item : JSObject) : bool :=
  if is_str (get item "type") "message" then
    match get item "content" with
    | JUndefined | JNull => true
    | JArr parts => parts_ok parts
    | _ => false
    end
  else true.

Definition call_ok (call : ApiCall) : bool :=
  forallb input_item_ok (input call) && forallb output_item_ok (output call).

Definition log_ok (calls : list ApiCall) : bool := forallb call_ok calls.

(** [fmap] of the result type *)
Definition fmap {A B : Type} (f : A -> B) (c : Throws A) : Throws B :=
  match c with
  | Ok a => Ok (f a)
  | Throw e => Throw e
  end.
(** Texts without a line terminator, and the texts that can be the variable
    part of the time line: not empty, without a line terminator. *)
Fixpoint dot_only (s : string) : bool :=
  match s with
  | EmptyString => true
  | String c s' => negb (is_line_terminator c) && dot_only s'
  end.

Definition is_line (t : string) : bool :=
  negb (String.eqb t "") && dot_only t.

(** The instructions made of [pre], the time line of text [t], and [post]. *)
Definition with_time (pre t post : string) : string :=
  pre ++ time_label ++ t ++ nl ++ post.

Unset Implicit Arguments.

(** ** Data of the examples *)

(** The two calls of the end-to-end example. *)
Definition example_call_1 (instr : string) : ApiCall :=
  mkApiCall "t1" instr [user_text "hi"]
            [function_call "respond" (JStr (message_payload "hello"))] None None.

Definition example_call_2 (instr : string) : ApiCall :=
  mkApiCall "t2" instr [user_text "hi"; tool_result "ok"] [] None None.

(** A call whose output has an item of a type the classifier does not know,
    a message without parts, and a web search. *)
Definition silent_outputs_log : list ApiCall :=
  [mkApiCall "t" "sys" []
     [[("type", JStr "reasoning")];
      [("type", JStr "message"); ("content", JArr [])];
      [("type", JStr "web_search_call")]] None None].

(** A normal-phase call whose instructions have the time line of text [t]. *)
Definition timed_call (t : string) : ApiCall :=
  mkApiCall "ts" (with_time ("You are a crab." ++ nl) t ("Be kind." ++ nl))%string
            [user_text "Continue."] [] None None.

(** A normal call, a dream call with other instructions, and a normal call
    with the instructions of the first. *)
Definition interleaved_log : list ApiCall :=
  [mkApiCall "t1" "A" [] [] None None;
   mkApiCall "t2" "B" [] [] (Some true) None;
   mkApiCall "t3" "A" [] [] None None].

Definition two_crabs : list CrabInfo.t :=
  [CrabInfo.mk "a" "Ada" "thinking" 3; CrabInfo.mk "b" "Bob" "idle" 0].

Definition snapshot_a : Snapshot :=
  mkSnapshot [mkApiCall "t1" "You are Ada." [user_text "hi"] [] None None]
             (Some (mkStatusData (Some (Position.mk 1 2)) (Some true) "thinking"))
             (Some "Ada").

Definition snapshot_b : Snapshot :=
  mkSnapshot [] (Some (mkStatusData (Some (Position.mk 7 7)) (Some false) "idle"))
             (Some "Bob").


(** The crab "a" is shown, loaded and connected. *)
Definition showing_a : World :=
  run initial_world [MountFetched two_crabs; LoadSettled 0 (Some snapshot_a); WsOpened 0].

(** ** Invariants of the live session *)

(** A socket that [connectWs] has replaced. *)
Definition torn_down (s : WebSocket) : Prop :=
  onmessage s = false /\ onerror s = false /\ onclose s = false /\ live s = false.

(** Every socket but the current one is torn down; [wsRef] and the pending
    timeouts point to sockets that exist. *)
Record channel_inv (w : World) : Prop := {
  inv_others : forall k s, nth_error (sockets w) k = Some s ->
                           wsRef w <> Some k -> torn_down s;
  inv_current : forall k, wsRef w = Some k -> k < length (sockets w);
  inv_timeouts : forall ws c, In (ws, c) (timeouts w) -> ws < length (sockets w)
}.

(** At most one interval is running, and [countdownRef] holds its handle. *)
Definition tick_inv (w : World) : Prop :=
  intervals w = [] \/ exists h, countdownRef w = Some h /\ intervals w = [h].

(** ** The rest of [App]: labels, bubbles, the chat form *)

Definition stateLabel (state : string) : string :=
  if String.eqb state "thinking" then "thinking"
  else if String.eqb state "reflecting" then "reflecting"
  else if String.eqb state "planning" then "planning"
  else "idle".

Definition stateColor (state : string) : string :=
  if String.eqb state "thinking" then "#007aff"
  else if String.eqb state "reflecting" then "#7c3aed"
  else if String.eqb state "planning" then "#0d9488"
  else "#999".

(** The style constants of the bubbles, with their [background]. *)
Inductive BubbleStyle : Type :=
| bubbleLeft
| bubbleRight
| dreamBubbleLeft
| dreamBubbleRight
| planBubbleLeft
| planBubbleRight
| respondBubble.

Definition background (b : BubbleStyle) : string :=
  match b with
  | bubbleLeft => "#e9e9eb"
  | bubbleRight => "#007aff"
  | dreamBubbleLeft => "#6d28d9"
  | dreamBubbleRight => "#7c3aed"
  | planBubbleLeft => "#0d9488"
  | planBubbleRight => "#14b8a6"
  | respondBubble => "#ea580c"
  end.

(** [msg.side === "left"], for a line that is not a system line (those
    return before). *)
Definition isLeft (msg : Msg) : bool :=
  match side msg with
  | Left => true
  | _ => false
  end.

Definition bubbleStyle (msg : Msg) : BubbleStyle :=
  if isRespond msg then respondBubble
  else match phase msg with
       | Dream => if isLeft msg then dreamBubbleLeft else dreamBubbleRight
       | Planning => if isLeft msg then planBubbleLeft else planBubbleRight
       | Normal => if isLeft msg then bubbleLeft else bubbleRight
       end.

Definition textColor (msg : Msg) : string :=
  if isLeft msg
     && (match phase msg with Normal => true | _ => false end)
     && negb (isRespond msg)
  then "#111" else "#fff".

(** The label of the block of a system line. *)
Definition system_label (msg : Msg) : string :=
  match phase msg with
  | Dream => "Reflection"
  | Planning => "Planning"
  | Normal => "System Prompt"
  end.

Definition setChatInput (a : string) (v : View) : View :=
  mkView (calls v) (position v) (crabState v) (alert v) (activity v) a
         (conversing v) (countdown v) (hasNew v) (crabName v) (focusMode v)
         (crabs v) (activeCrab v).

(** The white space and line terminators that [String.prototype.trim]
    removes, among the characters below 256. *)
Definition is_js_space (c : ascii) : bool :=
  let n := nat_of_ascii c in
  (Nat.leb 9 n && Nat.leb n 13) || Nat.eqb n 32 || Nat.eqb n 160.

Fixpoint trimStart (s : string) : string :=
  match s with
  | String c s' => if is_js_space c then trimStart s' else s
  | EmptyString => EmptyString
  end.

Fixpoint trimEnd (s : string) : string :=
  match s with
  | String c s' =>
      match trimEnd s' with
      | EmptyString => if is_js_space c then EmptyString else String c EmptyString
      | t => String c t
      end
  | EmptyString => EmptyString
  end.

Definition trim (s : string) : string := trimEnd (trimStart s).

(** A text made of white space only. *)
Fixpoint all_space (s : string) : bool :=
  match s with
  | String c s' => is_js_space c && all_space s'
  | EmptyString => true
  end.

Definition crabParam (v : View) : string :=
  if String.eqb (activeCrab v) "" then "" else "?crab=" ++ activeCrab v.

(** A POST request: its URL and the object given to [JSON.stringify]. *)
Record Request : Type := mkRequest {
  url : string;
  payload : JSObject
}.

(** [sendMessage]: the view after it, and the request it sends if any. *)
Definition sendMessage (v : View) : View * option Request :=
  let text := trim (chatInput v) in
  if String.eqb text "" then (v, None)
  else (setChatInput "" v,
        Some (mkRequest ("/api/message" ++ crabParam v) [("text", JStr text)])).

(** ** The game world: sprite frames and the label of the activity *)

Definition COLS : Z := 12.
Definition ROWS : Z := 12.
Definition TILE : Z := 32.
Definition CHAR_SIZE : Z := 48.

Module Frame.
Record t : Type := mk { x : Z; y : Z }.
End Frame.

Definition FRAMES : list (string * list Frame.t) :=
  [("down", [Frame.mk 0 0; Frame.mk 48 0; Frame.mk 96 0]);
   ("left", [Frame.mk 0 48; Frame.mk 48 48; Frame.mk 96 48]);
   ("right", [Frame.mk 0 96; Frame.mk 48 96; Frame.mk 96 96]);
   ("up", [Frame.mk 0 144; Frame.mk 48 144; Frame.mk 96 144])].

Definition WALK_SEQ : list nat := [0; 1; 2; 1]%list.
Definition IDLE_FRAME : nat := 1.

(** [FRAMES[dir]], [undefined] for a key that the table does not have *)
Fixpoint frames_of (table : list (string * list Frame.t)) (dir : string)
  : option (list Frame.t) :=
  match table with
  | []%list => None
  | ((k, fs) :: table')%list => if String.eqb k dir then Some fs else frames_of table' dir
  end.

(** The three refs that the render loop updates besides the position. *)
Record Walk : Type := mkWalk {
  dirRef : string;
  walkIndexRef : nat;
  frameCountRef : nat
}.

Definition initial_walk : Walk := mkWalk "down" 0 0.

(** What the tests on [dx] and [dy] decide in one call of [render]: the
    crab is at its target, or it moves and faces one of four ways. The
    differences are floating-point numbers; their tests are the input of the
    model. *)
Inductive Heading : Type := ToRight | ToLeft | ToDown | ToUp.

Definition heading_name (h : Heading) : string :=
  match h with
  | ToRight => "right"
  | ToLeft => "left"
  | ToDown => "down"
  | ToUp => "up"
  end.

(** The update of the refs in one call of [render]; [None] when the crab
    does not move. *)
Definition walk_step (motion : option Heading) (w : Walk) : Walk :=
  match motion with
  | Some h =>
      let count := S (frameCountRef w) in
      mkWalk (heading_name h)
             (if Nat.eqb (count mod 8) 0
              then (walkIndexRef w + 1) mod length WALK_SEQ
              else walkIndexRef w)
             count
  | None => mkWalk (dirRef w) 0 (frameCountRef w)
  end.

(** Successive calls of [render], from the oldest on. *)
Definition walk_run (motions : list (option Heading)) (w : Walk) : Walk :=
  fold_left (fun w m => walk_step m w) motions w.

(** The frame drawn after that update: [frames[frameIdx]], [None] where the
    source would read [undefined]. *)
Definition frame_drawn (motion : option Heading) (w : Walk) : option Frame.t :=
  let w' := walk_step motion w in
  let frames := match frames_of FRAMES (dirRef w') with
                | Some fs => Some fs
                | None => frames_of FRAMES "down"
                end in
  let frameIdx := match motion with
                  | Some _ => nth_error WALK_SEQ (walkIndexRef w')
                  | None => Some IDLE_FRAME
                  end in
  match frames, frameIdx with
  | Some fs, Some i => nth_error fs i
  | _, _ => None
  end.

(** The text at the bottom of the canvas for the detail of an activity. *)
Definition detail_label (detail : string) : string :=
  if Nat.ltb 40 (String.length detail) then substring 0 40 detail ++ "..." else detail.

(** ** More vocabulary of the statements *)

(** The lines of a trace that come from input items, with the position of
    the item. *)
Fixpoint input_lines (tr : list Line) : list (nat * nat * Msg) :=
  match tr with
  | []%list => []%list
  | ((InputItem i j, m) :: tr')%list => ((i, j, m) :: input_lines tr')%list
  | (_ :: tr')%list => input_lines tr'
  end.

(** [p] occurs in [s]. *)
Fixpoint occurs (p s : string) : bool :=
  match drop_prefix p s with
  | Some _ => true
  | None =>
      match s with
      | EmptyString => false
      | String _ s' => occurs p s'
      end
  end.

Definition block_label : string := "## Current ".

(** No proper suffix of [p] is a prefix of it: an occurrence of [p] cannot
    start inside another one. *)
Definition unbordered (p : string) : Prop :=
  forall s p', p = s ++ p' -> s <> "" -> p' <> "" ->
               forall x, drop_prefix p' (p ++ x) = None.

(** The instructions made of [pre], the block of [word] with the text
    [body], and what follows from the next heading on. *)
Definition with_block (pre word body post : string) : string :=
  pre ++ block_label ++ word ++ nl ++ body ++ nl ++ "##" ++ post.



(** The input items of a call for which the classifier gives a line, with
    their positions; [j] is the index of the head of [items]. *)
Fixpoint call_inputs (i j : nat) (items : list JSObject) (ph : Phase)
  : list (nat * nat * Msg) :=
  match items with
  | []%list => []%list
  | (item :: rest)%list =>
      match renderInputItem item ph with
      | Ok (Some m) => ((i, j, m) :: call_inputs i (S j) rest ph)%list
      | _ => call_inputs i (S j) rest ph
      end
  end.

(** The same over the calls [rest], the head of which has index [i] and is
    processed with the cursor [seen]: of each call, the items from the cursor
    on, after the reset test. *)
Fixpoint log_inputs (i seen : nat) (rest : list ApiCall) : list (nat * nat * Msg) :=
  match rest with
  | []%list => []%list
  | (call :: rest')%list =>
      let from := reset_cursor seen call in
      (call_inputs i from (skipn from (input call)) (phase_of call)
       ++ log_inputs (S i) (length (input call) + length (output call)) rest')%list
  end.

(** The lines of a trace, from the positions of the items they come from. *)
Definition input_line (l : nat * nat * Msg) : Line :=
  let '(i, j, m) := l in (InputItem i j, m).

Definition output_line (l : nat * nat * Msg) : Line :=
  let '(i, j, m) := l in (OutputItem i j, m).

(** The lines of the call at index [i], processed with the cursor [seen]:
    its dividers, then the lines of its input items from the cursor on, then
    the lines of its output items. *)
Definition call_lines (host : Host) (calls : list ApiCall) (i seen : nat)
    (call : ApiCall) : list Line :=
  let from := reset_cursor seen call in
  (dividers_traced calls i call
   ++ map input_line (call_inputs i from (skipn from (input call)) (phase_of call))
   ++ map output_line (call_outputs host i 0 (output call) (phase_of call)))%list.

(** The lines of the calls [rest], the head of which has index [i] and is
    processed with the cursor [seen]. *)
Fixpoint log_lines (host : Host) (calls : list ApiCall) (i seen : nat)
    (rest : list ApiCall) : list Line :=
  match rest with
  | []%list => []%list
  | (call :: rest')%list =>
      (call_lines host calls i seen call
       ++ log_lines host calls (S i) (length (input call) + length (output call)) rest')%list
  end.

(** The value of [seenInputItems] when the call at index [i] is reached: what
    the call before it left, 0 for the first call. *)
Definition seen_before (calls : list ApiCall) (i : nat) : nat :=
  match previous calls i with
  | Some p => length (input p) + length (output p)
  | None => 0
  end.

(** The index from which the input items of the call at index [i] are
    handed to the classifier. *)
Definition first_shown (calls : list ApiCall) (i : nat) (call : ApiCall) : nat :=
  reset_cursor (seen_before calls i) call.

(** ** More invariants of the live session *)

(** While no conversation is active the countdown is at zero and no
    interval runs. *)
Definition idle_inv (w : World) : Prop :=
  conversing (view w) = false -> countdown (view w) = 0%Z /\ intervals w = []%list.

(** The current socket has the three handlers that [connectWs] installed. *)
Definition handlers_inv (w : World) : Prop :=
  forall ws s, wsRef w = Some ws -> nth_error (sockets w) ws = Some s ->
               onmessage s = true /\ onerror s = true /\ onclose s = true.

(** * Properties *)

Open Scope list_scope.

(** ** The reference host on samples *)

Example parse_message :
  RefHost.parse ("{" ++ quoted "message" ++ ":" ++ quoted "hello" ++ "}")
  = Ok (JObj [("message", JStr "hello")]).
Proof. reflexivity. Qed.

Example parse_nested :
  RefHost.parse ("{ " ++ quoted "a" ++ " : [1, -20, true, null], " ++ quoted "b"
                 ++ ": {}, " ++ quoted "a" ++ ": " ++ quoted "x\ny" ++ " }")
  = Ok (JObj [("a", JStr ("x" ++ nl ++ "y")); ("b", JObj [])]).
Proof. reflexivity. Qed.

Example parse_garbage : RefHost.parse "{oops" = Throw SyntaxError.
Proof. reflexivity. Qed.

Example stringify_nested :
  RefHost.stringify (JObj [("q", JStr ("a" ++ String DQ "b")); ("n", JArr [JNum 1; JUndefined])])
  = JStr ("{" ++ nl ++ "  " ++ quoted "q" ++ ": " ++ quoted ("a\" ++ String DQ "b") ++ ","
          ++ nl ++ "  " ++ quoted "n" ++ ": [" ++ nl
          ++ "    1," ++ nl ++ "    null" ++ nl ++ "  ]" ++ nl ++ "}").
Proof. reflexivity. Qed.

(** ** The classifiers *)

Lemma prop_field (p : JSValue) (k : string) :
  nullish p = false -> prop p k = Ok (field p k).
Proof. destruct p; simpl; intros H; try discriminate; reflexivity. Qed.

Lemma find_snoc {A : Type} (f : A -> bool) (l : list A) (a : A) :
  find f (l ++ [a]) = match find f l with
                      | Some x => Some x
                      | None => if f a then Some a else None
                      end.
Proof.
  induction l as [|b l IH]; simpl.
  - reflexivity.
  - destruct (f b); [reflexivity | exact IH].
Qed.

Lemma last_field_cons (ty key : string) (init p : JSValue) (parts : list JSValue) :
  last_field ty key init (p :: parts)
  = last_field ty key (if has_type ty p then field p key else init) parts.
Proof.
  unfold last_field. simpl rev. rewrite find_snoc.
  destruct (find (has_type ty) (rev parts)); [reflexivity|].
  destruct (has_type ty p); reflexivity.
Qed.

Lemma scan_parts_last (parts : list JSValue) :
  forallb (fun p => negb (nullish p)) parts = true ->
  forall text image,
    scan_parts parts text image
    = Ok (last_field "input_text" "text" text parts,
          last_field "input_image" "image_url" image parts).
Proof.
  induction parts as [|p parts IH]; intros Hall text image.
  - reflexivity.
  - simpl in Hall. apply andb_true_iff in Hall as [Hp Hrest].
    apply negb_true_iff in Hp.
    rewrite !last_field_cons. cbn [scan_parts].
    rewrite (prop_field _ "type" Hp). cbn [bind].
    unfold has_type.
    destruct (is_str (field p "type") "input_text");
      destruct (is_str (field p "type") "input_image");
      rewrite ?(prop_field _ _ Hp); cbn [bind]; apply IH; assumption.
Qed.

(** C4, as amended. A user item with a structured content gives a
    subject-side line that carries the text of the LAST text part and the URL
    of the LAST image part; the text is the placeholder "[image]" whenever
    that text is empty or missing, with or without an image; such an item is
    never dropped. A user item with a plain text gives the line of that
    text. *)
Theorem user_item_line (item : JSObject) (ph : Phase) :
  is_str (get item "role") "user" = true ->
  (forall parts,
      get item "content" = JArr parts ->
      forallb (fun p => negb (nullish p)) parts = true ->
      let text := last_field "input_text" "text" (JStr "") parts in
      let image := last_field "input_image" "image_url" JUndefined parts in
      renderInputItem item ph
      = Ok (Some (mkMsg Left (if truthy text then text else JStr "[image]")
                        ph image false)))
  /\ (forall s,
         get item "content" = JStr s ->
         renderInputItem item ph = Ok (Some (subject_line s ph))).
Proof.
  intros Hrole. split.
  - intros parts Hc Hall. unfold renderInputItem. rewrite Hrole, Hc.
    rewrite (scan_parts_last _ Hall). reflexivity.
  - intros s Hc. unfold renderInputItem. rewrite Hrole, Hc. reflexivity.
Qed.

Lemma user_item_line_witness :
  renderInputItem (user_parts [text_part "one"; image_part "u"; text_part "two"]) Dream
  = Ok (Some (mkMsg Left (JStr "two") Dream (JStr "u") false))
  /\ renderInputItem (user_text "hi") Normal = Ok (Some (subject_line "hi" Normal)).
Proof.
  split.
  - exact (proj1 (user_item_line
                    (user_parts [text_part "one"; image_part "u"; text_part "two"])
                    Dream eq_refl) _ eq_refl eq_refl).
  - exact (proj2 (user_item_line (user_text "hi") Normal eq_refl) _ eq_refl).
Defined.

(** C4 as stated fails on the code: with two text parts the line carries
    the second, not the first; and a content with neither text nor image is
    not dropped but shown as "[image]". *)
Lemma user_item_first_part_counterexample :
  let parts := [text_part "first"; text_part "second"] in
  (exists m, renderInputItem (user_parts parts) Normal = Ok (Some m)
             /\ text m = JStr "second"
             /\ text m <> first_field "input_text" "text" (JStr "") parts)
  /\ first_field "input_text" "text" (JStr "") [] = JStr ""
  /\ first_field "input_image" "image_url" JUndefined [] = JUndefined
  /\ renderInputItem (user_parts []) Normal <> Ok None
  /\ renderInputItem (user_parts []) Normal
     = Ok (Some (mkMsg Left (JStr "[image]") Normal JUndefined false)).
Proof.
  cbv zeta. split; [|repeat split; try reflexivity; discriminate].
  eexists. split; [reflexivity|]. split; [reflexivity|]. discriminate.
Qed.

Section RespondBranch.

Variable host : Host.
Variables (item : JSObject) (ph : Phase) (s : string).
Hypothesis Htype : get item "type" = JStr "function_call".
Hypothesis Hname : get item "name" = JStr "respond".
Hypothesis Hargs : get item "arguments" = JStr s.

Lemma respond_dispatch :
  renderOutputItem host item ph
  = try_catch (respond_try host item ph) (respond_catch item ph).
Proof. unfold renderOutputItem. rewrite Htype, Hname. reflexivity. Qed.

Lemma respond_try_parsed (v : JSValue) :
  JSON_parse host s = Ok v ->
  respond_try host item ph
  = (m <- prop v "message" ;; Ok (Some (respond_line m ph))).
Proof. intros Hp. unfold respond_try. rewrite Hargs. simpl. rewrite Hp. reflexivity. Qed.

(** The [catch] block runs when the parser throws... *)
Lemma respond_parse_failure (e : Exn) :
  JSON_parse host s = Throw e ->
  renderOutputItem host item ph = Ok (Some (respond_line (JStr s) ph)).
Proof.
  intros Hp. rewrite respond_dispatch. unfold respond_try, respond_catch.
  rewrite Hargs. simpl. rewrite Hp. reflexivity.
Qed.

(** ... and also when the text is the JSON literal [null], on which the
    access to [message] throws. *)
Lemma respond_null_payload :
  JSON_parse host s = Ok JNull ->
  renderOutputItem host item ph = Ok (Some (respond_line (JStr s) ph)).
Proof.
  intros Hp. rewrite respond_dispatch, (respond_try_parsed _ Hp).
  unfold respond_catch. rewrite Hargs. reflexivity.
Qed.

End RespondBranch.

(** C10, as amended. The line of a respond call is what the [try] block
    gives, and what the [catch] block gives when the [try] block throws. When
    the argument text parses to a value other than [null], the [try] block
    completes with the [message] field of that value as text; when the value
    has no such field the line is an agent-side line flagged [isRespond] whose
    text is [undefined], and the [catch] block with the raw argument text is
    not used. The [catch] block is used exactly when the parser throws or the
    text parses to [null], on which the access to [message] throws: the line
    then carries the raw argument text. *)
Theorem respond_without_message (host : Host) (item : JSObject) (ph : Phase)
    (s : string) :
  get item "type" = JStr "function_call" ->
  get item "name" = JStr "respond" ->
  get item "arguments" = JStr s ->
  renderOutputItem host item ph
  = try_catch (respond_try host item ph) (respond_catch item ph)
  /\ (forall v, JSON_parse host s = Ok v -> nullish v = false ->
        respond_try host item ph = Ok (Some (respond_line (field v "message") ph)))
  /\ (forall v, JSON_parse host s = Ok v -> nullish v = false ->
        field v "message" = JUndefined ->
        respond_try host item ph = Ok (Some (mkMsg Right JUndefined ph JUndefined true))
        /\ renderOutputItem host item ph
           = Ok (Some (mkMsg Right JUndefined ph JUndefined true))
        /\ renderOutputItem host item ph <> respond_catch item ph)
  /\ ((exists e, respond_try host item ph = Throw e)
      <-> (exists e, JSON_parse host s = Throw e)
          \/ (exists v, JSON_parse host s = Ok v /\ nullish v = true))
  /\ ((exists e, respond_try host item ph = Throw e) ->
      renderOutputItem host item ph = respond_catch item ph
      /\ respond_catch item ph = Ok (Some (respond_line (JStr s) ph))).
Proof.
  intros Htype Hname Hargs.
  pose proof (respond_dispatch host item ph Htype Hname) as Hd.
  assert (Htry : forall v, JSON_parse host s = Ok v -> nullish v = false ->
            respond_try host item ph = Ok (Some (respond_line (field v "message") ph))).
  { intros v Hp Hv. rewrite (respond_try_parsed host item ph s Hargs v Hp).
    now rewrite (prop_field v "message" Hv). }
  split; [exact Hd|]. split; [exact Htry|]. split; [|split].
  - intros v Hp Hv Hm. pose proof (Htry v Hp Hv) as H. rewrite Hm in H.
    split; [exact H|]. rewrite Hd, H. split; [reflexivity|].
    unfold respond_catch. discriminate.
  - split.
    + intros [e He]. destruct (JSON_parse host s) as [v|e'] eqn:Hp; [|eauto].
      right. exists v. split; [reflexivity|].
      destruct (nullish v) eqn:Hv; [reflexivity|].
      rewrite (Htry v eq_refl Hv) in He. discriminate He.
    + intros [[e Hp]|(v & Hp & Hv)].
      * exists e. unfold respond_try. rewrite Hargs. simpl. now rewrite Hp.
      * rewrite (respond_try_parsed host item ph s Hargs v Hp).
        destruct v; try discriminate Hv; simpl; eauto.
  - intros [e He]. rewrite Hd, He. split; [reflexivity|].
    unfold respond_catch. now rewrite Hargs.
Qed.

Lemma respond_without_message_witness :
  renderOutputItem RefHost.host
    (function_call "respond" (JStr ("{" ++ quoted "mood" ++ ": 3}"))) Planning
  = Ok (Some (mkMsg Right JUndefined Planning JUndefined true)).
Proof.
  exact (proj1 (proj2 (proj1 (proj2 (proj2 (respond_without_message RefHost.host
    (function_call "respond" (JStr ("{" ++ quoted "mood" ++ ": 3}"))) Planning
    ("{" ++ quoted "mood" ++ ": 3}") eq_refl eq_refl eq_refl)))
    (JObj [("mood", JNum 3)]) eq_refl eq_refl eq_refl))).
Defined.

(** C10 as stated fails on the code: the argument text [null] parses
    without a throw, and the line carries the raw argument text all the
    same, because the access to [message] on [null] throws inside the [try]
    block. *)
Lemma respond_null_fallback_counterexample :
  let item := function_call "respond" (JStr "null") in
  JSON_parse RefHost.host "null" = Ok JNull
  /\ (exists e, respond_try RefHost.host item Normal = Throw e)
  /\ renderOutputItem RefHost.host item Normal = respond_catch item Normal
  /\ renderOutputItem RefHost.host item Normal
     = Ok (Some (respond_line (JStr "null") Normal)).
Proof.
  cbv zeta. split; [reflexivity|]. split; [eexists; reflexivity|].
  split; reflexivity.
Qed.

(** ** The loop, call by call *)

Lemma bind_Ok {A B : Type} (c : Throws A) (k : A -> Throws B) (b : B) :
  bind c k = Ok b -> exists a, c = Ok a /\ k a = Ok b.
Proof. destruct c; simpl; intros H; [eauto | discriminate]. Qed.

Section Items.

Variable render : JSObject -> Phase -> Throws (option Msg).
Variable origin : nat -> Origin.
Variable ph : Phase.

Lemma render_items_classified (items : list JSObject) (ms : list Msg) :
  render_items render items ph ms
  = (ls <- classified render items ph ;; Ok (ms ++ ls)).
Proof.
  revert ms. induction items as [|item rest IH]; intros ms; simpl.
  - now rewrite app_nil_r.
  - destruct (render item ph) as [msg|e]; simpl; [|reflexivity].
    rewrite IH. destruct (classified render rest ph) as [ls|e]; simpl; [|reflexivity].
    destruct msg; simpl; [now rewrite <- app_assoc | reflexivity].
Qed.

Lemma trace_items_tagged (items : list JSObject) (j : nat) (tr : list Line) :
  trace_items render origin items j ph tr
  = (ls <- tagged render origin items j ph ;; Ok (tr ++ ls)).
Proof.
  revert j tr. induction items as [|item rest IH]; intros j tr; simpl.
  - now rewrite app_nil_r.
  - destruct (render item ph) as [msg|e]; simpl; [|reflexivity].
    rewrite IH. destruct (tagged render origin rest (S j) ph) as [ls|e]; simpl;
      [|reflexivity].
    destruct msg; simpl; [now rewrite <- app_assoc | reflexivity].
Qed.

Lemma classified_tagged (items : list JSObject) (j : nat) :
  classified render items ph = fmap (map snd) (tagged render origin items j ph).
Proof.
  revert j. induction items as [|item rest IH]; intros j; simpl.
  - reflexivity.
  - destruct (render item ph) as [msg|e]; simpl; [|reflexivity].
    rewrite (IH (S j)).
    destruct (tagged render origin rest (S j) ph) as [ls|e]; simpl; [|reflexivity].
    destruct msg; reflexivity.
Qed.

End Items.

Section Calls.

Variable host : Host.

Lemma dividers_pushed (calls : list ApiCall) (i : nat) (call : ApiCall) (ms : list Msg) :
  push_if (planning_divider calls i call)
    (mkMsg System (JStr "Planning...") Planning JUndefined false)
    (push_if (dream_divider calls i call)
       (mkMsg System (JStr "Reflecting...") Dream JUndefined false)
       (push_if (system_divider calls i call)
          (mkMsg System (JStr (instructions call)) Normal JUndefined false) ms))
  = ms ++ dividers calls i call.
Proof.
  unfold dividers, dividers_traced, push_if.
  destruct (system_divider calls i call), (dream_divider calls i call),
    (planning_divider calls i call); simpl;
    rewrite <- ?app_assoc, ?app_nil_r; reflexivity.
Qed.

Lemma dividers_noted (calls : list ApiCall) (i : nat) (call : ApiCall) (tr : list Line) :
  note_if (planning_divider calls i call) (PlanningDivider i)
    (mkMsg System (JStr "Planning...") Planning JUndefined false)
    (note_if (dream_divider calls i call) (DreamDivider i)
       (mkMsg System (JStr "Reflecting...") Dream JUndefined false)
       (note_if (system_divider calls i call) (SystemPrompt i)
          (mkMsg System (JStr (instructions call)) Normal JUndefined false) tr))
  = tr ++ dividers_traced calls i call.
Proof.
  unfold dividers_traced, note_if.
  destruct (system_divider calls i call), (dream_divider calls i call),
    (planning_divider calls i call); simpl;
    rewrite <- ?app_assoc, ?app_nil_r; reflexivity.
Qed.

(** One iteration, as the lines it appends and the cursor it leaves. *)
Lemma reconcile_call_eq (calls : list ApiCall) (i : nat) (call : ApiCall) (st : Stream) :
  reconcile_call host calls i call st
  = (ins <- classified renderInputItem
             (skipn (reset_cursor (seenInputItems st) call) (input call))
             (phase_of call) ;;
     outs <- classified (renderOutputItem host) (output call) (phase_of call) ;;
     Ok (mkStream (messages st ++ dividers calls i call ++ ins ++ outs)
                  (length (input call) + length (output call)))).
Proof.
  unfold reconcile_call. cbv zeta. rewrite dividers_pushed.
  rewrite render_items_classified.
  destruct (classified renderInputItem _ _) as [ins|e]; simpl; [|reflexivity].
  rewrite render_items_classified.
  destruct (classified (renderOutputItem host) _ _) as [outs|e]; simpl; [|reflexivity].
  now rewrite <- !app_assoc.
Qed.

Lemma reconcile_call_traced_eq (calls : list ApiCall) (i : nat) (call : ApiCall)
    (st : Traced) :
  reconcile_call_traced host calls i call st
  = (ins <- tagged renderInputItem (InputItem i)
             (skipn (reset_cursor (cursor st) call) (input call))
             (reset_cursor (cursor st) call) (phase_of call) ;;
     outs <- tagged (renderOutputItem host) (OutputItem i) (output call) 0
              (phase_of call) ;;
     Ok (mkTraced (trace st ++ dividers_traced calls i call ++ ins ++ outs)
                  (length (input call) + length (output call)))).
Proof.
  unfold reconcile_call_traced. cbv zeta. rewrite dividers_noted.
  rewrite trace_items_tagged.
  destruct (tagged renderInputItem _ _ _ _) as [ins|e]; simpl; [|reflexivity].
  rewrite trace_items_tagged.
  destruct (tagged (renderOutputItem host) _ _ _ _) as [outs|e]; simpl; [|reflexivity].
  now rewrite <- !app_assoc.
Qed.

(** Erasing the origins of the traced loop gives the loop of the source. *)
Lemma reconcile_call_erase (calls : list ApiCall) (i : nat) (call : ApiCall) (st : Traced) :
  reconcile_call host calls i call (erase st)
  = fmap erase (reconcile_call_traced host calls i call st).
Proof.
  rewrite reconcile_call_eq, reconcile_call_traced_eq. simpl.
  rewrite (classified_tagged renderInputItem (InputItem i) (phase_of call) _
             (reset_cursor (cursor st) call)).
  destruct (tagged renderInputItem _ _ _ _) as [ins|e]; simpl; [|reflexivity].
  rewrite (classified_tagged (renderOutputItem host) (OutputItem i) (phase_of call) _ 0).
  destruct (tagged (renderOutputItem host) _ _ _ _) as [outs|e]; simpl; [|reflexivity].
  unfold erase, dividers. simpl. now rewrite !map_app.
Qed.

Lemma reconcile_from_erase (calls rest : list ApiCall) (i : nat) (st : Traced) :
  reconcile_from host calls i rest (erase st)
  = fmap erase (reconcile_from_traced host calls i rest st).
Proof.
  revert i st. induction rest as [|call rest IH]; intros i st; simpl.
  - reflexivity.
  - rewrite reconcile_call_erase.
    destruct (reconcile_call_traced host calls i call st) as [st'|e]; simpl;
      [apply IH | reflexivity].
Qed.

Lemma reconcile_traced_erase (calls : list ApiCall) :
  reconcile host calls = fmap erase (reconcile_traced host calls).
Proof. exact (reconcile_from_erase calls calls 0 (mkTraced [] 0)). Qed.

End Calls.

Lemma previous_app (calls extra : list ApiCall) (k : nat) :
  k <= length calls -> previous (calls ++ extra) k = previous calls k.
Proof.
  destruct k as [|j]; simpl; intros H; [reflexivity|].
  apply nth_error_app1. lia.
Qed.

Lemma dividers_app (calls extra : list ApiCall) (k : nat) (call : ApiCall) :
  k <= length calls ->
  system_divider (calls ++ extra) k call = system_divider calls k call
  /\ dream_divider (calls ++ extra) k call = dream_divider calls k call
  /\ planning_divider (calls ++ extra) k call = planning_divider calls k call.
Proof.
  intros H. unfold system_divider, dream_divider, planning_divider.
  rewrite (previous_app calls extra k H). auto.
Qed.

Section Threading.

Variable host : Host.

Lemma reconcile_call_app (calls extra : list ApiCall) (k : nat) (call : ApiCall)
    (st : Stream) :
  k <= length calls ->
  reconcile_call host (calls ++ extra) k call st = reconcile_call host calls k call st.
Proof.
  intros H. unfold reconcile_call.
  destruct (dividers_app calls extra k call H) as (-> & -> & ->). reflexivity.
Qed.

Lemma reconcile_from_app (calls extra rest : list ApiCall) (i : nat) (st : Stream) :
  i + length rest <= length calls ->
  reconcile_from host (calls ++ extra) i rest st = reconcile_from host calls i rest st.
Proof.
  revert i st. induction rest as [|call rest IH]; intros i st H; simpl in *.
  - reflexivity.
  - rewrite reconcile_call_app by lia.
    destruct (reconcile_call host calls i call st); simpl; [apply IH; lia | reflexivity].
Qed.

Lemma reconcile_from_snoc (log rest : list ApiCall) (i : nat) (call : ApiCall) (st : Stream) :
  reconcile_from host log i (rest ++ [call]) st
  = (st' <- reconcile_from host log i rest st ;;
     reconcile_call host log (i + length rest) call st').
Proof.
  revert i st. induction rest as [|c rest IH]; intros i st; simpl.
  - rewrite Nat.add_0_r. destruct (reconcile_call host log i call st); reflexivity.
  - destruct (reconcile_call host log i c st) as [st1|e]; simpl; [|reflexivity].
    rewrite IH. now rewrite Nat.add_succ_r.
Qed.

(** The stream of a log with one more call: the stream of the log, then
    one iteration with the cursor it left. *)
Lemma reconcile_snoc (calls : list ApiCall) (call : ApiCall) :
  reconcile host (calls ++ [call])
  = (st <- reconcile host calls ;;
     reconcile_call host (calls ++ [call]) (length calls) call st).
Proof.
  unfold reconcile. rewrite reconcile_from_snoc.
  rewrite reconcile_from_app by (simpl; lia). reflexivity.
Qed.

Lemma reconcile_from_cat (log a b : list ApiCall) (i : nat) (st : Stream) :
  reconcile_from host log i (a ++ b) st
  = (st' <- reconcile_from host log i a st ;;
     reconcile_from host log (i + length a) b st').
Proof.
  revert i st. induction a as [|c a IH]; intros i st; simpl.
  - now rewrite Nat.add_0_r.
  - destruct (reconcile_call host log i c st) as [st1|e]; simpl; [|reflexivity].
    rewrite IH. now rewrite Nat.add_succ_r.
Qed.

(** The stream of a log around one of its calls: the stream of the calls
    before, one iteration with the cursor they left, then the calls after. *)
Lemma reconcile_split (before after : list ApiCall) (call : ApiCall) :
  reconcile host (before ++ call :: after)
  = (st <- reconcile host before ;;
     st' <- reconcile_call host (before ++ call :: after) (length before) call st ;;
     reconcile_from host (before ++ call :: after) (S (length before)) after st').
Proof.
  unfold reconcile. rewrite reconcile_from_cat.
  rewrite reconcile_from_app by (simpl; lia). reflexivity.
Qed.

End Threading.

(** C2. For every call of a log, with [seen] the cursor that the calls
    before it left: when [seen] is at least the length of the input of the
    call, the cursor is reset to 0 and every item of that input goes through
    the classifier; otherwise only the items at index [seen] and after do. In
    both cases the cursor with which the next call is processed is the length
    of the input plus the length of the output. *)
Theorem reset_detection (host : Host) (before after : list ApiCall) (call : ApiCall)
    (st : Stream) :
  reconcile host before = Ok st ->
  let seen := seenInputItems st in
  let log := before ++ call :: after in
  let emit (new_inputs : list JSObject) :=
    (ins <- classified renderInputItem new_inputs (phase_of call) ;;
     outs <- classified (renderOutputItem host) (output call) (phase_of call) ;;
     Ok (mkStream (messages st ++ dividers log (length before) call ++ ins ++ outs)
                  (length (input call) + length (output call)))) in
  let next (st' : Stream) := reconcile_from host log (S (length before)) after st' in
  (length (input call) <= seen ->
   reset_cursor seen call = 0
   /\ reconcile host log = (st' <- emit (input call) ;; next st'))
  /\ (seen < length (input call) ->
      reset_cursor seen call = seen
      /\ reconcile host log = (st' <- emit (skipn seen (input call)) ;; next st'))
  /\ (forall new_inputs st',
         emit new_inputs = Ok st' ->
         seenInputItems st' = length (input call) + length (output call)).
Proof.
  intros Hst seen log emit next.
  assert (Hlog : reconcile host log
                 = (st' <- emit (skipn (reset_cursor seen call) (input call)) ;; next st')).
  { unfold log. rewrite reconcile_split, Hst. cbn [bind].
    now rewrite reconcile_call_eq. }
  split; [|split].
  - intros Hle. assert (Hr : reset_cursor seen call = 0).
    { unfold reset_cursor. now rewrite (proj2 (Nat.leb_le _ _) Hle). }
    split; [exact Hr|]. rewrite Hlog, Hr. reflexivity.
  - intros Hlt. assert (Hr : reset_cursor seen call = seen).
    { unfold reset_cursor. destruct (Nat.leb_spec (length (input call)) seen); [lia|reflexivity]. }
    split; [exact Hr|]. rewrite Hlog, Hr. reflexivity.
  - intros new_inputs st' Hst'. unfold emit in Hst'.
    apply bind_Ok in Hst' as (ins & _ & Hst'). apply bind_Ok in Hst' as (outs & _ & Hst').
    injection Hst' as <-. reflexivity.
Qed.

Lemma reset_detection_witness :
  reset_cursor 2 (example_call_2 "be a crab") = 0
  /\ reconcile RefHost.host [example_call_1 "be a crab"; example_call_2 "be a crab"]
     = Ok (mkStream [system_line "be a crab"; subject_line "hi" Normal;
                     respond_line (JStr "hello") Normal;
                     subject_line "hi" Normal; subject_line "ok" Normal] 2).
Proof.
  exact (proj1 (reset_detection RefHost.host [example_call_1 "be a crab"] []
                  (example_call_2 "be a crab")
                  (mkStream [system_line "be a crab"; subject_line "hi" Normal;
                             respond_line (JStr "hello") Normal] 2) eq_refl)
               (le_n 2)).
Defined.

(** C5. The end-to-end example, for a host that reads the argument text of
    the respond call. *)
Theorem end_to_end_example (host : Host) (i1 i2 : string) :
  JSON_parse host (message_payload "hello") = Ok (JObj [("message", JStr "hello")]) ->
  let after_1 := [system_line i1; subject_line "hi" Normal;
                  respond_line (JStr "hello") Normal] in
  reconcile host [example_call_1 i1] = Ok (mkStream after_1 2)
  /\ length (input (example_call_2 i2)) = 2
  /\ reset_cursor 2 (example_call_2 i2) = 0
  /\ reconcile host [example_call_1 i1; example_call_2 i2]
     = Ok (mkStream (after_1
                     ++ (if String.eqb (strip i2) (strip i1) then [] else [system_line i2])
                     ++ [subject_line "hi" Normal; subject_line "ok" Normal]) 2).
Proof.
  intros Hparse after_1.
  assert (H1 : reconcile host [example_call_1 i1] = Ok (mkStream after_1 2)).
  { unfold reconcile. simpl reconcile_from. rewrite reconcile_call_eq.
    change (input (example_call_1 i1)) with [user_text "hi"].
    change (output (example_call_1 i1))
      with [function_call "respond" (JStr (message_payload "hello"))].
    change (phase_of (example_call_1 i1)) with Normal.
    cbn [classified skipn reset_cursor seenInputItems length Nat.leb].
    rewrite (respond_dispatch host
               (function_call "respond" (JStr (message_payload "hello"))) Normal
               eq_refl eq_refl).
    rewrite (respond_try_parsed host
               (function_call "respond" (JStr (message_payload "hello"))) Normal
               (message_payload "hello") eq_refl _ Hparse).
    reflexivity. }
  split; [exact H1|]. split; [reflexivity|]. split; [reflexivity|].
  change [example_call_1 i1; example_call_2 i2]
    with ([example_call_1 i1] ++ [example_call_2 i2]).
  rewrite reconcile_snoc, H1. cbn [bind]. rewrite reconcile_call_eq.
  unfold dividers, dividers_traced, system_divider, dream_divider, planning_divider.
  cbn -[strip String.eqb].
  destruct (String.eqb (strip i2) (strip i1)); reflexivity.
Qed.

Lemma end_to_end_example_witness :
  reconcile RefHost.host [example_call_1 "be a crab"; example_call_2 "be a crab"]
  = Ok (mkStream [system_line "be a crab"; subject_line "hi" Normal;
                  respond_line (JStr "hello") Normal;
                  subject_line "hi" Normal; subject_line "ok" Normal] 2).
Proof.
  exact (proj2 (proj2 (proj2 (end_to_end_example RefHost.host "be a crab" "be a crab"
                                eq_refl)))).
Defined.

(** ** The normalisation of the instructions *)

Section Normalisation.

Open Scope string_scope.

Lemma sapp_assoc (a b c : string) : (a ++ b) ++ c = a ++ (b ++ c).
Proof. induction a as [|x a IH]; simpl; [reflexivity | now rewrite IH]. Qed.

Lemma sapp_nil_r (a : string) : a ++ "" = a.
Proof. induction a as [|x a IH]; simpl; [reflexivity | now rewrite IH]. Qed.

Lemma sapp_length (a b : string) :
String.length (a ++ b) = String.length a + String.length b.
Proof. induction a as [|x a IH]; simpl; [reflexivity | now rewrite IH]. Qed.

Lemma dot_only_app (a b : string) : dot_only (a ++ b) = dot_only a && dot_only b.
Proof.
induction a as [|x a IH]; simpl; [reflexivity|].
rewrite IH. now rewrite andb_assoc.
Qed.

Lemma drop_prefix_split (p s r : string) : drop_prefix p s = Some r -> s = p ++ r.
Proof.
revert s. induction p as [|a p IH]; intros s H; simpl in *.
- now injection H as ->.
- destruct s as [|b s]; [discriminate|].
  destruct (Ascii.eqb_spec a b) as [->|]; [|discriminate].
  now rewrite (IH _ H).
Qed.

Lemma drop_prefix_app (p r : string) : drop_prefix p (p ++ r) = Some r.
Proof.
induction p as [|a p IH]; simpl; [reflexivity|].
now rewrite Ascii.eqb_refl.
Qed.

(** When [s] does not start with [p]: either no extension of [s] does, or [s]
  is a proper prefix of [p]. *)
Lemma drop_prefix_none (p s : string) :
drop_prefix p s = None ->
(forall x, drop_prefix p (s ++ x) = None)
\/ (exists p', p = s ++ p' /\ p' <> ""
               /\ forall x, drop_prefix p (s ++ x) = drop_prefix p' x).
Proof.
revert s. induction p as [|a p IH]; intros s H; simpl in *; [discriminate|].
destruct s as [|b s].
- right. exists (String a p). split; [reflexivity|]. split; [discriminate|reflexivity].
- simpl. destruct (Ascii.eqb_spec a b) as [->|Hab].
  + destruct (IH _ H) as [Hn|(p' & -> & Hp' & Hx)].
    * left. exact Hn.
    * right. exists p'. split; [reflexivity|]. split; assumption.
  + left. reflexivity.
Qed.

Lemma span_dot_run (u x : string) :
dot_only u = true ->
span_dot (u ++ x) = (u ++ fst (span_dot x), snd (span_dot x)).
Proof.
induction u as [|c u IH]; simpl; intros H.
- now destruct (span_dot x).
- apply andb_true_iff in H as [Hc Hu]. apply negb_true_iff in Hc.
  rewrite Hc, (IH Hu). reflexivity.
Qed.

Lemma span_dot_stop (u x run rest : string) (c : ascii) :
span_dot u = (run, String c rest) ->
span_dot (u ++ x) = (run, String c rest ++ x).
Proof.
revert run. induction u as [|d u IH]; simpl; intros run H; [discriminate|].
destruct (is_line_terminator d).
- injection H as <- <- <-. reflexivity.
- destruct (span_dot u) as [run' rest'] eqn:E. injection H as <- ->.
  now rewrite (IH _ eq_refl).
Qed.

Lemma span_dot_all (u run : string) :
span_dot u = (run, "") -> u = run /\ dot_only u = true.
Proof.
revert run. induction u as [|d u IH]; simpl; intros run H.
- injection H as <-. auto.
- destruct (is_line_terminator d) eqn:Hd; [discriminate|].
  destruct (span_dot u) as [run' rest'] eqn:E. injection H as <- ->.
  destruct (IH _ eq_refl) as [-> ->]. auto.
Qed.

Lemma span_dot_nl (post : string) : span_dot (nl ++ post) = ("", nl ++ post).
Proof. reflexivity. Qed.

(** A dot-only text followed by LF is a whole match of [.+\n] when it is not
  empty. *)
Lemma span_then_nl (w post : string) :
dot_only w = true -> w <> "" ->
match span_dot (w ++ nl ++ post) with
| (String _ _, String c rest) => if Ascii.eqb c LF then Some rest else None
| _ => None
end = Some post.
Proof.
intros Hw Hne. rewrite (span_dot_run _ _ Hw), span_dot_nl. simpl.
rewrite sapp_nil_r. destruct w; [congruence | reflexivity].
Qed.

Lemma time_label_dot_only : dot_only time_label = true.
Proof. reflexivity. Qed.

Lemma is_line_spec (t : string) : is_line t = true -> dot_only t = true /\ t <> "".
Proof.
unfold is_line. intros H. apply andb_true_iff in H as [Hne Hd].
split; [exact Hd|]. apply negb_true_iff in Hne. now apply String.eqb_neq.
Qed.

Lemma app_not_empty_r (a b : string) : b <> "" -> a ++ b <> "".
Proof. destruct a; simpl; [auto | discriminate]. Qed.

(** The time line itself is a match. *)
Lemma match_time_line (t post : string) :
is_line t = true -> match_time (with_time "" t post) = Some post.
Proof.
intros Ht. destruct (is_line_spec _ Ht) as [Hd Hne].
change (with_time "" t post) with (time_label ++ (t ++ nl ++ post)).
unfold match_time. rewrite drop_prefix_app. apply span_then_nl; assumption.
Qed.

Lemma span_dot_length (q run rest : string) :
span_dot q = (run, rest) ->
String.length q = String.length run + String.length rest.
Proof.
revert run. induction q as [|d q IH]; simpl; intros run H.
- injection H as <- <-. reflexivity.
- destruct (is_line_terminator d).
  + injection H as <- <-. reflexivity.
  + destruct (span_dot q) as [run' rest'] eqn:E. injection H as <- <-.
    simpl. now rewrite (IH _ eq_refl).
Qed.

Lemma match_time_shorter (s r : string) :
match_time s = Some r -> String.length r < String.length s.
Proof.
unfold match_time. destruct (drop_prefix time_label s) as [q|] eqn:Hq; [|discriminate].
apply drop_prefix_split in Hq. subst s.
destruct (span_dot q) as [run rest] eqn:E.
apply span_dot_length in E.
destruct run; [discriminate|]. destruct rest as [|c rest]; [discriminate|].
destruct (Ascii.eqb c LF); [|discriminate]. intros H. injection H as H. subst rest.
rewrite sapp_length. simpl in *. lia.
Qed.

Lemma replace_first_fixed (s : string) :
replace_first match_time s = s ->
match s with
| EmptyString => True
| String c s' => match_time s = None /\ replace_first match_time s' = s'
end.
Proof.
destruct s as [|c s']; [trivial|].
cbn [replace_first]. destruct (match_time (String c s')) as [r|] eqn:E.
- intros ->. apply match_time_shorter in E. lia.
- intros H. injection H as H. auto.
Qed.

(** A position before the time line, where the text alone has no match:
  whether a match starts there does not depend on the time. *)
Lemma match_time_uniform (u post : string) :
match_time u = None ->
(forall t, is_line t = true -> match_time (with_time u t post) = None)
\/ (forall t, is_line t = true -> match_time (with_time u t post) = Some post).
Proof.
intros Hu. unfold with_time. unfold match_time in Hu.
destruct (drop_prefix time_label u) as [r|] eqn:Hr.
- (* the label is inside u *)
  destruct (span_dot r) as [run rest] eqn:E.
  assert (Hdp : forall x, drop_prefix time_label (u ++ x) = Some (r ++ x)).
  { intros x. rewrite (drop_prefix_split _ _ _ Hr), sapp_assoc. apply drop_prefix_app. }
  destruct rest as [|c rest].
  + right. intros t Ht. destruct (is_line_spec _ Ht) as [Hd Hne].
    destruct (span_dot_all _ _ E) as [<- Hrd].
    unfold match_time. rewrite Hdp.
    replace (r ++ time_label ++ t ++ nl ++ post)
      with ((r ++ time_label ++ t) ++ nl ++ post) by now rewrite !sapp_assoc.
    apply span_then_nl.
    * now rewrite !dot_only_app, Hrd, Hd, time_label_dot_only.
    * apply app_not_empty_r, app_not_empty_r, Hne.
  + left. intros t Ht. unfold match_time. rewrite Hdp.
    rewrite (span_dot_stop _ _ _ _ _ E). destruct run; [reflexivity|].
    simpl. destruct (Ascii.eqb c LF); [discriminate | reflexivity].
- destruct (drop_prefix_none _ _ Hr) as [Hn|(p' & Hp' & Hne' & Hx)].
  + left. intros t _. unfold match_time. now rewrite Hn.
  + (* u is a proper prefix of the label *)
    destruct (drop_prefix p' time_label) as [w|] eqn:Hw.
    * right. intros t Ht. destruct (is_line_spec _ Ht) as [Hd Hne].
      unfold match_time. rewrite Hx.
      rewrite (drop_prefix_split _ _ _ Hw), sapp_assoc, drop_prefix_app.
      assert (Hwd : dot_only w = true).
      { pose proof time_label_dot_only as Hl.
        rewrite (drop_prefix_split _ _ _ Hw), dot_only_app in Hl.
        now apply andb_true_iff in Hl. }
      replace (w ++ t ++ nl ++ post) with ((w ++ t) ++ nl ++ post)
        by now rewrite !sapp_assoc.
      apply span_then_nl.
      -- now rewrite dot_only_app, Hwd, Hd.
      -- apply app_not_empty_r, Hne.
    * left. intros t _. unfold match_time. rewrite Hx.
      destruct (drop_prefix_none _ _ Hw) as [Hn|(p'' & Hp'' & Hne'' & _)].
      -- now rewrite Hn.
      -- exfalso. apply (f_equal String.length) in Hp', Hp''.
         rewrite sapp_length in Hp', Hp''.
         assert (String.length p'' <> 0) by (destruct p''; simpl; congruence).
         lia.
Qed.

Lemma replace_first_here (m : string -> option string) (s r : string) :
m s = Some r -> replace_first m s = r.
Proof. intros H. destruct s; simpl; now rewrite H. Qed.

Lemma replace_first_later (m : string -> option string) (c : ascii) (s : string) :
m (String c s) = None -> replace_first m (String c s) = String c (replace_first m s).
Proof. intros H. simpl. now rewrite H. Qed.

(** Two instructions that differ only in the text of their time line have
  the same normal form, when no time line comes before. *)
Lemma strip_time_line (pre post t1 t2 : string) :
replace_first match_time pre = pre ->
is_line t1 = true -> is_line t2 = true ->
strip (with_time pre t1 post) = strip (with_time pre t2 post).
Proof.
intros Hpre H1 H2. unfold strip. f_equal.
induction pre as [|c pre IH].
- rewrite (replace_first_here _ _ _ (match_time_line t1 post H1)).
  now rewrite (replace_first_here _ _ _ (match_time_line t2 post H2)).
- apply replace_first_fixed in Hpre as [Hnone Hfix].
  destruct (match_time_uniform (String c pre) post Hnone) as [Hn|Hs].
  + change (with_time (String c pre) t1 post) with (String c (with_time pre t1 post)) in *.
    change (with_time (String c pre) t2 post) with (String c (with_time pre t2 post)) in *.
    pose proof (Hn _ H1) as E1. pose proof (Hn _ H2) as E2.
    change (with_time (String c pre) t1 post) with (String c (with_time pre t1 post)) in E1.
    change (with_time (String c pre) t2 post) with (String c (with_time pre t2 post)) in E2.
    rewrite (replace_first_later _ _ _ E1), (replace_first_later _ _ _ E2).
    now rewrite (IH Hfix).
  + rewrite (replace_first_here _ _ _ (Hs _ H1)).
    now rewrite (replace_first_here _ _ _ (Hs _ H2)).
Qed.

End Normalisation.

(** ** What a trace contains *)

Lemma output_lines_app (a b : list Line) :
  output_lines (a ++ b) = output_lines a ++ output_lines b.
Proof.
  induction a as [|[o m] a IH]; simpl; [reflexivity|].
  destruct o; simpl; now rewrite IH.
Qed.

Lemma prompt_lines_app (a b : list Line) :
  prompt_lines (a ++ b) = prompt_lines a ++ prompt_lines b.
Proof.
  induction a as [|[o m] a IH]; simpl; [reflexivity|].
  destruct o; simpl; now rewrite IH.
Qed.

Lemma prompt_lines_In (tr : list Line) (i : nat) (m : Msg) :
  In (SystemPrompt i, m) tr <-> In (i, m) (prompt_lines tr).
Proof.
  induction tr as [|[o m'] tr IH]; simpl; [tauto|].
  destruct o; simpl; rewrite <- IH;
    try (split; [intros [H|H]; [discriminate H | exact H] | intros H; now right]).
  split; (intros [H|H]; [left; congruence | now right]).
Qed.

Lemma output_lines_In (tr : list Line) (i j : nat) (m : Msg) :
  In (OutputItem i j, m) tr <-> In (i, j, m) (output_lines tr).
Proof.
  induction tr as [|[o m'] tr IH]; simpl; [tauto|].
  destruct o; simpl; rewrite <- IH;
    try (split; [intros [H|H]; [discriminate H | exact H] | intros H; now right]).
  split; (intros [H|H]; [left; congruence | now right]).
Qed.

Lemma dividers_lines (calls : list ApiCall) (i : nat) (call : ApiCall) :
  output_lines (dividers_traced calls i call) = []
  /\ prompt_lines (dividers_traced calls i call)
     = if system_divider calls i call then [(i, system_line (instructions call))] else [].
Proof.
  unfold dividers_traced.
  destruct (system_divider calls i call), (dream_divider calls i call),
    (planning_divider calls i call); simpl; auto.
Qed.

Section TaggedLines.

Variable host : Host.
Variables (i : nat) (ph : Phase).

Lemma tagged_inputs (items : list JSObject) (j : nat) (ls : list Line) :
  tagged renderInputItem (InputItem i) items j ph = Ok ls ->
  output_lines ls = [] /\ prompt_lines ls = [].
Proof.
  revert j ls. induction items as [|item rest IH]; intros j ls H; simpl in H.
  - injection H as <-. auto.
  - apply bind_Ok in H as (msg & _ & H). apply bind_Ok in H as (ls' & Hls' & H).
    injection H as <-. destruct (IH _ _ Hls'). destruct msg; simpl; auto.
Qed.

Lemma tagged_outputs (items : list JSObject) (j : nat) (ls : list Line) :
  tagged (renderOutputItem host) (OutputItem i) items j ph = Ok ls ->
  output_lines ls = call_outputs host i j items ph /\ prompt_lines ls = [].
Proof.
  revert j ls. induction items as [|item rest IH]; intros j ls H; simpl in H.
  - injection H as <-. auto.
  - apply bind_Ok in H as (msg & Hmsg & H). apply bind_Ok in H as (ls' & Hls' & H).
    injection H as <-. destruct (IH _ _ Hls') as [Ho Hp]. simpl. rewrite Hmsg.
    destruct msg; simpl; rewrite ?Ho; auto.
Qed.

Lemma call_outputs_In (items : list JSObject) (j a b : nat) (m : Msg) :
  In (a, b, m) (call_outputs host i j items ph)
  <-> a = i /\ j <= b
      /\ exists item, nth_error items (b - j) = Some item
                      /\ renderOutputItem host item ph = Ok (Some m).
Proof.
  revert j. induction items as [|item rest IH]; intros j; simpl.
  - split; [tauto|]. intros (_ & _ & item & H & _). now destruct (b - j).
  - assert (Hrest : In (a, b, m) (call_outputs host i (S j) rest ph)
                    <-> a = i /\ j < b
                        /\ exists item', nth_error (item :: rest) (b - j) = Some item'
                             /\ renderOutputItem host item' ph = Ok (Some m)).
    { rewrite IH. split.
      - intros (-> & Hle & item' & Hn & Hr). repeat split; [lia|].
        exists item'. split; [|exact Hr].
        replace (b - j) with (S (b - S j)) by lia. exact Hn.
      - intros (-> & Hlt & item' & Hn & Hr). repeat split; [lia|].
        exists item'. split; [|exact Hr].
        replace (b - j) with (S (b - S j)) in Hn by lia. exact Hn. }
    assert (Hhead : forall m', renderOutputItem host item ph = Ok (Some m') ->
              (In (a, b, m) ((i, j, m') :: call_outputs host i (S j) rest ph)
               <-> a = i /\ j <= b
                   /\ exists item', nth_error (item :: rest) (b - j) = Some item'
                        /\ renderOutputItem host item' ph = Ok (Some m))).
    { intros m' Hm'. simpl. rewrite Hrest. split.
      - intros [H|(-> & Hlt & H)].
        + injection H as <- <- <-. repeat split; [lia|].
          exists item. rewrite Nat.sub_diag. auto.
        + repeat split; [lia | exact H].
      - intros (-> & Hle & item' & Hn & Hr).
        destruct (Nat.eq_dec j b) as [->|Hne].
        + left. rewrite Nat.sub_diag in Hn. injection Hn as <-. congruence.
        + right. repeat split; [lia|]. eauto. }
    assert (Hskip : renderOutputItem host item ph <> Ok (Some m) ->
              (In (a, b, m) (call_outputs host i (S j) rest ph)
               <-> a = i /\ j <= b
                   /\ exists item', nth_error (item :: rest) (b - j) = Some item'
                        /\ renderOutputItem host item' ph = Ok (Some m))).
    { intros Hne. rewrite Hrest. split.
      - intros (-> & Hlt & H). repeat split; [lia | exact H].
      - intros (-> & Hle & item' & Hn & Hr). repeat split; [|eauto].
        destruct (Nat.eq_dec j b) as [->|]; [|lia].
        rewrite Nat.sub_diag in Hn. injection Hn as <-. contradiction. }
    destruct (renderOutputItem host item ph) as [[m'|]|e] eqn:E.
    + now apply Hhead.
    + apply Hskip. discriminate.
    + apply Hskip. discriminate.
Qed.

Lemma call_outputs_NoDup (items : list JSObject) (j : nat) :
  NoDup (map fst (call_outputs host i j items ph)).
Proof.
  revert j. induction items as [|item rest IH]; intros j; simpl.
  - constructor.
  - destruct (renderOutputItem host item ph) as [[m'|]|e]; try apply IH.
    simpl. constructor; [|apply IH].
    intros Hin. apply in_map_iff in Hin as ([[a b] m] & Heq & Hin).
    simpl in Heq. injection Heq as -> ->.
    apply call_outputs_In in Hin. lia.
Qed.

End TaggedLines.

Section TraceOfLog.

Variable host : Host.

Lemma reconcile_from_traced_lines (calls rest : list ApiCall) (i : nat) (st t : Traced) :
  reconcile_from_traced host calls i rest st = Ok t ->
  output_lines (trace t) = output_lines (trace st) ++ log_outputs host i rest
  /\ prompt_lines (trace t) = prompt_lines (trace st) ++ log_prompts calls i rest.
Proof.
  revert i st. induction rest as [|call rest IH]; intros i st H; simpl in H.
  - injection H as <-. simpl. now rewrite !app_nil_r.
  - apply bind_Ok in H as (st' & Hcall & H).
    destruct (IH _ _ H) as [Ho Hp]. rewrite Ho, Hp. clear IH H Ho Hp.
    rewrite reconcile_call_traced_eq in Hcall.
    apply bind_Ok in Hcall as (ins & Hins & Hcall).
    apply bind_Ok in Hcall as (outs & Houts & Hcall). injection Hcall as <-.
    destruct (tagged_inputs _ _ _ _ _ Hins) as [Hio Hip].
    destruct (tagged_outputs _ _ _ _ _ _ Houts) as [Hoo Hop].
    destruct (dividers_lines calls i call) as [Hdo Hdp].
    cbn [trace log_outputs log_prompts].
    rewrite !output_lines_app, !prompt_lines_app, Hio, Hip, Hoo, Hop, Hdo, Hdp.
    simpl. rewrite !app_nil_r, <- !app_assoc.
    destruct (system_divider calls i call); auto.
Qed.

Lemma log_outputs_In (rest : list ApiCall) (i a b : nat) (m : Msg) :
  In (a, b, m) (log_outputs host i rest)
  <-> i <= a
      /\ exists call item,
           nth_error rest (a - i) = Some call
           /\ nth_error (output call) b = Some item
           /\ renderOutputItem host item (phase_of call) = Ok (Some m).
Proof.
  revert i. induction rest as [|call rest IH]; intros i; simpl.
  - split; [tauto|]. intros (_ & call & item & H & _). now destruct (a - i).
  - rewrite in_app_iff, call_outputs_In, IH, Nat.sub_0_r. split.
    + intros [(-> & _ & item & Hn & Hr)|(Hle & call' & item & Hc & Hn & Hr)].
      * split; [lia|]. exists call, item. rewrite Nat.sub_diag. auto.
      * split; [lia|]. exists call', item.
        replace (a - i) with (S (a - S i)) by lia. auto.
    + intros (Hle & call' & item & Hc & Hn & Hr).
      destruct (Nat.eq_dec a i) as [->|Hne].
      * left. rewrite Nat.sub_diag in Hc. injection Hc as <-.
        repeat split; [lia|]. eauto.
      * right. split; [lia|]. exists call', item.
        replace (a - i) with (S (a - S i)) in Hc by lia. auto.
Qed.

Lemma log_outputs_NoDup (rest : list ApiCall) (i : nat) :
  NoDup (map fst (log_outputs host i rest)).
Proof.
  revert i. induction rest as [|call rest IH]; intros i; simpl.
  - constructor.
  - rewrite map_app. apply NoDup_app; [apply call_outputs_NoDup | apply IH |].
    intros [a b] H1 H2.
    apply in_map_iff in H1 as ([[a1 b1] m1] & Heq1 & H1). simpl in Heq1.
    injection Heq1 as -> ->.
    apply in_map_iff in H2 as ([[a2 b2] m2] & Heq2 & H2). simpl in Heq2.
    injection Heq2 as -> ->.
    apply call_outputs_In in H1. apply log_outputs_In in H2. lia.
Qed.

Lemma log_prompts_In (calls rest : list ApiCall) (i a : nat) (m : Msg) :
  In (a, m) (log_prompts calls i rest)
  <-> i <= a
      /\ exists call, nth_error rest (a - i) = Some call
                      /\ system_divider calls a call = true
                      /\ m = system_line (instructions call).
Proof.
  revert i. induction rest as [|call rest IH]; intros i; simpl.
  - split; [tauto|]. intros (_ & call & H & _). now destruct (a - i).
  - assert (Hrest : In (a, m) (log_prompts calls (S i) rest)
                    <-> i < a
                        /\ exists call', nth_error (call :: rest) (a - i) = Some call'
                             /\ system_divider calls a call' = true
                             /\ m = system_line (instructions call')).
    { rewrite IH. split; intros (Hlt & call' & Hn & H); (split; [lia|]);
        exists call'; (split; [|exact H]).
      - replace (a - i) with (S (a - S i)) by lia. exact Hn.
      - replace (a - i) with (S (a - S i)) in Hn by lia. exact Hn. }
    destruct (system_divider calls i call) eqn:E; simpl; rewrite Hrest; split.
    + intros [H|(Hlt & H)].
      * injection H as <- <-. split; [lia|]. exists call. rewrite Nat.sub_diag. auto.
      * split; [lia | exact H].
    + intros (Hle & call' & Hn & Hd & ->).
      destruct (Nat.eq_dec i a) as [->|Hne].
      * left. rewrite Nat.sub_diag in Hn. injection Hn as <-. reflexivity.
      * right. split; [lia|]. eauto.
    + intros (Hlt & H). split; [lia | exact H].
    + intros (Hle & call' & Hn & Hd & ->).
      destruct (Nat.eq_dec i a) as [->|Hne]; [|split; [lia|]; eauto].
      rewrite Nat.sub_diag in Hn. injection Hn as <-. congruence.
Qed.

End TraceOfLog.

(** ** Logs on which the classifiers do not throw *)

Lemma renderInputItem_total (item : JSObject) (ph : Phase) :
  input_item_ok item = true -> exists r, renderInputItem item ph = Ok r.
Proof.
  unfold input_item_ok, renderInputItem.
  destruct (is_str (get item "role") "user").
  - destruct (get item "content"); intros H; eauto.
    rewrite (scan_parts_last _ H). simpl. eauto.
  - intros _. destruct (is_str (get item "type") "function_call_output"); eauto.
Qed.

Lemma part_text_total (c : JSValue) :
  nullish c = false -> exists r, part_text c = Ok r.
Proof.
  intros H. unfold part_text. rewrite !(prop_field _ _ H). simpl.
  destruct (truthy (field c "text")); eauto.
Qed.

Lemma mapM_total {A B : Type} (f : A -> Throws B) (l : list A) :
  (forall a, In a l -> exists b, f a = Ok b) -> exists bs, mapM f l = Ok bs.
Proof.
  induction l as [|a l IH]; intros H; simpl; [eauto|].
  destruct (H a (or_introl eq_refl)) as [b ->]. simpl.
  destruct IH as [bs ->]; [intros; apply H; now right|]. simpl. eauto.
Qed.

Lemma try_catch_total {A : Type} (body : Throws A) (a : A) :
  exists r, try_catch body (Ok a) = Ok r.
Proof. destruct body; simpl; eauto. Qed.

Lemma renderOutputItem_total (host : Host) (item : JSObject) (ph : Phase) :
  output_item_ok item = true -> exists r, renderOutputItem host item ph = Ok r.
Proof.
  unfold output_item_ok, renderOutputItem.
  destruct (is_str (get item "type") "message").
  - destruct (get item "content") as [| | | | |parts|]; intros H; try discriminate H;
      simpl; eauto.
    destruct (mapM_total part_text parts) as [ts ->].
    { intros c Hc. apply part_text_total.
      unfold parts_ok in H. rewrite forallb_forall in H.
      now apply negb_true_iff, H. }
    simpl. destruct (negb _); eauto.
  - intros _. destruct (is_str (get item "type") "function_call").
    + destruct (is_str (get item "name") "respond").
      * apply try_catch_total.
      * destruct (is_str (get item "name") "shell").
        -- unfold shell_catch. destruct (shell_try host item); simpl; eauto.
        -- simpl. eauto.
    + destruct (is_str (get item "type") "web_search_call"); eauto.
Qed.

Lemma tagged_total (render : JSObject -> Phase -> Throws (option Msg))
    (origin : nat -> Origin) (ph : Phase) (items : list JSObject) (j : nat) :
  (forall item, In item items -> exists r, render item ph = Ok r) ->
  exists ls, tagged render origin items j ph = Ok ls.
Proof.
  revert j. induction items as [|item rest IH]; intros j H; simpl; [eauto|].
  destruct (H item (or_introl eq_refl)) as [r ->]. simpl.
  destruct (IH (S j)) as [ls ->]; [intros; apply H; now right|]. simpl. eauto.
Qed.

Lemma In_skipn {A : Type} (n : nat) (l : list A) (a : A) : In a (skipn n l) -> In a l.
Proof.
  revert l. induction n as [|n IH]; intros [|b l]; simpl; auto.
Qed.

Lemma reconcile_from_traced_total (host : Host) (calls rest : list ApiCall) (i : nat)
    (st : Traced) :
  forallb call_ok rest = true ->
  exists t, reconcile_from_traced host calls i rest st = Ok t.
Proof.
  revert i st. induction rest as [|call rest IH]; intros i st H; simpl; [eauto|].
  simpl in H. apply andb_true_iff in H as [Hcall Hrest].
  unfold call_ok in Hcall. apply andb_true_iff in Hcall as [Hin Hout].
  rewrite forallb_forall in Hin, Hout.
  rewrite reconcile_call_traced_eq.
  destruct (tagged_total renderInputItem (InputItem i) (phase_of call)
              (skipn (reset_cursor (cursor st) call) (input call))
              (reset_cursor (cursor st) call)) as [ins ->].
  { intros item Hitem. apply renderInputItem_total, Hin. eapply In_skipn, Hitem. }
  destruct (tagged_total (renderOutputItem host) (OutputItem i) (phase_of call)
              (output call) 0) as [outs ->].
  { intros item Hitem. apply renderOutputItem_total, Hout, Hitem. }
  simpl. apply IH, Hrest.
Qed.

(** C1, as amended. On a log whose items the classifiers accept, the
    stream is built; and whenever the stream is built, the lines that come
    from output items are, call after call and item after item, the lines the
    classifier gives: an output item for which the classifier gives a line has
    that line in the stream exactly once, whatever the cursor is, and an
    output item for which the classifier gives nothing (a message without
    text, an item of another type) has no line. *)
Theorem outputs_exactly_once (host : Host) (calls : list ApiCall) :
  (log_ok calls = true -> exists t, reconcile_traced host calls = Ok t)
  /\ (forall t,
         reconcile_traced host calls = Ok t ->
         reconcile host calls = Ok (erase t)
         /\ output_lines (trace t) = log_outputs host 0 calls
         /\ NoDup (map fst (output_lines (trace t)))
         /\ forall i j call item,
              nth_error calls i = Some call ->
              nth_error (output call) j = Some item ->
              forall m, In (OutputItem i j, m) (trace t)
                        <-> renderOutputItem host item (phase_of call) = Ok (Some m)).
Proof.
  split; [apply (reconcile_from_traced_total host calls calls 0 (mkTraced [] 0))|].
  intros t Ht.
  split; [rewrite reconcile_traced_erase; now rewrite Ht|].
  destruct (reconcile_from_traced_lines host calls calls 0 _ _ Ht) as [Ho _].
  simpl in Ho. split; [exact Ho|].
  split; [rewrite Ho; apply log_outputs_NoDup|].
  intros i j call item Hc Hi m.
  rewrite output_lines_In, Ho, log_outputs_In, Nat.sub_0_r. split.
  - intros (_ & call' & item' & Hc' & Hi' & Hr). congruence.
  - intros Hr. split; [lia|]. eauto.
Qed.

Lemma outputs_exactly_once_witness :
  exists t,
    reconcile_traced RefHost.host silent_outputs_log = Ok t
    /\ reconcile RefHost.host silent_outputs_log = Ok (erase t)
    /\ output_lines (trace t) = log_outputs RefHost.host 0 silent_outputs_log.
Proof.
  destruct (proj1 (outputs_exactly_once RefHost.host silent_outputs_log) eq_refl)
    as [t Ht].
  destruct (proj2 (outputs_exactly_once RefHost.host silent_outputs_log) t Ht)
    as (H2 & H3 & _).
  exists t. auto.
Defined.

(** C1 as stated fails on the code: a call with three output items, two
    of which the classifier drops, shows one line for them, not three. *)
Lemma dropped_outputs_counterexample :
  exists call tr,
    silent_outputs_log = [call]
    /\ length (output call) = 3
    /\ reconcile_traced RefHost.host silent_outputs_log = Ok (mkTraced tr 3)
    /\ output_lines tr
       = [(0, 2, mkMsg Right (JStr "[web search]") Normal JUndefined false)]
    /\ (forall m, ~ In (OutputItem 0 0, m) tr)
    /\ (forall m, ~ In (OutputItem 0 1, m) tr)
    /\ reconcile RefHost.host silent_outputs_log
       = Ok (mkStream [system_line "sys";
                       mkMsg Right (JStr "[web search]") Normal JUndefined false] 3).
Proof.
  eexists. eexists. split; [reflexivity|]. split; [reflexivity|].
  split; [reflexivity|]. split; [reflexivity|].
  split; [|split; [|reflexivity]];
    intros m [H|[H|[]]]; discriminate H.
Qed.

(** ** The system prompt *)

Lemma phase_normal (call : ApiCall) :
  phase_of call = Normal
  <-> or_false (is_dream call) = false /\ or_false (is_planning call) = false.
Proof.
  unfold phase_of. destruct (or_false (is_dream call)), (or_false (is_planning call));
    split; intros H; try discriminate H; try (destruct H; discriminate); auto.
Qed.

(** The test of the loop, read as a proposition; [j] is the index before
    [i]. *)
Lemma system_divider_spec (calls : list ApiCall) (i : nat) (call : ApiCall) :
  system_divider calls i call = true
  <-> phase_of call = Normal
      /\ (i = 0
          \/ exists j, i = S j
               /\ strip (instructions call)
                  <> strip (match nth_error calls j with
                            | Some p => instructions p
                            | None => ""
                            end)).
Proof.
  unfold system_divider. rewrite phase_normal, !andb_true_iff, !negb_true_iff, orb_true_iff.
  rewrite Nat.eqb_eq, negb_true_iff, String.eqb_neq.
  split.
  - intros [[Hd Hp] [->|Hne]]; (split; [auto|]); [now left|].
    destruct i as [|j]; [now left|]. right. exists j. auto.
  - intros [[Hd Hp] [->|(j & -> & Hne)]]; (split; [auto|]); [now left | now right].
Qed.

Lemma normal_dividers (calls : list ApiCall) (i : nat) (call : ApiCall) :
  phase_of call = Normal ->
  dividers calls i call
  = if system_divider calls i call then [system_line (instructions call)] else [].
Proof.
  intros H. apply phase_normal in H as [Hd Hp].
  unfold dividers, dividers_traced, dream_divider, planning_divider.
  rewrite Hd, Hp. simpl. destruct (system_divider calls i call); reflexivity.
Qed.

Lemma renderInputItem_side (item : JSObject) (ph : Phase) (m : Msg) :
  renderInputItem item ph = Ok (Some m) -> side m = Left.
Proof.
  unfold renderInputItem.
  destruct (is_str (get item "role") "user").
  - destruct (get item "content"); try (intros H; injection H as <-; reflexivity).
    intros H. apply bind_Ok in H as (ti & _ & H). injection H as <-. reflexivity.
  - destruct (is_str (get item "type") "function_call_output"); intros H;
      [injection H as <-; reflexivity | discriminate].
Qed.

Lemma renderOutputItem_side (host : Host) (item : JSObject) (ph : Phase) (m : Msg) :
  renderOutputItem host item ph = Ok (Some m) -> side m = Right.
Proof.
  unfold renderOutputItem.
  destruct (is_str (get item "type") "message").
  - intros H. apply bind_Ok in H as (t & _ & H).
    destruct (truthy t); [injection H as <-; reflexivity | discriminate].
  - destruct (is_str (get item "type") "function_call").
    + destruct (is_str (get item "name") "respond").
      * unfold respond_try, respond_catch.
        destruct (parse_arguments host (get item "arguments")) as [args|e]; simpl.
        -- destruct (prop args "message"); simpl; intros H; injection H as <-; reflexivity.
        -- intros H; injection H as <-; reflexivity.
      * intros H. apply bind_Ok in H as (cmd & _ & H). injection H as <-. reflexivity.
    + destruct (is_str (get item "type") "web_search_call"); intros H;
        [injection H as <-; reflexivity | discriminate].
Qed.

Lemma classified_no_system (render : JSObject -> Phase -> Throws (option Msg))
    (s : Side) (ph : Phase) :
  s <> System ->
  (forall item m, render item ph = Ok (Some m) -> side m = s) ->
  forall items ls, classified render items ph = Ok ls -> count_side System ls = 0.
Proof.
  intros Hs Hside. induction items as [|item rest IH]; intros ls H; simpl in H.
  - injection H as <-. reflexivity.
  - apply bind_Ok in H as (msg & Hmsg & H). apply bind_Ok in H as (ls' & Hls' & H).
    injection H as <-. specialize (IH _ Hls'). destruct msg as [m|]; [|exact IH].
    unfold count_side in *. simpl. rewrite (Hside _ _ Hmsg).
    destruct s; simpl; congruence.
Qed.

Lemma count_side_app (s : Side) (a b : list Msg) :
  count_side s (a ++ b) = count_side s a + count_side s b.
Proof. unfold count_side. now rewrite filter_app, length_app. Qed.

(** C3, as amended. The system prompt of a call is in the stream, with the
    instructions verbatim, exactly when the call is normal-phase and is either
    the first of the log or has instructions whose normal form differs from
    the normal form of the instructions of the call just before it, whatever
    the phase of that call. Two successive normal-phase calls whose
    instructions differ only in the text of the time line show no prompt for
    the second, and a log made of two such calls shows exactly one system
    line. *)
Theorem system_prompt_rule :
  (forall (host : Host) (calls : list ApiCall) (t : Traced) (i : nat)
          (call : ApiCall) (m : Msg),
      reconcile_traced host calls = Ok t ->
      nth_error calls i = Some call ->
      (In (SystemPrompt i, m) (trace t)
       <-> m = system_line (instructions call)
           /\ phase_of call = Normal
           /\ (i = 0
               \/ exists j p, i = S j /\ nth_error calls j = Some p
                    /\ strip (instructions call) <> strip (instructions p))))
  /\ (forall (calls : list ApiCall) (i : nat) (r1 r2 : ApiCall)
             (pre t1 t2 post : string),
         nth_error calls i = Some r1 ->
         nth_error calls (S i) = Some r2 ->
         instructions r1 = with_time pre t1 post ->
         instructions r2 = with_time pre t2 post ->
         replace_first match_time pre = pre ->
         is_line t1 = true -> is_line t2 = true ->
         system_divider calls (S i) r2 = false)
  /\ (forall (host : Host) (r1 r2 : ApiCall) (pre t1 t2 post : string) (st : Stream),
         phase_of r1 = Normal -> phase_of r2 = Normal ->
         instructions r1 = with_time pre t1 post ->
         instructions r2 = with_time pre t2 post ->
         replace_first match_time pre = pre ->
         is_line t1 = true -> is_line t2 = true ->
         reconcile host [r1; r2] = Ok st ->
         count_side System (messages st) = 1).
Proof.
  assert (Hsecond : forall (calls : list ApiCall) (i : nat) (r1 r2 : ApiCall)
             (pre t1 t2 post : string),
         nth_error calls i = Some r1 ->
         instructions r1 = with_time pre t1 post ->
         instructions r2 = with_time pre t2 post ->
         replace_first match_time pre = pre ->
         is_line t1 = true -> is_line t2 = true ->
         system_divider calls (S i) r2 = false).
  { intros calls i r1 r2 pre t1 t2 post H1 Hi1 Hi2 Hpre Ht1 Ht2.
    destruct (system_divider calls (S i) r2) eqn:E; [|reflexivity].
    apply system_divider_spec in E as [_ [E|(j & Hj & Hne)]]; [discriminate|].
    injection Hj as <-. rewrite H1, Hi1, Hi2 in Hne.
    exfalso. apply Hne. now apply strip_time_line. }
  split; [|split].
  - intros host calls t i call m Ht Hcall.
    destruct (reconcile_from_traced_lines host calls calls 0 _ _ Ht) as [_ Hp].
    simpl in Hp.
    rewrite prompt_lines_In, Hp, log_prompts_In, Nat.sub_0_r. split.
    + intros (_ & call' & Hc' & Hd & ->).
      assert (call' = call) by congruence. subst call'.
      apply system_divider_spec in Hd as [Hn Hd]. repeat split; [exact Hn|].
      destruct Hd as [->|(j & -> & Hne)]; [now left|]. right.
      destruct (nth_error calls j) as [p|] eqn:Ej.
      * exists j, p. auto.
      * exfalso. apply nth_error_None in Ej.
        assert (S j < length calls) by (apply nth_error_Some; congruence). lia.
    + intros (-> & Hn & Hd). split; [lia|]. exists call. repeat split; [exact Hcall|].
      apply system_divider_spec. split; [exact Hn|].
      destruct Hd as [->|(j & p & -> & Hp' & Hne)]; [now left|].
      right. exists j. now rewrite Hp'.
  - intros calls i r1 r2 pre t1 t2 post H1 _. now apply Hsecond.
  - intros host r1 r2 pre t1 t2 post st Hn1 Hn2 Hi1 Hi2 Hpre Ht1 Ht2 Hst.
    unfold reconcile in Hst. simpl in Hst.
    apply bind_Ok in Hst as (s1 & Hs1 & Hst). apply bind_Ok in Hst as (s2 & Hs2 & Hst).
    injection Hst as <-.
    rewrite reconcile_call_eq in Hs1, Hs2.
    apply bind_Ok in Hs1 as (ins1 & Hins1 & Hs1).
    apply bind_Ok in Hs1 as (outs1 & Houts1 & Hs1). injection Hs1 as <-.
    apply bind_Ok in Hs2 as (ins2 & Hins2 & Hs2).
    apply bind_Ok in Hs2 as (outs2 & Houts2 & Hs2). injection Hs2 as <-.
    cbn [messages].
    rewrite (normal_dividers _ _ _ Hn1), (normal_dividers _ _ _ Hn2).
    rewrite (Hsecond [r1; r2] 0 r1 r2 pre t1 t2 post eq_refl Hi1 Hi2 Hpre Ht1 Ht2).
    assert (Hfirst : system_divider [r1; r2] 0 r1 = true).
    { apply system_divider_spec. split; [exact Hn1 | now left]. }
    rewrite Hfirst. rewrite !count_side_app.
    assert (Hin : forall items ls, classified renderInputItem items Normal = Ok ls ->
                                   count_side System ls = 0).
    { apply (classified_no_system renderInputItem Left); [discriminate|].
      intros item m. apply renderInputItem_side. }
    assert (Hout : forall items ls,
               classified (renderOutputItem host) items Normal = Ok ls ->
               count_side System ls = 0).
    { apply (classified_no_system (renderOutputItem host) Right); [discriminate|].
      intros item m. apply renderOutputItem_side. }
    rewrite Hn1 in Hins1, Houts1. rewrite Hn2 in Hins2, Houts2.
    rewrite (Hin _ _ Hins1), (Hout _ _ Houts1), (Hin _ _ Hins2), (Hout _ _ Houts2).
    reflexivity.
Qed.

Lemma system_prompt_rule_witness :
  system_divider [timed_call "10:00"; timed_call "10:05"] 1 (timed_call "10:05") = false
  /\ count_side System
       [system_line (instructions (timed_call "10:00"));
        subject_line "Continue." Normal; subject_line "Continue." Normal] = 1.
Proof.
  split.
  - exact (proj1 (proj2 system_prompt_rule)
             [timed_call "10:00"; timed_call "10:05"] 0
             (timed_call "10:00") (timed_call "10:05")
             ("You are a crab." ++ nl)%string "10:00" "10:05" ("Be kind." ++ nl)%string
             eq_refl eq_refl eq_refl eq_refl eq_refl eq_refl eq_refl).
  - exact (proj2 (proj2 system_prompt_rule) RefHost.host
             (timed_call "10:00") (timed_call "10:05")
             ("You are a crab." ++ nl)%string "10:00" "10:05" ("Be kind." ++ nl)%string
             (mkStream [system_line (instructions (timed_call "10:00"));
                        subject_line "Continue." Normal;
                        subject_line "Continue." Normal] 1)
             eq_refl eq_refl eq_refl eq_refl eq_refl eq_refl eq_refl eq_refl).
Defined.

(** C3 as stated fails on the code: the instructions of the third call are
    those of the previous normal-phase call, yet the stream shows its system
    prompt, because the loop compares with the dream call in between. *)
Lemma system_prompt_previous_counterexample :
  previous_normal interleaved_log 2 = Some (mkApiCall "t1" "A" [] [] None None)
  /\ specified_system_divider interleaved_log 2 (mkApiCall "t3" "A" [] [] None None) = false
  /\ system_divider interleaved_log 2 (mkApiCall "t3" "A" [] [] None None) = true
  /\ reconcile RefHost.host interleaved_log
     = Ok (mkStream [system_line "A";
                     mkMsg System (JStr "Reflecting...") Dream JUndefined false;
                     system_line "A"] 0).
Proof. repeat split. Qed.

(** ** The live session *)

Lemma update_nth_length {A : Type} (k : nat) (f : A -> A) (l : list A) :
  length (update_nth k f l) = length l.
Proof.
  revert k. induction l as [|a l IH]; intros [|k]; simpl; auto.
Qed.

Lemma nth_error_update_nth {A : Type} (k j : nat) (f : A -> A) (l : list A) :
  nth_error (update_nth k f l) j
  = if Nat.eqb j k then option_map f (nth_error l j) else nth_error l j.
Proof.
  revert k j. induction l as [|a l IH]; intros [|k] [|j]; simpl; auto.
  now destruct (Nat.eqb j k).
Qed.

Lemma In_remove_nth {A : Type} (k : nat) (l : list A) (a : A) :
  In a (remove_nth k l) -> In a l.
Proof.
  revert k. induction l as [|b l IH]; intros [|k]; simpl; auto.
  intros [H|H]; eauto.
Qed.

(** The effect and the render touch neither the view nor the sockets. *)
Lemma clear_countdown_frame (w : World) :
  view (clear_countdown w) = view w
  /\ wsRef (clear_countdown w) = wsRef w
  /\ sockets (clear_countdown w) = sockets w
  /\ timeouts (clear_countdown w) = timeouts w
  /\ loading (clear_countdown w) = loading w
  /\ countdownRef (clear_countdown w) = countdownRef w.
Proof. unfold clear_countdown. destruct (countdownRef w) eqn:E; simpl; auto 6. Qed.

Lemma countdown_effect_frame (w : World) :
  view (countdown_effect w) = view w
  /\ wsRef (countdown_effect w) = wsRef w
  /\ sockets (countdown_effect w) = sockets w
  /\ timeouts (countdown_effect w) = timeouts w
  /\ loading (countdown_effect w) = loading w.
Proof.
  unfold countdown_effect.
  destruct (clear_countdown_frame w) as (H1 & H2 & H3 & H4 & H5 & _).
  destruct (clear_countdown_frame (clear_countdown w)) as (G1 & G2 & G3 & G4 & G5 & _).
  destruct (0 <? _)%Z; simpl; repeat split; congruence.
Qed.

Lemma commit_frame (w w' : World) :
  view (commit w w') = view w'
  /\ wsRef (commit w w') = wsRef w'
  /\ sockets (commit w w') = sockets w'
  /\ timeouts (commit w w') = timeouts w'
  /\ loading (commit w w') = loading w'.
Proof.
  unfold commit. destruct (Bool.eqb _ _); [auto | apply countdown_effect_frame].
Qed.

Lemma switchCrab_frame (c : string) (w : World) :
  wsRef (switchCrab c w) = wsRef w
  /\ sockets (switchCrab c w) = sockets w
  /\ timeouts (switchCrab c w) = timeouts w.
Proof. unfold switchCrab. destruct (String.eqb _ _); simpl; auto. Qed.

(** *** The invariant of the channel *)

Lemma torn_down_close_detach (s : WebSocket) : torn_down (close (detach s)).
Proof. unfold torn_down, close, detach, live. simpl. destruct (readyState s); auto. Qed.

Lemma connectWs_current (c : string) (w : World) :
  wsRef (connectWs c w) = Some (length (sockets w))
  /\ length (sockets (connectWs c w)) = S (length (sockets w))
  /\ timeouts (connectWs c w) = timeouts w
  /\ view (connectWs c w) = view w.
Proof.
  unfold connectWs. destruct (wsRef w); simpl;
    rewrite ?length_app, ?update_nth_length; simpl; repeat split; lia.
Qed.

Lemma connectWs_inv (c : string) (w : World) : channel_inv w -> channel_inv (connectWs c w).
Proof.
  intros [Ho Hc Ht].
  destruct (connectWs_current c w) as (Hr & Hl & Htm & _).
  constructor.
  - intros k s Hk Hne. rewrite Hr in Hne.
    unfold connectWs in Hk. destruct (wsRef w) as [cur|] eqn:E; simpl in Hk.
    + destruct (Nat.lt_ge_cases k (length (sockets w))) as [Hlt|Hge].
      * rewrite nth_error_app1 in Hk by (now rewrite update_nth_length).
        rewrite nth_error_update_nth in Hk.
        destruct (Nat.eqb_spec k cur) as [->|Hkc].
        -- destruct (nth_error (sockets w) cur); [|discriminate].
           injection Hk as <-. apply torn_down_close_detach.
        -- apply (Ho k s Hk). congruence.
      * rewrite nth_error_app2 in Hk by (now rewrite update_nth_length).
        rewrite update_nth_length in Hk.
        destruct (k - length (sockets w)) as [|d] eqn:Ed;
          [exfalso; apply Hne; f_equal; lia | now destruct d].
    + destruct (Nat.lt_ge_cases k (length (sockets w))) as [Hlt|Hge].
      * rewrite nth_error_app1 in Hk by assumption. apply (Ho k s Hk). discriminate.
      * rewrite nth_error_app2 in Hk by assumption.
        destruct (k - length (sockets w)) as [|d] eqn:Ed;
          [exfalso; apply Hne; f_equal; lia | now destruct d].
  - intros k Hk. rewrite Hr in Hk. injection Hk as <-. lia.
  - intros ws c' Hin. rewrite Htm in Hin. specialize (Ht _ _ Hin). lia.
Qed.

Lemma frame_inv (w w' : World) :
  wsRef w' = wsRef w -> sockets w' = sockets w -> timeouts w' = timeouts w ->
  channel_inv w -> channel_inv w'.
Proof.
  intros Hr Hs Ht [Ho Hc Htm]. constructor; rewrite ?Hr, ?Hs, ?Ht; assumption.
Qed.

Lemma step_inv (w : World) (e : Event) : channel_inv w -> channel_inv (step w e).
Proof.
  intros Hinv. destruct e as [l|l|c| |k r|ws|ws msg|ws|k|h]; simpl.
  - destruct l; eapply frame_inv; try exact Hinv; reflexivity.
  - eapply frame_inv; try exact Hinv; reflexivity.
  - destruct (commit_frame w (switchCrab c w)) as (_ & Hr & Hs & Ht & _).
    destruct (switchCrab_frame c w) as (Hr' & Hs' & Ht').
    eapply frame_inv; try exact Hinv; congruence.
  - eapply frame_inv; try exact Hinv; reflexivity.
  - destruct (nth_error (loading w) k); [|exact Hinv].
    apply connectWs_inv. eapply frame_inv; try exact Hinv; reflexivity.
  - destruct (nth_error (sockets w) ws) as [s|] eqn:Es; [|exact Hinv].
    destruct (readyState s) eqn:Er; try exact Hinv.
    destruct Hinv as [Ho Hc Ht]. constructor; simpl.
    + intros k s' Hk Hne. rewrite nth_error_update_nth in Hk.
      destruct (Nat.eqb_spec k ws) as [->|_]; [|now apply (Ho k)].
      rewrite Es in Hk. simpl in Hk. injection Hk as <-.
      destruct (Ho ws s Es Hne) as (_ & _ & _ & Hl). unfold live in Hl.
      rewrite Er in Hl. discriminate.
    + intros k Hk. rewrite update_nth_length. now apply Hc.
    + intros a c Hin. rewrite update_nth_length. now apply (Ht a c).
  - destruct (nth_error (sockets w) ws) as [s|]; [|exact Hinv].
    destruct (readyState s); try exact Hinv.
    destruct (onmessage s); [|exact Hinv].
    destruct (commit_frame w (with_view (on_message msg (view w)) w))
      as (_ & Hr & Hs & Ht & _).
    eapply frame_inv; try exact Hinv; assumption.
  - destruct (nth_error (sockets w) ws) as [s|] eqn:Es; [|exact Hinv].
    assert (Hclosed : channel_inv
              (with_sockets
                 (update_nth ws
                    (fun s0 => mkWebSocket (crab s0) (onmessage s0) (onerror s0)
                                 (onclose s0) CLOSED) (sockets w)) w)).
    { destruct Hinv as [Ho Hc Ht]. constructor; simpl.
      - intros k s' Hk Hne. rewrite nth_error_update_nth in Hk.
        destruct (Nat.eqb_spec k ws) as [->|_]; [|now apply (Ho k)].
        rewrite Es in Hk. simpl in Hk. injection Hk as <-.
        destruct (Ho ws s Es Hne) as (H1 & H2 & H3 & _). repeat split; assumption.
      - intros k Hk. rewrite update_nth_length. now apply Hc.
      - intros a c Hin. rewrite update_nth_length. now apply (Ht a c). }
    assert (Hlt : ws < length (sockets w)) by (apply nth_error_Some; congruence).
    assert (Hon : channel_inv
              (on_close ws (crab s)
                 (with_sockets
                    (update_nth ws
                       (fun s0 => mkWebSocket (crab s0) (onmessage s0) (onerror s0)
                                    (onclose s0) CLOSED) (sockets w)) w))).
    { unfold on_close. simpl.
      destruct (match wsRef w with Some cur => Nat.eqb cur ws | None => false end);
        [|exact Hclosed].
      destruct Hclosed as [Ho Hc Ht]. constructor; simpl in *; try assumption.
      intros a c Hin. apply in_app_or in Hin as [Hin|[Hin|[]]]; [now apply (Ht a c)|].
      injection Hin as <- <-. now rewrite update_nth_length. }
    destruct (readyState s); try exact Hon; try exact Hinv;
      destruct (onclose s); assumption.
  - destruct (nth_error (timeouts w) k) as [[ws c]|] eqn:Ek; [|exact Hinv].
    assert (Hrem : channel_inv (with_timeouts (remove_nth k (timeouts w)) w)).
    { destruct Hinv as [Ho Hc Ht]. constructor; simpl; try assumption.
      intros a c' Hin. apply (Ht a c'). eapply In_remove_nth, Hin. }
    unfold on_timeout. simpl.
    destruct (match wsRef w with Some cur => Nat.eqb cur ws | None => false end);
      [now apply connectWs_inv | exact Hrem].
  - destruct (existsb (Nat.eqb h) (intervals w)); [|exact Hinv].
    unfold tick. destruct (countdown (view w) <=? 1)%Z.
    + eapply frame_inv; try exact Hinv; unfold clear_countdown;
        destruct (countdownRef w); reflexivity.
    + eapply frame_inv; try exact Hinv; reflexivity.
Qed.

Lemma initial_inv : channel_inv initial_world.
Proof.
  constructor; simpl.
  - intros k s H. now destruct k.
  - discriminate.
  - intros ws c [].
Qed.

Lemma run_inv (w : World) (events : list Event) : channel_inv w -> channel_inv (run w events).
Proof.
  revert w. induction events as [|e events IH]; intros w H; simpl; [exact H|].
  apply IH, step_inv, H.
Qed.

Lemma reachable_inv (events : list Event) : channel_inv (run initial_world events).
Proof. apply run_inv, initial_inv. Qed.

(** *** Switching the crab *)

(** C6, as amended. A switch to another crab sets at once the
    conversation flag, the countdown, the alert, the activity and the flag of
    unseen lines to their initial values; the position, the state of the crab,
    the focus mode and the calls are left as they are until the load of the
    new crab settles. *)
Theorem switch_resets (w : World) (crabId : string) :
  crabId <> activeCrab (view w) ->
  let v := view w in
  let v' := view (step w (UserSwitch crabId)) in
  activeCrab v' = crabId
  /\ conversing v' = false
  /\ countdown v' = 0%Z
  /\ alert v' = false
  /\ activity v' = Activity.mk "idle" ""
  /\ hasNew v' = false
  /\ position v' = position v
  /\ crabState v' = crabState v
  /\ focusMode v' = focusMode v
  /\ calls v' = calls v
  /\ loading (step w (UserSwitch crabId)) = loading w ++ [crabId].
Proof.
  intros Hne. cbv zeta. cbn [step].
  destruct (commit_frame w (switchCrab crabId w)) as (-> & _ & _ & _ & ->).
  unfold switchCrab. apply String.eqb_neq in Hne. rewrite Hne.
  destruct (find _ (crabs (view w))); simpl; repeat split; reflexivity.
Qed.

Lemma switch_resets_witness :
  let v' := view (step showing_a (UserSwitch "b")) in
  activeCrab v' = "b" /\ conversing v' = false /\ position v' = Position.mk 1 2.
Proof.
  destruct (switch_resets showing_a "b") as (H1 & H2 & _ & _ & _ & _ & H7 & _).
  - discriminate.
  - cbv zeta. split; [exact H1 | split; [exact H2 | exact H7]].
Defined.

(** C6 as stated fails on the code: right after the switch from "a" to "b"
    the view still has the position, the state, the focus mode and the calls
    of "a", not the initial values. *)
Lemma switch_keeps_stale_counterexample :
  let v' := view (step showing_a (UserSwitch "b")) in
  activeCrab v' = "b"
  /\ loading (step showing_a (UserSwitch "b")) = ["b"]
  /\ position v' = Position.mk 1 2 /\ position v' <> position initial_view
  /\ crabState v' = "thinking" /\ crabState v' <> crabState initial_view
  /\ focusMode v' = true /\ focusMode v' <> focusMode initial_view
  /\ calls v' = rawData snapshot_a /\ calls v' <> calls initial_view.
Proof. cbv zeta. repeat split; try reflexivity; discriminate. Qed.

(** *** The countdown *)

Lemma clear_countdown_stops (w : World) : tick_inv w -> intervals (clear_countdown w) = [].
Proof.
  unfold clear_countdown. intros [H|(h & Hr & Hi)].
  - destruct (countdownRef w); simpl; rewrite H; reflexivity.
  - rewrite Hr. simpl. rewrite Hi. simpl. now rewrite Nat.eqb_refl.
Qed.

Lemma clear_countdown_idem (w : World) :
  tick_inv w -> clear_countdown (clear_countdown w) = clear_countdown w.
Proof.
  intros H. pose proof (clear_countdown_stops w H) as Hs.
  unfold clear_countdown in *. destruct (countdownRef w) eqn:E; simpl in *.
  - rewrite ?E, Hs. reflexivity.
  - now rewrite ?E.
Qed.

Lemma countdown_effect_inv (w : World) : tick_inv w -> tick_inv (countdown_effect w).
Proof.
  intros H. unfold countdown_effect. rewrite (clear_countdown_idem w H).
  pose proof (clear_countdown_stops w H) as Hs.
  destruct (0 <? _)%Z.
  - right. eexists. simpl. rewrite Hs. split; reflexivity.
  - now left.
Qed.

Lemma commit_tick_inv (w w' : World) : tick_inv w' -> tick_inv (commit w w').
Proof. intros H. unfold commit. destruct (Bool.eqb _ _); [exact H | now apply countdown_effect_inv]. Qed.

Lemma frame_tick_inv (w w' : World) :
  countdownRef w' = countdownRef w -> intervals w' = intervals w ->
  tick_inv w -> tick_inv w'.
Proof. unfold tick_inv. intros -> ->. auto. Qed.

Lemma connectWs_ticks (c : string) (w : World) :
  countdownRef (connectWs c w) = countdownRef w /\ intervals (connectWs c w) = intervals w.
Proof. unfold connectWs. destruct (wsRef w); simpl; auto. Qed.

Lemma step_tick_inv (w : World) (e : Event) : tick_inv w -> tick_inv (step w e).
Proof.
  intros H. destruct e as [l|l|c| |k r|ws|ws msg|ws|k|h]; simpl.
  - destruct l; exact H.
  - exact H.
  - apply commit_tick_inv. unfold switchCrab. destruct (String.eqb _ _); exact H.
  - exact H.
  - destruct (nth_error (loading w) k); [|exact H].
    destruct (connectWs_ticks s
                (with_view (apply_snapshot r (view w))
                   (with_loading (remove_nth k (loading w)) w))) as [Hr Hi].
    eapply frame_tick_inv; [exact Hr | exact Hi | exact H].
  - destruct (nth_error (sockets w) ws) as [s|]; [|exact H].
    destruct (readyState s); exact H.
  - destruct (nth_error (sockets w) ws) as [s|]; [|exact H].
    destruct (readyState s); try exact H. destruct (onmessage s); [|exact H].
    apply commit_tick_inv. exact H.
  - destruct (nth_error (sockets w) ws) as [s|]; [|exact H].
    unfold on_close.
    destruct (readyState s); try exact H; destruct (onclose s); simpl; try exact H;
      destruct (match wsRef w with Some cur => Nat.eqb cur ws | None => false end);
      exact H.
  - destruct (nth_error (timeouts w) k) as [[ws c]|]; [|exact H].
    unfold on_timeout. simpl.
    destruct (match wsRef w with Some cur => Nat.eqb cur ws | None => false end);
      [|exact H].
    destruct (connectWs_ticks c (with_timeouts (remove_nth k (timeouts w)) w)) as [Hr Hi].
    eapply frame_tick_inv; [exact Hr | exact Hi | exact H].
  - destruct (existsb (Nat.eqb h) (intervals w)); [|exact H].
    unfold tick. destruct (countdown (view w) <=? 1)%Z.
    + left. simpl. now apply clear_countdown_stops.
    + exact H.
Qed.

Lemma reachable_tick_inv (events : list Event) : tick_inv (run initial_world events).
Proof.
  assert (G : forall evs w, tick_inv w -> tick_inv (run w evs)).
  { induction evs as [|e evs IH]; intros w H; simpl; [exact H|].
    apply IH, step_tick_inv, H. }
  apply G. now left.
Qed.

Section Ticking.

Variable h : nat.

Lemma ticks_idle (n : nat) (w : World) :
  intervals w = [] -> run w (repeat (Tick h) n) = w.
Proof.
  intros H. induction n as [|n IH]; simpl; [reflexivity|].
  rewrite H. simpl. exact IH.
Qed.

Lemma tick_step (w : World) :
  intervals w = [h] -> step w (Tick h) = tick w.
Proof. intros H. simpl. rewrite H. simpl. now rewrite Nat.eqb_refl. Qed.

Lemma ticks_running (n : nat) (w : World) :
  intervals w = [h] ->
  (Z.of_nat n < countdown (view w))%Z ->
  let wn := run w (repeat (Tick h) n) in
  countdown (view wn) = (countdown (view w) - Z.of_nat n)%Z
  /\ intervals wn = [h]
  /\ conversing (view wn) = conversing (view w).
Proof.
  revert w. induction n as [|n IH]; intros w Hi Hlt.
  - simpl. repeat split; [lia | exact Hi].
  - cbn [repeat run fold_left]. rewrite (tick_step w Hi).
    fold (run (tick w) (repeat (Tick h) n)).
    unfold tick. destruct (Z.leb_spec (countdown (view w)) 1); [lia|].
    destruct (IH (with_view (setCountdown (countdown (view w) - 1) (view w)) w))
      as (H1 & H2 & H3); [exact Hi | simpl; lia |].
    cbv zeta. rewrite H1, H2, H3. simpl. repeat split; lia.
Qed.

Lemma ticks_expired (n : nat) (w : World) :
  intervals w = [h] -> countdownRef w = Some h ->
  (1 <= countdown (view w) <= Z.of_nat n)%Z ->
  let wn := run w (repeat (Tick h) n) in
  countdown (view wn) = 0%Z
  /\ intervals wn = []
  /\ conversing (view wn) = conversing (view w).
Proof.
  revert w. induction n as [|n IH]; intros w Hi Hr Hc.
  - simpl in Hc. lia.
  - cbn [repeat run fold_left]. rewrite (tick_step w Hi).
    fold (run (tick w) (repeat (Tick h) n)).
    unfold tick. destruct (Z.leb_spec (countdown (view w)) 1).
    + assert (Hstop : intervals (clear_countdown w) = []).
      { apply clear_countdown_stops. right. eauto. }
      rewrite ticks_idle by exact Hstop.
      cbv zeta. split; [reflexivity|]. split; [exact Hstop | reflexivity].
    + destruct (IH (with_view (setCountdown (countdown (view w) - 1) (view w)) w))
        as (H1 & H2 & H3); [exact Hi | exact Hr | simpl; lia |].
      cbv zeta. rewrite H1, H2, H3. simpl. auto.
Qed.

End Ticking.

(** C9, as amended. A [waiting] event with a timeout of at least one
    second, received on the open current socket while no conversation is
    active or while the interval of the countdown is still running, sets the
    countdown to the timeout, with one interval running; each of its ticks
    takes one off the countdown; the tick that brings it to zero clears the
    interval, after which the countdown stays at zero. The conversation flag
    stays set all along: the expiry does not clear it. *)
Theorem countdown_runs (events : list Event) (ws : nat) (s : WebSocket) (t : Z) :
  let w := run initial_world events in
  nth_error (sockets w) ws = Some s ->
  readyState s = OPEN -> onmessage s = true ->
  conversing (view w) = false \/ intervals w <> [] ->
  (1 <= t)%Z ->
  let w1 := step w (WsMessage ws (Ev.conversation (Ev.waiting t))) in
  exists h,
    (conversing (view w1) = true /\ countdown (view w1) = t /\ intervals w1 = [h])
    /\ (forall n, (Z.of_nat n < t)%Z ->
          let wn := run w1 (repeat (Tick h) n) in
          countdown (view wn) = (t - Z.of_nat n)%Z
          /\ intervals wn = [h] /\ conversing (view wn) = true)
    /\ (forall n, (t <= Z.of_nat n)%Z ->
          let wn := run w1 (repeat (Tick h) n) in
          countdown (view wn) = 0%Z
          /\ intervals wn = [] /\ conversing (view wn) = true
          /\ step wn (Tick h) = wn).
Proof.
  intros w Hs Hopen Hon Hstart Ht w1.
  pose proof (reachable_tick_inv events) as Hinv. fold w in Hinv.
  set (w0 := with_view (setCountdown t (setConversing true (view w))) w).
  assert (Hinv0 : tick_inv w0) by exact Hinv.
  assert (H1 : exists h, conversing (view w1) = true /\ countdown (view w1) = t
                         /\ intervals w1 = [h] /\ countdownRef w1 = Some h).
  { destruct (conversing (view w)) eqn:Hconv.
    - (* a conversation is active: the effect does not run *)
      assert (Hw1 : w1 = w0).
      { unfold w1. cbn [step]. rewrite Hs, Hopen, Hon. unfold commit. simpl.
        now rewrite Hconv. }
      destruct Hstart as [Hf|Hrun]; [discriminate|].
      destruct Hinv as [He|(h & Hr & Hi)]; [contradiction|].
      exists h. rewrite Hw1. repeat split; assumption.
    - (* no conversation is active: the effect starts an interval *)
      assert (Hw1 : w1 = countdown_effect w0).
      { unfold w1. cbn [step]. rewrite Hs, Hopen, Hon. unfold commit. simpl.
        now rewrite Hconv. }
      exists (next_handle w).
      rewrite Hw1. unfold countdown_effect. rewrite (clear_countdown_idem w0 Hinv0).
      pose proof (clear_countdown_stops w0 Hinv0) as Hstop.
      destruct (clear_countdown_frame w0) as (Hv & _).
      assert (Hn : next_handle (clear_countdown w0) = next_handle w).
      { unfold clear_countdown. destruct (countdownRef w0); reflexivity. }
      assert (Hpos : (0 <? countdown (view (clear_countdown w0)))%Z = true).
      { rewrite Hv. apply Z.ltb_lt. simpl. lia. }
      rewrite Hpos. cbn [view intervals countdownRef]. rewrite Hv, Hstop, Hn.
      repeat split. }
  destruct H1 as (h & Hc1 & Hcd1 & Hi1 & Hr1).
  exists h. split; [auto|]. split.
  - intros n Hn. destruct (ticks_running h n w1 Hi1) as (G1 & G2 & G3); [lia|].
    cbv zeta. rewrite G1, G2, G3, Hcd1, Hc1. auto.
  - intros n Hn. destruct (ticks_expired h n w1 Hi1 Hr1) as (G1 & G2 & G3); [lia|].
    cbv zeta. rewrite G1, G2, G3, Hc1. repeat split.
    simpl. now rewrite G2.
Qed.

Lemma countdown_runs_witness :
  let w := run initial_world
             [MountFetched two_crabs; LoadSettled 0 (Some snapshot_a); WsOpened 0] in
  let w1 := step w (WsMessage 0 (Ev.conversation (Ev.waiting 2))) in
  exists h,
    conversing (view w1) = true /\ countdown (view w1) = 2%Z /\ intervals w1 = [h]
    /\ countdown (view (run w1 (repeat (Tick h) 1))) = 1%Z
    /\ countdown (view (run w1 (repeat (Tick h) 3))) = 0%Z
    /\ intervals (run w1 (repeat (Tick h) 3)) = []
    /\ conversing (view (run w1 (repeat (Tick h) 3))) = true.
Proof.
  destruct (countdown_runs
              [MountFetched two_crabs; LoadSettled 0 (Some snapshot_a); WsOpened 0]
              0 (mkWebSocket "a" true true true OPEN) 2
              eq_refl eq_refl eq_refl (or_introl eq_refl))
    as (h & (Ha & Hb & Hc) & Hrun & Hexp); [lia|].
  destruct (Hrun 1%nat) as (H1 & _); [lia|].
  destruct (Hexp 3%nat) as (H2 & H3 & H4 & _); [lia|].
  exists h. cbv zeta.
  split; [exact Ha|]. split; [exact Hb|]. split; [exact Hc|].
  split; [exact H1|]. split; [exact H2|]. split; [exact H3 | exact H4].
Defined.

(** C9 as stated fails on the code: when the countdown has reached zero and
    its interval is cleared, the conversation flag is still set; and with the
    flag still set the effect does not run on the next [waiting] event, so
    that the countdown shows the new timeout and no interval ticks. *)
Lemma expiry_keeps_conversing_counterexample :
  let w := run showing_a [WsMessage 0 (Ev.conversation (Ev.waiting 2)); Tick 1; Tick 1] in
  let w' := step w (WsMessage 0 (Ev.conversation (Ev.waiting 15))) in
  countdown (view w) = 0%Z /\ intervals w = [] /\ conversing (view w) = true
  /\ countdown (view w') = 15%Z /\ intervals w' = [] /\ conversing (view w') = true.
Proof. vm_compute. repeat split. Qed.

(** *** The channel *)

Lemma filter_none {A : Type} (f : A -> bool) (l : list A) :
  (forall a, In a l -> f a = false) -> filter f l = [].
Proof.
  induction l as [|a l IH]; intros H; simpl; [reflexivity|].
  rewrite (H a (or_introl eq_refl)). apply IH. intros b Hb. apply H. now right.
Qed.

Lemma filter_at_most_one {A : Type} (f : A -> bool) (l : list A) (c : option nat) :
  (forall k a, nth_error l k = Some a -> f a = true -> c = Some k) ->
  length (filter f l) <= 1.
Proof.
  revert c. induction l as [|a l IH]; intros c H; simpl; [lia|].
  destruct (f a) eqn:Ea.
  - rewrite filter_none; [simpl; lia|].
    intros b Hb. destruct (f b) eqn:Eb; [|reflexivity].
    apply In_nth_error in Hb as [k Hk].
    pose proof (H 0 a eq_refl Ea) as H0. pose proof (H (S k) b Hk Eb) as H1.
    congruence.
  - apply (IH (option_map pred c)). intros k b Hk Eb.
    now rewrite (H (S k) b Hk Eb).
Qed.

Lemma inv_open_channels (w : World) : channel_inv w -> open_channels w <= 1.
Proof.
  intros [Ho _ _]. unfold open_channels.
  apply (filter_at_most_one live (sockets w) (wsRef w)).
  intros k s Hk Hl. destruct (wsRef w) as [cur|] eqn:E.
  - destruct (Nat.eq_dec cur k) as [->|Hne]; [reflexivity|].
    destruct (Ho k s Hk) as (_ & _ & _ & Hd); [congruence | congruence].
  - destruct (Ho k s Hk) as (_ & _ & _ & Hd); [discriminate | congruence].
Qed.

(** A step leaves the current socket as it is, or makes a new socket the
    current one. *)
Lemma step_current (w : World) (e : Event) :
  (wsRef (step w e) = wsRef w /\ length (sockets (step w e)) = length (sockets w))
  \/ (wsRef (step w e) = Some (length (sockets w))
      /\ length (sockets (step w e)) = S (length (sockets w))).
Proof.
  destruct e as [l|l|c| |k r|ws|ws msg|ws|k|h]; simpl.
  - left. destruct l; auto.
  - left. auto.
  - left. destruct (commit_frame w (switchCrab c w)) as (_ & -> & -> & _).
    destruct (switchCrab_frame c w) as (-> & -> & _). auto.
  - left. auto.
  - destruct (nth_error (loading w) k); [|left; auto].
    right. destruct (connectWs_current s
                       (with_view (apply_snapshot r (view w))
                          (with_loading (remove_nth k (loading w)) w)))
      as (H1 & H2 & _). auto.
  - left. destruct (nth_error (sockets w) ws) as [s|]; [|auto].
    destruct (readyState s); simpl; rewrite ?update_nth_length; auto.
  - left. destruct (nth_error (sockets w) ws) as [s|]; [|auto].
    destruct (readyState s); auto. destruct (onmessage s); auto.
    destruct (commit_frame w (with_view (on_message msg (view w)) w))
      as (_ & -> & -> & _). auto.
  - left. destruct (nth_error (sockets w) ws) as [s|]; [|auto].
    unfold on_close.
    destruct (readyState s); auto; destruct (onclose s); simpl;
      rewrite ?update_nth_length; auto;
      destruct (match wsRef w with Some cur => Nat.eqb cur ws | None => false end);
      simpl; rewrite ?update_nth_length; auto.
  - destruct (nth_error (timeouts w) k) as [[ws c]|]; [|left; auto].
    unfold on_timeout. simpl.
    destruct (match wsRef w with Some cur => Nat.eqb cur ws | None => false end);
      [|left; auto].
    right. destruct (connectWs_current c (with_timeouts (remove_nth k (timeouts w)) w))
      as (H1 & H2 & _). auto.
  - left. destruct (existsb (Nat.eqb h) (intervals w)); [|auto].
    unfold tick. destruct (countdown (view w) <=? 1)%Z; simpl; auto.
    destruct (clear_countdown_frame w) as (_ & -> & -> & _). auto.
Qed.

(** A socket that is not the current one never becomes the current one. *)
Lemma stale_forever (later : list Event) (w : World) (ws : nat) :
  ws < length (sockets w) -> wsRef w <> Some ws ->
  wsRef (run w later) <> Some ws.
Proof.
  revert w. induction later as [|e later IH]; intros w Hlt Hne; simpl; [exact Hne|].
  destruct (step_current w e) as [[Hr Hl]|[Hr Hl]]; apply IH; rewrite ?Hr, ?Hl;
    try assumption; try lia.
  intros H. injection H as H. lia.
Qed.

Lemma timeout_step (w : World) (k ws : nat) (c : string) :
  nth_error (timeouts w) k = Some (ws, c) ->
  step w (TimeoutFired k)
  = if match wsRef w with Some cur => Nat.eqb cur ws | None => false end
    then connectWs c (with_timeouts (remove_nth k (timeouts w)) w)
    else with_timeouts (remove_nth k (timeouts w)) w.
Proof. intros H. simpl. rewrite H. reflexivity. Qed.

Lemma load_step (w : World) (k : nat) (r : option Snapshot) (c : string) :
  nth_error (loading w) k = Some c ->
  step w (LoadSettled k r)
  = connectWs c (with_view (apply_snapshot r (view w))
                   (with_loading (remove_nth k (loading w)) w)).
Proof. intros H. simpl. rewrite H. reflexivity. Qed.

(** C7, as amended. At any time at most one socket is neither closing nor
    closed. The callback of a reconnect timeout opens a socket exactly when
    the socket that closed is still the one in [wsRef]; a socket that is no
    longer in [wsRef] never is again, so from then on its timeout opens
    nothing. A switch does not change [wsRef]: it is the [connectWs] that
    follows the load of the new crab that does, and after it every pending
    timeout is void. *)
Theorem reconnect_guard (events : list Event) :
  let w := run initial_world events in
  open_channels w <= 1
  /\ (forall k ws c,
         nth_error (timeouts w) k = Some (ws, c) -> wsRef w = Some ws ->
         step w (TimeoutFired k)
         = connectWs c (with_timeouts (remove_nth k (timeouts w)) w))
  /\ (forall k ws c,
         nth_error (timeouts w) k = Some (ws, c) -> wsRef w <> Some ws ->
         step w (TimeoutFired k) = with_timeouts (remove_nth k (timeouts w)) w)
  /\ (forall ws later,
         ws < length (sockets w) -> wsRef w <> Some ws ->
         wsRef (run w later) <> Some ws)
  /\ (forall c, wsRef (step w (UserSwitch c)) = wsRef w)
  /\ (forall k r c ws c',
         nth_error (loading w) k = Some c ->
         In (ws, c') (timeouts (step w (LoadSettled k r))) ->
         wsRef (step w (LoadSettled k r)) <> Some ws).
Proof.
  intros w. pose proof (reachable_inv events) as Hinv. fold w in Hinv.
  split; [now apply inv_open_channels|].
  split; [|split; [|split; [|split]]].
  - intros k ws c Hk Hr. rewrite (timeout_step w k ws c Hk), Hr.
    now rewrite Nat.eqb_refl.
  - intros k ws c Hk Hr. rewrite (timeout_step w k ws c Hk).
    destruct (wsRef w) as [cur|]; [|reflexivity].
    destruct (Nat.eqb_spec cur ws) as [->|_]; [congruence | reflexivity].
  - intros ws later Hlt Hne. now apply stale_forever.
  - intros c. cbn [step].
    destruct (commit_frame w (switchCrab c w)) as (_ & -> & _).
    now destruct (switchCrab_frame c w) as (-> & _).
  - intros k r c ws c' Hk Hin. rewrite (load_step w k r c Hk) in *.
    destruct (connectWs_current c
                (with_view (apply_snapshot r (view w))
                   (with_loading (remove_nth k (loading w)) w)))
      as (Hr & _ & Ht & _).
    rewrite Hr. rewrite Ht in Hin.
    apply (inv_timeouts w Hinv) in Hin. intros H. injection H as H.
    simpl in H. lia.
Qed.

Lemma reconnect_guard_witness :
  let w := run initial_world
             [MountFetched two_crabs; LoadSettled 0 (Some snapshot_a); WsOpened 0;
              WsClosed 0] in
  let w' := run initial_world
              [MountFetched two_crabs; LoadSettled 0 (Some snapshot_a); WsOpened 0;
               WsClosed 0; UserSwitch "b"; LoadSettled 0 None] in
  step w (TimeoutFired 0) = connectWs "a" (with_timeouts (remove_nth 0 (timeouts w)) w)
  /\ wsRef (run w' [TimeoutFired 0]) <> Some 0.
Proof.
  cbv zeta. split.
  - apply (proj1 (proj2 (reconnect_guard
             [MountFetched two_crabs; LoadSettled 0 (Some snapshot_a); WsOpened 0;
              WsClosed 0])) 0 0 "a"); vm_compute; reflexivity.
  - apply (proj1 (proj2 (proj2 (proj2 (reconnect_guard
             [MountFetched two_crabs; LoadSettled 0 (Some snapshot_a); WsOpened 0;
              WsClosed 0; UserSwitch "b"; LoadSettled 0 None])))) 0 [TimeoutFired 0]).
    + vm_compute. lia.
    + vm_compute. discriminate.
Defined.

(** C7 as stated fails on the code: the socket of "a" closes, the user
    switches to "b", and the timeout elapses before the load of "b" settles;
    its callback finds the closed socket still in [wsRef] and opens a new
    socket to "a". *)
Lemma zombie_reconnect_counterexample :
  let before := run showing_a [WsClosed 0; UserSwitch "b"] in
  let after := step before (TimeoutFired 0) in
  activeCrab (view before) = "b"
  /\ loading before = ["b"]
  /\ timeouts before = [(0, "a")]
  /\ sockets before = [mkWebSocket "a" true true true CLOSED]
  /\ activeCrab (view after) = "b"
  /\ sockets after = [mkWebSocket "a" false false false CLOSED;
                      mkWebSocket "a" true true true CONNECTING]
  /\ wsRef after = Some 1.
Proof. vm_compute. repeat split. Qed.

(** C8, as amended. The switch itself leaves the sockets and [wsRef] as they
    are. The old socket is torn down by the [connectWs] that runs when the
    load of the new crab settles: its three handlers are set to [null], then
    it is closed, and the new socket becomes the current one. A socket that is
    not the current one has no handler and is not open, so that a frame or a
    close event of it changes neither the view nor the timeouts. *)
Theorem teardown_on_attach (events : list Event) :
  let w := run initial_world events in
  (forall c, wsRef (step w (UserSwitch c)) = wsRef w
             /\ sockets (step w (UserSwitch c)) = sockets w)
  /\ (forall k r c cur s,
         nth_error (loading w) k = Some c ->
         wsRef w = Some cur -> nth_error (sockets w) cur = Some s ->
         let w' := step w (LoadSettled k r) in
         nth_error (sockets w') cur = Some (close (detach s))
         /\ wsRef w' = Some (length (sockets w)))
  /\ (forall ws s,
         nth_error (sockets w) ws = Some s -> wsRef w <> Some ws ->
         torn_down s
         /\ (forall msg, step w (WsMessage ws msg) = w)
         /\ view (step w (WsClosed ws)) = view w
         /\ timeouts (step w (WsClosed ws)) = timeouts w).
Proof.
  intros w. pose proof (reachable_inv events) as Hinv. fold w in Hinv.
  split; [|split].
  - intros c. cbn [step].
    destruct (commit_frame w (switchCrab c w)) as (_ & -> & -> & _).
    destruct (switchCrab_frame c w) as (-> & -> & _). auto.
  - intros k r c cur s Hk Hr Hs. cbv zeta. rewrite (load_step w k r c Hk).
    unfold connectWs. simpl. rewrite Hr. simpl.
    rewrite update_nth_length. split; [|reflexivity].
    assert (Hlt : cur < length (sockets w)) by (apply nth_error_Some; congruence).
    rewrite nth_error_app1 by (now rewrite update_nth_length).
    rewrite nth_error_update_nth, Nat.eqb_refl, Hs. reflexivity.
  - intros ws s Hs Hne. pose proof (inv_others w Hinv ws s Hs Hne) as Htd.
    destruct Htd as (Hm & He & Hc & Hl). repeat split; try assumption.
    + intros msg. cbn [step]. rewrite Hs, Hm. now destruct (readyState s).
    + cbn [step]. rewrite Hs, Hc. now destruct (readyState s).
    + cbn [step]. rewrite Hs, Hc. now destruct (readyState s).
Qed.

Lemma teardown_on_attach_witness :
  let w := run initial_world
             [MountFetched two_crabs; LoadSettled 0 (Some snapshot_a); WsOpened 0;
              UserSwitch "b"] in
  let w' := step w (LoadSettled 0 (Some snapshot_b)) in
  nth_error (sockets w') 0 = Some (close (detach (mkWebSocket "a" true true true OPEN)))
  /\ wsRef w' = Some (length (sockets w))
  /\ step (run initial_world
             [MountFetched two_crabs; LoadSettled 0 (Some snapshot_a); WsOpened 0;
              UserSwitch "b"; LoadSettled 0 (Some snapshot_b)])
          (WsMessage 0 Ev.alert)
     = run initial_world
         [MountFetched two_crabs; LoadSettled 0 (Some snapshot_a); WsOpened 0;
          UserSwitch "b"; LoadSettled 0 (Some snapshot_b)].
Proof.
  cbv zeta. split; [|split].
  - apply (proj1 (proj2 (teardown_on_attach
             [MountFetched two_crabs; LoadSettled 0 (Some snapshot_a); WsOpened 0;
              UserSwitch "b"]))
             0 (Some snapshot_b) "b" 0 (mkWebSocket "a" true true true OPEN));
      vm_compute; reflexivity.
  - apply (proj1 (proj2 (teardown_on_attach
             [MountFetched two_crabs; LoadSettled 0 (Some snapshot_a); WsOpened 0;
              UserSwitch "b"]))
             0 (Some snapshot_b) "b" 0 (mkWebSocket "a" true true true OPEN));
      vm_compute; reflexivity.
  - apply (proj2 (proj2 (teardown_on_attach
             [MountFetched two_crabs; LoadSettled 0 (Some snapshot_a); WsOpened 0;
              UserSwitch "b"; LoadSettled 0 (Some snapshot_b)]))
             0 (mkWebSocket "a" false false false CLOSING)).
    + vm_compute. reflexivity.
    + vm_compute. discriminate.
Defined.

(** C8 as stated fails on the code: after the switch to "b", while its load
    is pending, the socket of "a" is open with its handlers; an alert frame
    that it delivers sets the alert of the view of "b", and the load of "b"
    does not undo it. *)
Lemma late_event_counterexample :
  let w := step showing_a (UserSwitch "b") in
  let w' := run w [WsMessage 0 Ev.alert; LoadSettled 0 (Some snapshot_b)] in
  activeCrab (view w) = "b"
  /\ loading w = ["b"]
  /\ nth_error (sockets w) 0 = Some (mkWebSocket "a" true true true OPEN)
  /\ alert (view w) = false
  /\ alert (view (step w (WsMessage 0 Ev.alert))) = true
  /\ loading w' = []
  /\ activeCrab (view w') = "b"
  /\ alert (view w') = true.
Proof. vm_compute. repeat split. Qed.

(** * Further properties of the code *)

(** ** The classifiers on every item *)

Lemma scan_parts_throws (parts : list JSValue) :
  parts_ok parts = false ->
  forall text image, scan_parts parts text image = Throw TypeError.
Proof.
  induction parts as [|p parts IH]; intros H text image; [discriminate|].
  simpl in H. cbn [scan_parts].
  destruct (nullish p) eqn:Hp.
  - destruct p; try discriminate Hp; reflexivity.
  - simpl in H. rewrite !(prop_field _ _ Hp). cbn [bind].
    destruct (is_str (field p "type") "input_text");
      destruct (is_str (field p "type") "input_image");
      rewrite ?(prop_field _ _ Hp); cbn [bind]; apply IH; assumption.
Qed.

(** X1. The input classifier gives no line exactly for an item that is
    neither a user message nor a tool result; a tool result that is not a
    user message gives a subject-side line with its output as it is. *)
Theorem input_item_dropped (item : JSObject) (ph : Phase) :
  (renderInputItem item ph = Ok None
   <-> is_str (get item "role") "user" = false
       /\ is_str (get item "type") "function_call_output" = false)
  /\ (is_str (get item "role") "user" = false ->
      is_str (get item "type") "function_call_output" = true ->
      renderInputItem item ph
      = Ok (Some (mkMsg Left (get item "output") ph JUndefined false))).
Proof.
  unfold renderInputItem. split.
  - destruct (is_str (get item "role") "user").
    + split; [|intros [H _]; discriminate H].
      destruct (get item "content"); try discriminate.
      destruct (scan_parts elems (JStr "") JUndefined); discriminate.
    + destruct (is_str (get item "type") "function_call_output");
        split; try discriminate; auto. intros [_ H]. discriminate H.
  - intros -> ->. reflexivity.
Qed.

Lemma input_item_dropped_witness :
  renderInputItem (tool_result "ok") Dream
  = Ok (Some (mkMsg Left (JStr "ok") Dream JUndefined false))
  /\ renderInputItem [("type", JStr "reasoning")] Normal = Ok None.
Proof.
  split.
  - exact (proj2 (input_item_dropped (tool_result "ok") Dream) eq_refl eq_refl).
  - exact (proj2 (proj1 (input_item_dropped [("type", JStr "reasoning")] Normal))
             (conj eq_refl eq_refl)).
Defined.

Lemma renderInputItem_bad (item : JSObject) (ph : Phase) :
  input_item_ok item = false -> renderInputItem item ph = Throw TypeError.
Proof.
  unfold input_item_ok, renderInputItem.
  destruct (is_str (get item "role") "user"); [|discriminate].
  destruct (get item "content"); try discriminate.
  intros H. now rewrite (scan_parts_throws _ H).
Qed.

(** X2. The input classifier throws exactly on a user message whose
    structured content has a [null] or [undefined] part: a [TypeError]. On
    every other item it returns. *)
Theorem input_item_throws (item : JSObject) (ph : Phase) :
  (input_item_ok item = true -> exists r, renderInputItem item ph = Ok r)
  /\ (input_item_ok item = false -> renderInputItem item ph = Throw TypeError)
  /\ (input_item_ok item = false
      <-> exists parts, is_str (get item "role") "user" = true
                        /\ get item "content" = JArr parts
                        /\ existsb nullish parts = true).
Proof.
  split; [apply renderInputItem_total|]. split; [apply renderInputItem_bad|].
  unfold input_item_ok.
  destruct (is_str (get item "role") "user").
  - destruct (get item "content") as [| | | | |parts|];
      try (split; [discriminate | intros (parts' & _ & H & _); discriminate H]).
    unfold parts_ok. split.
    + intros H. exists parts. repeat split.
      induction parts as [|p parts IH]; [discriminate|]. simpl in *.
      destruct (nullish p); [reflexivity|]. simpl in H. now apply IH.
    + intros (parts' & _ & Heq & H). injection Heq as <-.
      induction parts as [|p parts IH]; [discriminate|]. simpl in *.
      destruct (nullish p); [reflexivity|]. simpl in *. now apply IH.
  - split; [discriminate|]. intros (parts & H & _). discriminate H.
Qed.

Lemma input_item_throws_witness :
  renderInputItem (user_parts [text_part "a"; JNull]) Normal = Throw TypeError.
Proof.
  exact (proj1 (proj2 (input_item_throws (user_parts [text_part "a"; JNull]) Normal))
           eq_refl).
Defined.















(** ** The whole trace *)

Section TraceLines.

Variable host : Host.

Lemma tagged_input_lines (i : nat) (ph : Phase) (items : list JSObject) (j : nat)
    (ls : list Line) :
  tagged renderInputItem (InputItem i) items j ph = Ok ls ->
  ls = map input_line (call_inputs i j items ph).
Proof.
  revert j ls. induction items as [|item rest IH]; intros j ls H; simpl in H.
  - now injection H as <-.
  - apply bind_Ok in H as (msg & Hmsg & H). apply bind_Ok in H as (ls' & Hls' & H).
    injection H as <-. simpl. rewrite Hmsg, (IH _ _ Hls').
    now destruct msg.
Qed.

Lemma tagged_output_lines (i : nat) (ph : Phase) (items : list JSObject) (j : nat)
    (ls : list Line) :
  tagged (renderOutputItem host) (OutputItem i) items j ph = Ok ls ->
  ls = map output_line (call_outputs host i j items ph).
Proof.
  revert j ls. induction items as [|item rest IH]; intros j ls H; simpl in H.
  - now injection H as <-.
  - apply bind_Ok in H as (msg & Hmsg & H). apply bind_Ok in H as (ls' & Hls' & H).
    injection H as <-. simpl. rewrite Hmsg, (IH _ _ Hls').
    now destruct msg.
Qed.

Lemma reconcile_call_traced_lines (calls : list ApiCall) (i : nat) (call : ApiCall)
    (st t : Traced) :
  reconcile_call_traced host calls i call st = Ok t ->
  trace t = trace st ++ call_lines host calls i (cursor st) call
  /\ cursor t = length (input call) + length (output call).
Proof.
  rewrite reconcile_call_traced_eq. intros H.
  apply bind_Ok in H as (ins & Hins & H). apply bind_Ok in H as (outs & Houts & H).
  injection H as <-. cbn [trace cursor]. split; [|reflexivity].
  unfold call_lines.
  now rewrite (tagged_input_lines _ _ _ _ _ Hins), (tagged_output_lines _ _ _ _ _ Houts).
Qed.

Lemma reconcile_from_traced_trace (calls rest : list ApiCall) (i : nat) (st t : Traced) :
  reconcile_from_traced host calls i rest st = Ok t ->
  trace t = trace st ++ log_lines host calls i (cursor st) rest.
Proof.
  revert i st. induction rest as [|call rest IH]; intros i st H; simpl in H.
  - injection H as <-. simpl. now rewrite app_nil_r.
  - apply bind_Ok in H as (st' & Hcall & H).
    apply reconcile_call_traced_lines in Hcall as [Htr Hcur].
    rewrite (IH _ _ H), Htr, Hcur, <- app_assoc. reflexivity.
Qed.

Lemma reconcile_from_traced_cursor (calls rest : list ApiCall) (i : nat) (st t : Traced) :
  reconcile_from_traced host calls i rest st = Ok t ->
  cursor t = match rest with
             | [] => cursor st
             | _ => seen_before (rest ++ []) (length rest)
             end.
Proof.
  revert i st. induction rest as [|call rest IH]; intros i st H; simpl in H.
  - now injection H as <-.
  - apply bind_Ok in H as (st' & Hcall & H).
    apply reconcile_call_traced_lines in Hcall as [_ Hcur].
    rewrite (IH _ _ H). rewrite !app_nil_r. destruct rest as [|c rest'].
    + exact Hcur.
    + reflexivity.
Qed.

End TraceLines.

Lemma seen_before_next (pre rest : list ApiCall) (call : ApiCall) :
  seen_before (pre ++ call :: rest) (S (length pre))
  = length (input call) + length (output call).
Proof.
  unfold seen_before, previous. rewrite nth_error_app2 by lia.
  now rewrite Nat.sub_diag.
Qed.

(** X7. The transcript, when it is built, is the concatenation over the
    calls, in the order of the log, of: the dividers of the call, then the
    lines of those of its input items that are at or after the cursor, then
    the lines of its output items, items without a line being skipped. The
    cursor that a render ends with is the number of input and output items of
    the last call, 0 on an empty log. *)
Theorem stream_structure (host : Host) (calls : list ApiCall) (st : Stream) :
  reconcile host calls = Ok st ->
  messages st = map snd (log_lines host calls 0 0 calls)
  /\ seenInputItems st = seen_before calls (length calls).
Proof.
  rewrite reconcile_traced_erase. unfold reconcile_traced.
  destruct (reconcile_from_traced host calls 0 calls (mkTraced [] 0)) as [t|e] eqn:E;
    [|discriminate].
  simpl. intros H. injection H as <-. unfold erase. cbn [messages seenInputItems].
  split.
  - now rewrite (reconcile_from_traced_trace _ _ _ _ _ _ E).
  - rewrite (reconcile_from_traced_cursor _ _ _ _ _ _ E), app_nil_r.
    now destruct calls.
Qed.

Lemma stream_structure_witness :
  messages (mkStream [system_line "be a crab"; subject_line "hi" Normal;
                      respond_line (JStr "hello") Normal] 2)
  = map snd (log_lines RefHost.host [example_call_1 "be a crab"] 0 0
               [example_call_1 "be a crab"])
  /\ seenInputItems (mkStream [system_line "be a crab"; subject_line "hi" Normal;
                      respond_line (JStr "hello") Normal] 2)
     = seen_before [example_call_1 "be a crab"] 1.
Proof.
  apply (stream_structure RefHost.host [example_call_1 "be a crab"]).
  vm_compute. reflexivity.
Defined.

(** ** Where a line of the trace comes from *)

Lemma map_input_line_In (o : Origin) (m : Msg) (l : list (nat * nat * Msg)) :
  In (o, m) (map input_line l) <-> exists i j, o = InputItem i j /\ In (i, j, m) l.
Proof.
  rewrite in_map_iff. split.
  - intros ([[i j] m'] & Heq & Hin). injection Heq as <- <-. eauto.
  - intros (i & j & -> & Hin). exists (i, j, m). auto.
Qed.

Lemma map_output_line_In (o : Origin) (m : Msg) (l : list (nat * nat * Msg)) :
  In (o, m) (map output_line l) <-> exists i j, o = OutputItem i j /\ In (i, j, m) l.
Proof.
  rewrite in_map_iff. split.
  - intros ([[i j] m'] & Heq & Hin). injection Heq as <- <-. eauto.
  - intros (i & j & -> & Hin). exists (i, j, m). auto.
Qed.

Lemma In_if_single {A : Type} (b : bool) (x y : A) :
  In y (if b then [x] else []) <-> y = x /\ b = true.
Proof.
  destruct b; simpl; split.
  - intros [H|[]]. auto.
  - intros [-> _]. auto.
  - tauto.
  - intros [_ H]. discriminate H.
Qed.

Lemma dividers_traced_In (calls : list ApiCall) (i : nat) (call : ApiCall)
    (o : Origin) (m : Msg) :
  In (o, m) (dividers_traced calls i call)
  <-> (o = SystemPrompt i /\ m = system_line (instructions call)
       /\ system_divider calls i call = true)
      \/ (o = DreamDivider i
          /\ m = mkMsg System (JStr "Reflecting...") Dream JUndefined false
          /\ dream_divider calls i call = true)
      \/ (o = PlanningDivider i
          /\ m = mkMsg System (JStr "Planning...") Planning JUndefined false
          /\ planning_divider calls i call = true).
Proof.
  unfold dividers_traced. rewrite !in_app_iff, !In_if_single.
  split.
  - intros [[H ?]|[[H ?]|[H ?]]]; injection H as -> ->; auto 6.
  - intros [(-> & -> & ?)|[(-> & -> & ?)|(-> & -> & ?)]]; auto 6.
Qed.

Lemma call_inputs_In (i : nat) (ph : Phase) (items : list JSObject) (j a b : nat)
    (m : Msg) :
  In (a, b, m) (call_inputs i j items ph)
  <-> a = i /\ j <= b
      /\ exists item, nth_error items (b - j) = Some item
                      /\ renderInputItem item ph = Ok (Some m).
Proof.
  revert j. induction items as [|item rest IH]; intros j; simpl.
  - split; [tauto|]. intros (_ & _ & item & H & _). now destruct (b - j).
  - assert (Hrest : In (a, b, m) (call_inputs i (S j) rest ph)
                    <-> a = i /\ j < b
                        /\ exists item', nth_error (item :: rest) (b - j) = Some item'
                             /\ renderInputItem item' ph = Ok (Some m)).
    { rewrite IH. split.
      - intros (-> & Hle & item' & Hn & Hr). repeat split; [lia|].
        exists item'. split; [|exact Hr].
        replace (b - j) with (S (b - S j)) by lia. exact Hn.
      - intros (-> & Hlt & item' & Hn & Hr). repeat split; [lia|].
        exists item'. split; [|exact Hr].
        replace (b - j) with (S (b - S j)) in Hn by lia. exact Hn. }
    assert (Hhead : forall m', renderInputItem item ph = Ok (Some m') ->
              (In (a, b, m) ((i, j, m') :: call_inputs i (S j) rest ph)
               <-> a = i /\ j <= b
                   /\ exists item', nth_error (item :: rest) (b - j) = Some item'
                        /\ renderInputItem item' ph = Ok (Some m))).
    { intros m' Hm'. simpl. rewrite Hrest. split.
      - intros [H|(-> & Hlt & H)].
        + injection H as <- <- <-. repeat split; [lia|].
          exists item. rewrite Nat.sub_diag. auto.
        + repeat split; [lia | exact H].
      - intros (-> & Hle & item' & Hn & Hr).
        destruct (Nat.eq_dec j b) as [->|Hne].
        + left. rewrite Nat.sub_diag in Hn. injection Hn as <-. congruence.
        + right. repeat split; [lia|]. eauto. }
    assert (Hskip : renderInputItem item ph <> Ok (Some m) ->
              (In (a, b, m) (call_inputs i (S j) rest ph)
               <-> a = i /\ j <= b
                   /\ exists item', nth_error (item :: rest) (b - j) = Some item'
                        /\ renderInputItem item' ph = Ok (Some m))).
    { intros Hne. rewrite Hrest. split.
      - intros (-> & Hlt & H). repeat split; [lia | exact H].
      - intros (-> & Hle & item' & Hn & Hr). repeat split; [|eauto].
        destruct (Nat.eq_dec j b) as [->|]; [|lia].
        rewrite Nat.sub_diag in Hn. injection Hn as <-. contradiction. }
    destruct (renderInputItem item ph) as [[m'|]|e] eqn:E.
    + now apply Hhead.
    + apply Hskip. discriminate.
    + apply Hskip. discriminate.
Qed.

Lemma call_inputs_NoDup (i : nat) (ph : Phase) (items : list JSObject) (j : nat) :
  NoDup (map fst (call_inputs i j items ph)).
Proof.
  revert j. induction items as [|item rest IH]; intros j; simpl.
  - constructor.
  - destruct (renderInputItem item ph) as [[m'|]|e]; try apply IH.
    simpl. constructor; [|apply IH].
    intros Hin. apply in_map_iff in Hin as ([[a b] m] & Heq & Hin).
    simpl in Heq. injection Heq as -> ->.
    apply call_inputs_In in Hin. lia.
Qed.

Lemma log_inputs_from (rest : list ApiCall) (i seen a b : nat) (m : Msg) :
  In (a, b, m) (log_inputs i seen rest) -> i <= a.
Proof.
  revert i seen. induction rest as [|call rest IH]; intros i seen; simpl; [tauto|].
  rewrite in_app_iff. intros [H|H].
  - apply call_inputs_In in H. lia.
  - apply IH in H. lia.
Qed.

Lemma log_inputs_NoDup (rest : list ApiCall) (i seen : nat) :
  NoDup (map fst (log_inputs i seen rest)).
Proof.
  revert i seen. induction rest as [|call rest IH]; intros i seen; simpl.
  - constructor.
  - rewrite map_app. apply NoDup_app; [apply call_inputs_NoDup | apply IH |].
    intros [a b] H1 H2.
    apply in_map_iff in H1 as ([[a1 b1] m1] & Heq1 & H1). simpl in Heq1.
    injection Heq1 as -> ->.
    apply in_map_iff in H2 as ([[a2 b2] m2] & Heq2 & H2). simpl in Heq2.
    injection Heq2 as -> ->.
    apply call_inputs_In in H1. apply log_inputs_from in H2. lia.
Qed.

Lemma input_lines_app (a b : list Line) :
  input_lines (a ++ b) = input_lines a ++ input_lines b.
Proof.
  induction a as [|[o m] a IH]; simpl; [reflexivity|].
  destruct o; simpl; now rewrite IH.
Qed.

Lemma input_lines_of_inputs (l : list (nat * nat * Msg)) :
  input_lines (map input_line l) = l.
Proof. induction l as [|[[i j] m] l IH]; simpl; [reflexivity | now rewrite IH]. Qed.

Lemma input_lines_of_outputs (l : list (nat * nat * Msg)) :
  input_lines (map output_line l) = [].
Proof. induction l as [|[[i j] m] l IH]; simpl; [reflexivity | exact IH]. Qed.

Lemma input_lines_of_dividers (calls : list ApiCall) (i : nat) (call : ApiCall) :
  input_lines (dividers_traced calls i call) = [].
Proof.
  unfold dividers_traced.
  destruct (system_divider calls i call), (dream_divider calls i call),
    (planning_divider calls i call); reflexivity.
Qed.

Lemma input_lines_log (host : Host) (calls rest : list ApiCall) (i seen : nat) :
  input_lines (log_lines host calls i seen rest) = log_inputs i seen rest.
Proof.
  revert i seen. induction rest as [|call rest IH]; intros i seen; simpl; [reflexivity|].
  unfold call_lines.
  rewrite !input_lines_app, input_lines_of_dividers, input_lines_of_inputs,
    input_lines_of_outputs, IH. simpl. now rewrite app_nil_r.
Qed.

Lemma log_lines_In (host : Host) (calls pre rest : list ApiCall) (l : Line) :
  calls = pre ++ rest ->
  (In l (log_lines host calls (length pre) (seen_before calls (length pre)) rest)
   <-> exists a call, length pre <= a /\ nth_error calls a = Some call
                      /\ In l (call_lines host calls a (seen_before calls a) call)).
Proof.
  revert pre. induction rest as [|call rest IH]; intros pre Hcalls.
  - simpl. split; [tauto|]. intros (a & call & Hle & Hn & _).
    rewrite app_nil_r in Hcalls. subst calls.
    apply nth_error_None in Hle. congruence.
  - assert (Hcalls' : calls = (pre ++ [call]) ++ rest)
      by (rewrite <- app_assoc; exact Hcalls).
    specialize (IH _ Hcalls').
    rewrite length_app in IH. simpl in IH. rewrite Nat.add_1_r in IH.
    assert (Hseen : seen_before calls (S (length pre))
                    = length (input call) + length (output call))
      by (rewrite Hcalls; apply seen_before_next).
    rewrite Hseen in IH.
    assert (Hhead : nth_error calls (length pre) = Some call).
    { rewrite Hcalls, nth_error_app2, Nat.sub_diag by lia. reflexivity. }
    cbn [log_lines]. rewrite in_app_iff, IH. split.
    + intros [H|(a & call' & Hle & Hn & H)].
      * exists (length pre), call. auto.
      * exists a, call'. repeat split; [lia | exact Hn | exact H].
    + intros (a & call' & Hle & Hn & H).
      destruct (Nat.eq_dec a (length pre)) as [->|Hne].
      * left. rewrite Hhead in Hn. injection Hn as <-. exact H.
      * right. exists a, call'. repeat split; [lia | exact Hn | exact H].
Qed.

Lemma trace_In (host : Host) (calls : list ApiCall) (t : Traced) (l : Line) :
  reconcile_traced host calls = Ok t ->
  (In l (trace t)
   <-> exists a call, nth_error calls a = Some call
                      /\ In l (call_lines host calls a (seen_before calls a) call)).
Proof.
  intros H. unfold reconcile_traced in H.
  rewrite (reconcile_from_traced_trace _ _ _ _ _ _ H). cbn [trace cursor app].
  rewrite (log_lines_In host calls [] calls l eq_refl). simpl. split.
  - intros (a & call & _ & Hn & Hin). eauto.
  - intros (a & call & Hn & Hin). exists a, call. repeat split; [lia | | ]; assumption.
Qed.

Lemma call_lines_In (host : Host) (calls : list ApiCall) (a seen : nat) (call : ApiCall)
    (o : Origin) (m : Msg) :
  In (o, m) (call_lines host calls a seen call)
  <-> In (o, m) (dividers_traced calls a call)
      \/ (exists j, o = InputItem a j /\ reset_cursor seen call <= j
                    /\ exists item, nth_error (input call) j = Some item
                         /\ renderInputItem item (phase_of call) = Ok (Some m))
      \/ (exists j, o = OutputItem a j
                    /\ exists item, nth_error (output call) j = Some item
                         /\ renderOutputItem host item (phase_of call) = Ok (Some m)).
Proof.
  unfold call_lines. rewrite !in_app_iff, map_input_line_In, map_output_line_In.
  apply or_iff_compat_l. split.
  - intros [(i & j & -> & H)|(i & j & -> & H)].
    + apply call_inputs_In in H as (-> & Hle & item & Hn & Hr).
      left. exists j. repeat split; [exact Hle|]. exists item. split; [|exact Hr].
      rewrite nth_error_skipn in Hn.
      replace (reset_cursor seen call + (j - reset_cursor seen call)) with j in Hn by lia.
      exact Hn.
    + apply call_outputs_In in H as (-> & _ & item & Hn & Hr).
      rewrite Nat.sub_0_r in Hn. right. eauto.
  - intros [(j & -> & Hle & item & Hn & Hr)|(j & -> & item & Hn & Hr)].
    + left. exists a, j. split; [reflexivity|]. apply call_inputs_In.
      repeat split; [exact Hle|]. exists item. split; [|exact Hr].
      rewrite nth_error_skipn.
      replace (reset_cursor seen call + (j - reset_cursor seen call)) with j by lia.
      exact Hn.
    + right. exists a, j. split; [reflexivity|]. apply call_outputs_In.
      repeat split; [lia|]. exists item. rewrite Nat.sub_0_r. auto.
Qed.

(** X8. A line that comes from the input item [j] of the call [i] is in the
    transcript exactly when [j] is at or after the index from which the call
    shows its input (the cursor left by the call before it, or 0 when that
    cursor is not below the length of the input) and the classifier gives that
    line for the item; no input item has two lines. *)
Theorem inputs_from_cursor (host : Host) (calls : list ApiCall) (t : Traced) :
  reconcile_traced host calls = Ok t ->
  input_lines (trace t) = log_inputs 0 0 calls
  /\ NoDup (map fst (input_lines (trace t)))
  /\ forall i j call m,
       nth_error calls i = Some call ->
       (In (InputItem i j, m) (trace t)
        <-> first_shown calls i call <= j
            /\ exists item, nth_error (input call) j = Some item
                 /\ renderInputItem item (phase_of call) = Ok (Some m)).
Proof.
  intros H.
  assert (Hl : input_lines (trace t) = log_inputs 0 0 calls).
  { unfold reconcile_traced in H.
    rewrite (reconcile_from_traced_trace _ _ _ _ _ _ H). apply input_lines_log. }
  split; [exact Hl|]. split; [rewrite Hl; apply log_inputs_NoDup|].
  intros i j call m Hcall. rewrite (trace_In _ _ _ _ H). split.
  - intros (a & call' & Hn & Hin).
    apply call_lines_In in Hin as [Hd|[(j' & Ho & Hle & Hitem)|(j' & Ho & _)]].
    + apply dividers_traced_In in Hd as [(Ho & _)|[(Ho & _)|(Ho & _)]]; discriminate Ho.
    + injection Ho as <- <-. rewrite Hcall in Hn. injection Hn as <-. auto.
    + discriminate Ho.
  - intros (Hle & Hitem). exists i, call. split; [exact Hcall|].
    apply call_lines_In. right. left. exists j. auto.
Qed.

Lemma inputs_from_cursor_witness :
  (In (InputItem 1 1, subject_line "ok" Normal)
      [(SystemPrompt 0, system_line "be a crab");
       (InputItem 0 0, subject_line "hi" Normal);
       (OutputItem 0 0, respond_line (JStr "hello") Normal);
       (InputItem 1 0, subject_line "hi" Normal);
       (InputItem 1 1, subject_line "ok" Normal)]
   <-> first_shown [example_call_1 "be a crab"; example_call_2 "be a crab"] 1
         (example_call_2 "be a crab") <= 1
       /\ exists item,
            nth_error (input (example_call_2 "be a crab")) 1 = Some item
            /\ renderInputItem item (phase_of (example_call_2 "be a crab"))
               = Ok (Some (subject_line "ok" Normal))).
Proof.
  refine (proj2 (proj2 (inputs_from_cursor RefHost.host
            [example_call_1 "be a crab"; example_call_2 "be a crab"]
            (mkTraced [(SystemPrompt 0, system_line "be a crab");
                       (InputItem 0 0, subject_line "hi" Normal);
                       (OutputItem 0 0, respond_line (JStr "hello") Normal);
                       (InputItem 1 0, subject_line "hi" Normal);
                       (InputItem 1 1, subject_line "ok" Normal)] 2) _))
            1 1 (example_call_2 "be a crab") (subject_line "ok" Normal) _).
  - vm_compute. reflexivity.
  - reflexivity.
Defined.

(** ** The dividers of the dream and planning phases *)

Lemma phase_divider_spec (flag : ApiCall -> option bool) (calls : list ApiCall)
    (i : nat) (call : ApiCall) :
  nth_error calls i = Some call ->
  (or_false (flag call)
   && (Nat.eqb i 0
       || negb (match previous calls i with
                | Some p => or_false (flag p)
                | None => false
                end)) = true
   <-> or_false (flag call) = true
       /\ (i = 0 \/ exists j p, i = S j /\ nth_error calls j = Some p
                                /\ or_false (flag p) = false)).
Proof.
  intros Hcall. rewrite andb_true_iff. apply and_iff_compat_l.
  destruct i as [|j]; simpl.
  - split; auto.
  - destruct (nth_error calls j) as [p|] eqn:Hp.
    + rewrite negb_true_iff. split.
      * intros H. right. exists j, p. auto.
      * intros [H|(j' & p' & Heq & Hn & H)]; [discriminate|].
        injection Heq as <-. congruence.
    + exfalso. apply nth_error_None in Hp.
      assert (S j < length calls) by (apply nth_error_Some; congruence). lia.
Qed.

(** X9. The line "Reflecting..." is in the transcript for a call exactly
    when the call is a dream call and is either the first of the log or comes
    just after a call that is not a dream call; likewise "Planning..." for
    planning calls. So a run of successive dream (planning) calls shows the
    divider once, at its first call. *)
Theorem phase_dividers (host : Host) (calls : list ApiCall) (t : Traced) :
  reconcile_traced host calls = Ok t ->
  forall i call m,
    nth_error calls i = Some call ->
    (In (DreamDivider i, m) (trace t)
     <-> m = mkMsg System (JStr "Reflecting...") Dream JUndefined false
         /\ or_false (is_dream call) = true
         /\ (i = 0 \/ exists j p, i = S j /\ nth_error calls j = Some p
                                  /\ or_false (is_dream p) = false))
    /\ (In (PlanningDivider i, m) (trace t)
        <-> m = mkMsg System (JStr "Planning...") Planning JUndefined false
            /\ or_false (is_planning call) = true
            /\ (i = 0 \/ exists j p, i = S j /\ nth_error calls j = Some p
                                     /\ or_false (is_planning p) = false)).
Proof.
  intros H i call m Hcall.
  pose proof (phase_divider_spec is_dream calls i call Hcall) as Hd.
  pose proof (phase_divider_spec is_planning calls i call Hcall) as Hp.
  fold (dream_divider calls i call) in Hd. fold (planning_divider calls i call) in Hp.
  rewrite !(trace_In _ _ _ _ H). split; split.
  - intros (a & call' & Hn & Hin).
    apply call_lines_In in Hin as [Hin|[(j & Ho & _)|(j & Ho & _)]]; try discriminate Ho.
    apply dividers_traced_In in Hin as [(Ho & _)|[(Ho & -> & Hdiv)|(Ho & _)]];
      try discriminate Ho.
    injection Ho as <-. rewrite Hcall in Hn. injection Hn as <-.
    split; [reflexivity | now apply Hd].
  - intros (-> & Hrest). exists i, call. split; [exact Hcall|].
    apply call_lines_In. left. apply dividers_traced_In. right. left.
    repeat split. now apply Hd.
  - intros (a & call' & Hn & Hin).
    apply call_lines_In in Hin as [Hin|[(j & Ho & _)|(j & Ho & _)]]; try discriminate Ho.
    apply dividers_traced_In in Hin as [(Ho & _)|[(Ho & _)|(Ho & -> & Hdiv)]];
      try discriminate Ho.
    injection Ho as <-. rewrite Hcall in Hn. injection Hn as <-.
    split; [reflexivity | now apply Hp].
  - intros (-> & Hrest). exists i, call. split; [exact Hcall|].
    apply call_lines_In. left. apply dividers_traced_In. right. right.
    repeat split. now apply Hp.
Qed.

Lemma phase_dividers_witness :
  let dream := mkApiCall "t" "sys" [] [] (Some true) None in
  let reflecting := mkMsg System (JStr "Reflecting...") Dream JUndefined false in
  (In (DreamDivider 0, reflecting) [(DreamDivider 0, reflecting)]
   <-> reflecting = mkMsg System (JStr "Reflecting...") Dream JUndefined false
       /\ or_false (is_dream dream) = true
       /\ (0 = 0 \/ exists j p, 0 = S j /\ nth_error [dream; dream; dream] j = Some p
                                /\ or_false (is_dream p) = false))
  /\ (In (DreamDivider 1, reflecting) [(DreamDivider 0, reflecting)]
      <-> reflecting = mkMsg System (JStr "Reflecting...") Dream JUndefined false
          /\ or_false (is_dream dream) = true
          /\ (1 = 0 \/ exists j p, 1 = S j /\ nth_error [dream; dream; dream] j = Some p
                                   /\ or_false (is_dream p) = false)).
Proof.
  intros dream reflecting.
  assert (H : reconcile_traced RefHost.host [dream; dream; dream]
              = Ok (mkTraced [(DreamDivider 0, reflecting)] 0))
    by (vm_compute; reflexivity).
  split.
  - exact (proj1 (phase_dividers RefHost.host [dream; dream; dream]
                    (mkTraced [(DreamDivider 0, reflecting)] 0) H 0 dream reflecting
                    eq_refl)).
  - exact (proj1 (phase_dividers RefHost.host [dream; dream; dream]
                    (mkTraced [(DreamDivider 0, reflecting)] 0) H 1 dream reflecting
                    eq_refl)).
Defined.

(** ** Growth of the log *)

Lemma reconcile_from_extends (host : Host) (log rest : list ApiCall) (i : nat)
    (st st' : Stream) :
  reconcile_from host log i rest st = Ok st' ->
  exists ls, messages st' = messages st ++ ls.
Proof.
  revert i st. induction rest as [|call rest IH]; intros i st H; simpl in H.
  - injection H as <-. exists []. now rewrite app_nil_r.
  - apply bind_Ok in H as (st1 & Hcall & H).
    destruct (IH _ _ H) as [ls Hls].
    rewrite reconcile_call_eq in Hcall.
    apply bind_Ok in Hcall as (ins & _ & Hcall).
    apply bind_Ok in Hcall as (outs & _ & Hcall). injection Hcall as <-.
    cbn [messages] in Hls. rewrite Hls, <- app_assoc. eauto.
Qed.

Lemma reconcile_app (host : Host) (a b : list ApiCall) :
  reconcile host (a ++ b)
  = (st <- reconcile host a ;; reconcile_from host (a ++ b) (length a) b st).
Proof.
  unfold reconcile. rewrite reconcile_from_cat.
  now rewrite reconcile_from_app by (simpl; lia).
Qed.

(** X10. The transcript only grows at its end when calls are appended to
    the log: the transcript of a log [a ++ b] starts with the whole transcript
    of [a], line for line. And a log on which the render throws keeps throwing
    whatever is appended to it. *)
Theorem stream_append_only (host : Host) (a b : list ApiCall) :
  (forall st', reconcile host (a ++ b) = Ok st' ->
     exists st ls, reconcile host a = Ok st /\ messages st' = messages st ++ ls)
  /\ (forall e, reconcile host a = Throw e -> reconcile host (a ++ b) = Throw e).
Proof.
  rewrite reconcile_app. split.
  - intros st' H. apply bind_Ok in H as (st & Ha & H).
    destruct (reconcile_from_extends _ _ _ _ _ _ H) as [ls Hls]. eauto.
  - intros e ->. reflexivity.
Qed.

Lemma stream_append_only_witness :
  exists st ls,
    reconcile RefHost.host [example_call_1 "be a crab"] = Ok st
    /\ messages (mkStream [system_line "be a crab"; subject_line "hi" Normal;
                           respond_line (JStr "hello") Normal;
                           subject_line "hi" Normal; subject_line "ok" Normal] 2)
       = messages st ++ ls.
Proof.
  apply (proj1 (stream_append_only RefHost.host [example_call_1 "be a crab"]
                  [example_call_2 "be a crab"])).
  vm_compute. reflexivity.
Defined.

(** ** Logs on which the render throws *)



Section Throwing.

Variable render : JSObject -> Phase -> Throws (option Msg).
Variable ph : Phase.
Hypothesis render_exn : forall item e, render item ph = Throw e -> e = TypeError.



End Throwing.





(** ** The shape of the lines *)

Lemma renderInputItem_shape (item : JSObject) (ph : Phase) (m : Msg) :
  renderInputItem item ph = Ok (Some m) ->
  side m = Left /\ phase m = ph /\ isRespond m = false.
Proof.
  unfold renderInputItem.
  destruct (is_str (get item "role") "user").
  - destruct (get item "content"); try (intros H; injection H as <-; auto).
    intros H. apply bind_Ok in H as (ti & _ & H). injection H as <-. auto.
  - destruct (is_str (get item "type") "function_call_output"); intros H;
      [injection H as <-; auto | discriminate].
Qed.

Lemma renderOutputItem_shape (host : Host) (item : JSObject) (ph : Phase) (m : Msg) :
  renderOutputItem host item ph = Ok (Some m) ->
  side m = Right /\ phase m = ph /\ image m = JUndefined.
Proof.
  unfold renderOutputItem.
  destruct (is_str (get item "type") "message").
  - intros H. apply bind_Ok in H as (t & _ & H).
    destruct (truthy t); [injection H as <-; auto | discriminate].
  - destruct (is_str (get item "type") "function_call").
    + destruct (is_str (get item "name") "respond").
      * unfold respond_try, respond_catch.
        destruct (parse_arguments host (get item "arguments")) as [args|e]; simpl.
        -- destruct (prop args "message"); simpl; intros H; injection H as <-; auto.
        -- intros H; injection H as <-; auto.
      * intros H. apply bind_Ok in H as (cmd & _ & H). injection H as <-. auto.
    + destruct (is_str (get item "type") "web_search_call"); intros H;
        [injection H as <-; auto | discriminate].
Qed.

(** X12. The shape of the lines of a transcript. A system line has a
    string as text, no image and no respond flag. A subject-side line is never
    flagged [isRespond]; an agent-side line never carries an image. So a
    respond bubble is always on the agent side, and an image is only ever
    attached to a subject-side line. *)
Theorem line_shapes (host : Host) (calls : list ApiCall) (st : Stream) :
  reconcile host calls = Ok st ->
  forall m, In m (messages st) ->
    match side m with
    | System => image m = JUndefined /\ isRespond m = false /\ exists s, text m = JStr s
    | Left => isRespond m = false
    | Right => image m = JUndefined
    end.
Proof.
  rewrite reconcile_traced_erase.
  destruct (reconcile_traced host calls) as [t|e] eqn:Ht; [|discriminate].
  simpl. intros H. injection H as <-. intros m Hin.
  unfold erase in Hin. cbn [messages] in Hin.
  apply in_map_iff in Hin as ([o m'] & Heq & Hin). simpl in Heq. subst m'.
  apply (trace_In _ _ _ _ Ht) in Hin as (a & call & _ & Hin).
  apply call_lines_In in Hin as [Hin|[(j & _ & _ & item & _ & Hr)|(j & _ & item & _ & Hr)]].
  - apply dividers_traced_In in Hin as [(_ & -> & _)|[(_ & -> & _)|(_ & -> & _)]];
      simpl; eauto.
  - apply renderInputItem_shape in Hr as (-> & _ & Hr). exact Hr.
  - apply renderOutputItem_shape in Hr as (-> & _ & Hr). exact Hr.
Qed.

Lemma line_shapes_witness :
  match side (respond_line (JStr "hello") Normal) with
  | System => image (respond_line (JStr "hello") Normal) = JUndefined
              /\ isRespond (respond_line (JStr "hello") Normal) = false
              /\ exists s, text (respond_line (JStr "hello") Normal) = JStr s
  | Left => isRespond (respond_line (JStr "hello") Normal) = false
  | Right => image (respond_line (JStr "hello") Normal) = JUndefined
  end.
Proof.
  apply (line_shapes RefHost.host [example_call_1 "be a crab"]
           (mkStream [system_line "be a crab"; subject_line "hi" Normal;
                      respond_line (JStr "hello") Normal] 2)).
  - vm_compute. reflexivity.
  - simpl. auto.
Defined.

(** ** The normal form of the instructions, explicitly *)

Section NormalForm.

Open Scope string_scope.

Ltac peel H s p' :=
  repeat (destruct s as [|? s]; simpl in H;
          [subst p'; reflexivity | injection H as <- H]).

Lemma time_label_unbordered : unbordered time_label.
Proof.
  intros s p' H Hs Hp' x. unfold time_label in *.
  destruct s as [|c s]; [contradiction|]. simpl in H. injection H as <- H.
  peel H s p'.
  destruct s; simpl in H; [subst p'; contradiction | discriminate H].
Qed.

Lemma block_label_unbordered : unbordered block_label.
Proof.
  intros s p' H Hs Hp' x. unfold block_label in *.
  destruct s as [|c s]; [contradiction|]. simpl in H. injection H as <- H.
  peel H s p'.
  destruct s; simpl in H; [subst p'; contradiction | discriminate H].
Qed.

Lemma heading_unbordered : unbordered (nl ++ "##").
Proof.
  intros s p' H Hs Hp' x. unfold nl in *. simpl in H.
  destruct s as [|c s]; [contradiction|]. simpl in H. injection H as <- H.
  peel H s p'.
  destruct s; simpl in H; [subst p'; contradiction | discriminate H].
Qed.

Lemma occurs_cons (p : string) (c : ascii) (s : string) :
  occurs p (String c s) = false ->
  drop_prefix p (String c s) = None /\ occurs p s = false.
Proof.
  cbn [occurs]. destruct (drop_prefix p (String c s)); [discriminate | auto].
Qed.

Lemma no_straddle (p : string) (c : ascii) (s x : string) :
  unbordered p -> drop_prefix p (String c s) = None ->
  drop_prefix p (String c s ++ p ++ x) = None.
Proof.
  intros Hp H. destruct (drop_prefix_none _ _ H) as [Hn|(p' & Heq & Hne & Hx)].
  - apply Hn.
  - rewrite Hx. apply (Hp (String c s) p' Heq); [discriminate | exact Hne].
Qed.

Section Leftmost.

Variable m : string -> option string.
Variable p : string.
Hypothesis m_prefix : forall s, drop_prefix p s = None -> m s = None.

Lemma replace_first_none (s : string) : occurs p s = false -> replace_first m s = s.
Proof.
  induction s as [|c s IH]; intros H.
  - cbn [occurs] in H. simpl.
    destruct (drop_prefix p "") eqn:E; [discriminate|]. now rewrite (m_prefix _ E).
  - apply occurs_cons in H as [Hd Ho].
    rewrite (replace_first_later _ _ _ (m_prefix _ Hd)), (IH Ho). reflexivity.
Qed.

Lemma replace_first_at (pre x r : string) :
  unbordered p -> occurs p pre = false -> m (p ++ x) = Some r ->
  replace_first m (pre ++ p ++ x) = pre ++ r.
Proof.
  intros Hp Hpre Hm. induction pre as [|c pre IH].
  - simpl. now apply replace_first_here.
  - apply occurs_cons in Hpre as [Hd Ho].
    pose proof (m_prefix _ (no_straddle p c pre x Hp Hd)) as Hnone.
    change (String c pre ++ p ++ x) with (String c (pre ++ p ++ x)) in *.
    rewrite (replace_first_later _ _ _ Hnone), (IH Ho). reflexivity.
Qed.

End Leftmost.

Lemma match_time_prefix (s : string) : drop_prefix time_label s = None -> match_time s = None.
Proof. intros H. unfold match_time. now rewrite H. Qed.

Lemma match_block_prefix (s : string) :
  drop_prefix block_label s = None -> match_block s = None.
Proof. intros H. unfold match_block. unfold block_label in H. now rewrite H. Qed.

Lemma until_next_heading_at (body post : string) :
  occurs (nl ++ "##") body = false ->
  until_next_heading (body ++ nl ++ "##" ++ post) = Some (nl ++ "##" ++ post).
Proof.
  intros H. induction body as [|c body IH].
  - reflexivity.
  - apply occurs_cons in H as [Hd Ho].
    pose proof (no_straddle (nl ++ "##") c body post heading_unbordered Hd) as Hn.
    rewrite sapp_assoc in Hn.
    change (String c body ++ nl ++ "##" ++ post)
      with (String c (body ++ nl ++ "##" ++ post)) in *.
    cbn [until_next_heading]. rewrite Hn. exact (IH Ho).
Qed.

Lemma match_block_at (word body post : string) :
  word = "mood" \/ word = "focus" ->
  occurs (nl ++ "##") body = false ->
  match_block (block_label ++ word ++ nl ++ body ++ nl ++ "##" ++ post)
  = Some (nl ++ "##" ++ post).
Proof.
  intros Hw Hb. unfold match_block.
  change "## Current " with block_label. rewrite drop_prefix_app.
  destruct Hw as [-> | ->]; simpl; now apply until_next_heading_at.
Qed.

(** X13. The normal form leaves alone a text in which neither the label of
    the time line nor the label of a mood or focus block occurs. *)
Theorem strip_identity (s : string) :
  occurs time_label s = false -> occurs block_label s = false -> strip s = s.
Proof.
  intros Ht Hb. unfold strip.
  rewrite (replace_first_none match_time time_label match_time_prefix s Ht).
  exact (replace_first_none match_block block_label match_block_prefix s Hb).
Qed.

Lemma strip_identity_witness :
  strip ("You are a crab." ++ nl ++ "## Rules" ++ nl ++ "Be kind.")
  = "You are a crab." ++ nl ++ "## Rules" ++ nl ++ "Be kind.".
Proof.
  apply strip_identity; vm_compute; reflexivity.
Defined.

(** X14. Instructions made of a text [pre] without time label, a time line,
    a text [mid], and a mood or focus block whose body has no heading of its
    own, followed by the next heading and the rest: the normal form is [pre],
    [mid] and the text from the line feed before the next heading on. It does
    not depend on the text of the time line nor on the body of the block; only
    the first block goes, a second block in [post] stays as it is. *)
Theorem strip_time_and_block (pre t mid word body post : string) :
  occurs time_label pre = false ->
  is_line t = true ->
  occurs block_label (pre ++ mid) = false ->
  word = "mood" \/ word = "focus" ->
  occurs (nl ++ "##") body = false ->
  strip (with_time pre t (with_block mid word body post))
  = pre ++ mid ++ nl ++ "##" ++ post.
Proof.
  intros Hpre Ht Hmid Hw Hb. unfold strip, with_time.
  rewrite (replace_first_at match_time time_label match_time_prefix pre
             (t ++ nl ++ with_block mid word body post)
             (with_block mid word body post) time_label_unbordered Hpre
             (match_time_line t _ Ht)).
  unfold with_block. rewrite <- sapp_assoc.
  rewrite (replace_first_at match_block block_label match_block_prefix (pre ++ mid)
             (word ++ nl ++ body ++ nl ++ "##" ++ post) (nl ++ "##" ++ post)
             block_label_unbordered Hmid (match_block_at word body post Hw Hb)).
  now rewrite sapp_assoc.
Qed.

Lemma strip_time_and_block_witness :
  strip (with_time ("You are a crab." ++ nl) "Monday 10:00"
           (with_block ("## Rules" ++ nl ++ "Be kind." ++ nl) "mood" "curious"
              (" Current focus" ++ nl ++ "shells" ++ nl ++ "## End")))
  = ("You are a crab." ++ nl) ++ ("## Rules" ++ nl ++ "Be kind." ++ nl) ++ nl ++ "##"
    ++ (" Current focus" ++ nl ++ "shells" ++ nl ++ "## End").
Proof.
  apply strip_time_and_block; try (vm_compute; reflexivity). now left.
Defined.

End NormalForm.

(** ** The countdown while no conversation is active *)

Lemma countdown_effect_idle (w : World) :
  tick_inv w -> countdown (view w) = 0%Z -> intervals (countdown_effect w) = [].
Proof.
  intros Ht Hc. unfold countdown_effect. rewrite (clear_countdown_idem w Ht).
  destruct (clear_countdown_frame w) as (Hv & _). rewrite Hv, Hc. simpl.
  now apply clear_countdown_stops.
Qed.

Lemma commit_idle (before after : World) :
  tick_inv after ->
  (conversing (view after) = false -> countdown (view after) = 0%Z) ->
  (conversing (view before) = false -> conversing (view after) = false ->
   intervals after = []) ->
  idle_inv (commit before after).
Proof.
  intros Ht Hc Hi. unfold idle_inv, commit.
  destruct (Bool.eqb (conversing (view before)) (conversing (view after))) eqn:E.
  - intros H. split; [auto|]. apply Hi; [|exact H].
    apply eqb_prop in E. congruence.
  - destruct (countdown_effect_frame after) as (Hv & _). rewrite Hv. intros H.
    split; [auto|]. apply countdown_effect_idle; auto.
Qed.

Lemma apply_snapshot_conversation (r : option Snapshot) (v : View) :
  conversing (apply_snapshot r v) = conversing v
  /\ countdown (apply_snapshot r v) = countdown v
  /\ activeCrab (apply_snapshot r v) = activeCrab v.
Proof.
  destruct r as [d|]; simpl; [|auto].
  destruct (statusData d) as [st|]; [|simpl; auto].
  destruct (status_position st), (status_focus_mode st), (idData d) as [name|];
    try destruct (String.eqb name ""); simpl; auto.
Qed.

Lemma on_message_conversation (msg : Ev.t) (v : View) :
  match msg with
  | Ev.conversation (Ev.waiting t) =>
      conversing (on_message msg v) = true /\ countdown (on_message msg v) = t
  | Ev.conversation Ev.ended =>
      conversing (on_message msg v) = false /\ countdown (on_message msg v) = 0%Z
  | _ => conversing (on_message msg v) = conversing v
         /\ countdown (on_message msg v) = countdown v
  end.
Proof.
  destruct msg as [d|p|st| |a|f|[t| |]|]; simpl; auto.
  destruct (String.eqb st "thinking"); simpl; auto.
Qed.

Lemma step_idle_inv (w : World) (e : Event) :
  tick_inv w -> idle_inv w -> idle_inv (step w e).
Proof.
  intros Ht Hi. destruct e as [l|l|c| |k r|ws|ws msg|ws|k|h]; simpl.
  - destruct l; exact Hi.
  - exact Hi.
  - apply commit_idle.
    + unfold switchCrab. destruct (String.eqb _ _); exact Ht.
    + unfold switchCrab. destruct (String.eqb c (activeCrab (view w))).
      * intros H. now apply Hi.
      * intros _. destruct (find _ _); reflexivity.
    + intros H _. unfold switchCrab.
      destruct (String.eqb c (activeCrab (view w))); simpl; now apply Hi.
  - exact Hi.
  - destruct (nth_error (loading w) k) as [c|]; [|exact Hi].
    unfold idle_inv.
    destruct (connectWs_current c
                (with_view (apply_snapshot r (view w))
                   (with_loading (remove_nth k (loading w)) w))) as (_ & _ & _ & Hv).
    destruct (connectWs_ticks c
                (with_view (apply_snapshot r (view w))
                   (with_loading (remove_nth k (loading w)) w))) as [_ Hint].
    rewrite Hv, Hint. simpl.
    destruct (apply_snapshot_conversation r (view w)) as (-> & -> & _). exact Hi.
  - destruct (nth_error (sockets w) ws) as [s|]; [|exact Hi].
    destruct (readyState s); exact Hi.
  - destruct (nth_error (sockets w) ws) as [s|]; [|exact Hi].
    destruct (readyState s); try exact Hi. destruct (onmessage s); [|exact Hi].
    pose proof (on_message_conversation msg (view w)) as Hm.
    apply commit_idle; simpl.
    + exact Ht.
    + destruct msg as [d|p|st| |a|f|[t| |]|]; destruct Hm as [Hc Hn];
        rewrite Hc, Hn; try (intros H; now apply Hi); auto. discriminate.
    + intros H _. now apply Hi.
  - destruct (nth_error (sockets w) ws) as [s|]; [|exact Hi].
    unfold on_close.
    destruct (readyState s); try exact Hi; destruct (onclose s); simpl; try exact Hi;
      destruct (match wsRef w with Some cur => Nat.eqb cur ws | None => false end);
      exact Hi.
  - destruct (nth_error (timeouts w) k) as [[ws c]|]; [|exact Hi].
    unfold on_timeout. simpl.
    destruct (match wsRef w with Some cur => Nat.eqb cur ws | None => false end);
      [|exact Hi].
    unfold idle_inv.
    destruct (connectWs_current c (with_timeouts (remove_nth k (timeouts w)) w))
      as (_ & _ & _ & Hv).
    destruct (connectWs_ticks c (with_timeouts (remove_nth k (timeouts w)) w))
      as [_ Hint].
    rewrite Hv, Hint. exact Hi.
  - destruct (existsb (Nat.eqb h) (intervals w)) eqn:E; [|exact Hi].
    unfold idle_inv, tick. destruct (countdown (view w) <=? 1)%Z; simpl; intros H.
    + split; [reflexivity|].
      destruct (clear_countdown_frame w) as (Hv & _).
      now apply clear_countdown_stops.
    + destruct (Hi H) as [_ Hnil]. rewrite Hnil in E. discriminate E.
Qed.

Lemma reachable_idle_inv (events : list Event) : idle_inv (run initial_world events).
Proof.
  assert (G : forall evs w, tick_inv w -> idle_inv w -> idle_inv (run w evs)).
  { induction evs as [|e evs IH]; intros w Ht Hi; simpl; [exact Hi|].
    apply IH; [apply step_tick_inv, Ht | apply step_idle_inv; assumption]. }
  apply G; [now left | intros _; split; reflexivity].
Qed.

(** X15. In every state that the session reaches, at most one interval of
    the countdown is running; and while no conversation is active the
    countdown shows zero and no interval is running. So an [ended] frame or a
    switch to another crab always stops the countdown, whatever was running
    before. *)
Theorem idle_has_no_countdown (events : list Event) :
  let w := run initial_world events in
  length (intervals w) <= 1
  /\ (conversing (view w) = false -> countdown (view w) = 0%Z /\ intervals w = [])
  /\ (forall ws s,
         nth_error (sockets w) ws = Some s -> readyState s = OPEN -> onmessage s = true ->
         let w' := step w (WsMessage ws (Ev.conversation Ev.ended)) in
         conversing (view w') = false /\ countdown (view w') = 0%Z /\ intervals w' = [])
  /\ (forall c, c <> activeCrab (view w) ->
         let w' := step w (UserSwitch c) in
         conversing (view w') = false /\ countdown (view w') = 0%Z /\ intervals w' = []).
Proof.
  intros w. split; [|split; [|split]].
  - destruct (reachable_tick_inv events) as [H|(h & _ & H)]; fold w in H; rewrite H;
      simpl; lia.
  - apply reachable_idle_inv.
  - intros ws s Hs Hopen Hm w'.
    assert (Hc : conversing (view w') = false).
    { unfold w'. cbn [step]. rewrite Hs, Hopen, Hm.
      destruct (commit_frame w (with_view (on_message (Ev.conversation Ev.ended) (view w)) w))
        as (Hv & _).
      rewrite Hv. reflexivity. }
    split; [exact Hc|].
    pose proof (reachable_idle_inv (events ++ [WsMessage ws (Ev.conversation Ev.ended)]))
      as H.
    unfold run in H. rewrite fold_left_app in H. exact (H Hc).
  - intros c Hne w'.
    assert (Hc : conversing (view w') = false).
    { unfold w'. cbn [step].
      destruct (commit_frame w (switchCrab c w)) as (Hv & _). rewrite Hv.
      unfold switchCrab. apply String.eqb_neq in Hne. rewrite Hne.
      destruct (find _ _); reflexivity. }
    split; [exact Hc|].
    pose proof (reachable_idle_inv (events ++ [UserSwitch c])) as H.
    unfold run in H. rewrite fold_left_app in H. exact (H Hc).
Qed.

Lemma idle_has_no_countdown_witness :
  let w := run initial_world
             [MountFetched two_crabs; LoadSettled 0 (Some snapshot_a); WsOpened 0;
              WsMessage 0 (Ev.conversation (Ev.waiting 5))] in
  (conversing (view w) = true /\ countdown (view w) = 5%Z /\ intervals w = [1])
  /\ let w' := step w (WsMessage 0 (Ev.conversation Ev.ended)) in
     conversing (view w') = false /\ countdown (view w') = 0%Z /\ intervals w' = [].
Proof.
  split.
  - vm_compute. repeat split.
  - apply (proj1 (proj2 (proj2 (idle_has_no_countdown
             [MountFetched two_crabs; LoadSettled 0 (Some snapshot_a); WsOpened 0;
              WsMessage 0 (Ev.conversation (Ev.waiting 5))])))
             0 (mkWebSocket "a" true true true OPEN));
      vm_compute; reflexivity.
Defined.

(** ** Loads, sockets and their crabs *)

Lemma connectWs_new (c : string) (w : World) :
  nth_error (sockets (connectWs c w)) (length (sockets w))
  = Some (mkWebSocket c true true true CONNECTING).
Proof.
  unfold connectWs. destruct (wsRef w); simpl.
  - rewrite nth_error_app2; rewrite update_nth_length; [|lia].
    now rewrite Nat.sub_diag.
  - rewrite nth_error_app2 by lia. now rewrite Nat.sub_diag.
Qed.



(** ** Reconnecting after a loss of the connection *)

Lemma connectWs_handlers (c : string) (w : World) : handlers_inv (connectWs c w).
Proof.
  intros ws s Hr Hs. destruct (connectWs_current c w) as (Hcur & _).
  rewrite Hcur in Hr. injection Hr as <-. rewrite connectWs_new in Hs.
  injection Hs as <-. auto.
Qed.

Lemma frame_handlers (w w' : World) :
  wsRef w' = wsRef w -> sockets w' = sockets w -> handlers_inv w -> handlers_inv w'.
Proof. unfold handlers_inv. intros -> ->. auto. Qed.

Lemma update_handlers (w : World) (ws : nat) (st : ReadyState) :
  handlers_inv w ->
  handlers_inv (with_sockets
                  (update_nth ws (fun s => mkWebSocket (crab s) (onmessage s) (onerror s)
                                             (onclose s) st) (sockets w)) w).
Proof.
  intros H k s Hr Hs. simpl in Hr, Hs. rewrite nth_error_update_nth in Hs.
  destruct (Nat.eqb k ws).
  - destruct (nth_error (sockets w) k) as [s0|] eqn:E; [|discriminate].
    simpl in Hs. injection Hs as <-. simpl. exact (H k s0 Hr E).
  - exact (H k s Hr Hs).
Qed.

Lemma step_handlers_inv (w : World) (e : Event) : handlers_inv w -> handlers_inv (step w e).
Proof.
  intros H. destruct e as [l|l|c| |k r|ws|ws msg|ws|k|h]; simpl.
  - destruct l; exact H.
  - exact H.
  - destruct (commit_frame w (switchCrab c w)) as (_ & Hr & Hs & _).
    destruct (switchCrab_frame c w) as (Hr' & Hs' & _).
    eapply frame_handlers; [| |exact H]; congruence.
  - exact H.
  - destruct (nth_error (loading w) k); [|exact H]. apply connectWs_handlers.
  - destruct (nth_error (sockets w) ws) as [s|]; [|exact H].
    destruct (readyState s); try exact H. now apply update_handlers.
  - destruct (nth_error (sockets w) ws) as [s|]; [|exact H].
    destruct (readyState s); try exact H. destruct (onmessage s); [|exact H].
    destruct (commit_frame w (with_view (on_message msg (view w)) w)) as (_ & Hr & Hs & _).
    eapply frame_handlers; [exact Hr | exact Hs | exact H].
  - destruct (nth_error (sockets w) ws) as [s|]; [|exact H].
    assert (G : forall w0, handlers_inv w0 ->
                  handlers_inv (if onclose s then on_close ws (crab s) w0 else w0)).
    { intros w0 H0. destruct (onclose s); [|exact H0]. unfold on_close.
      destruct (match wsRef w0 with Some cur => Nat.eqb cur ws | None => false end);
        exact H0. }
    destruct (readyState s); try exact H; apply G; now apply update_handlers.
  - destruct (nth_error (timeouts w) k) as [[ws c]|]; [|exact H].
    unfold on_timeout. simpl.
    destruct (match wsRef w with Some cur => Nat.eqb cur ws | None => false end);
      [apply connectWs_handlers | exact H].
  - destruct (existsb (Nat.eqb h) (intervals w)); [|exact H].
    unfold tick. destruct (countdown (view w) <=? 1)%Z; simpl.
    + destruct (clear_countdown_frame w) as (_ & Hr & Hs & _).
      eapply frame_handlers; [| |exact H]; simpl; assumption.
    + exact H.
Qed.

Lemma reachable_handlers_inv (events : list Event) :
  handlers_inv (run initial_world events).
Proof.
  assert (G : forall evs w, handlers_inv w -> handlers_inv (run w evs)).
  { induction evs as [|e evs IH]; intros w H; simpl; [exact H|].
    apply IH, step_handlers_inv, H. }
  apply G. intros ws s H. discriminate H.
Qed.

Lemma remove_last {A : Type} (l : list A) (a : A) : remove_nth (length l) (l ++ [a]) = l.
Proof. induction l as [|b l IH]; simpl; [reflexivity | now rewrite IH]. Qed.

(** X17. The current socket always has its handlers. So when the connection
    of the current socket is lost, a reconnect timeout is armed for it, and
    when it elapses a new socket is opened for the same crab and becomes the
    current one. The view is the same before and after: the history is not
    fetched again, so what the agent did in between does not show. *)
Theorem drop_reconnects (events : list Event) (ws : nat) (s : WebSocket) :
  let w := run initial_world events in
  wsRef w = Some ws ->
  nth_error (sockets w) ws = Some s ->
  readyState s <> CLOSED ->
  let w1 := step w (WsClosed ws) in
  let w2 := step w1 (TimeoutFired (length (timeouts w))) in
  (onmessage s = true /\ onerror s = true /\ onclose s = true)
  /\ (timeouts w1 = timeouts w ++ [(ws, crab s)]
      /\ wsRef w1 = Some ws /\ view w1 = view w)
  /\ (wsRef w2 = Some (length (sockets w))
      /\ nth_error (sockets w2) (length (sockets w))
         = Some (mkWebSocket (crab s) true true true CONNECTING)
      /\ timeouts w2 = timeouts w
      /\ view w2 = view w).
Proof.
  intros w Hr Hs Hst w1 w2.
  destruct (reachable_handlers_inv events ws s Hr Hs) as (Hm & He & Hc).
  split; [auto|].
  set (w0 := with_sockets
               (update_nth ws (fun s => mkWebSocket (crab s) (onmessage s) (onerror s)
                                          (onclose s) CLOSED) (sockets w)) w).
  assert (H1 : w1 = with_timeouts (timeouts w ++ [(ws, crab s)]) w0).
  { unfold w1. cbn [step]. rewrite Hs.
    assert (G : (if onclose s then on_close ws (crab s) w0 else w0)
                = with_timeouts (timeouts w ++ [(ws, crab s)]) w0).
    { rewrite Hc. unfold on_close. unfold w0 at 1. cbn [wsRef with_sockets].
      rewrite Hr, Nat.eqb_refl. reflexivity. }
    destruct (readyState s); try exact G. contradiction. }
  split; [rewrite H1; simpl; auto|].
  assert (H2 : w2 = connectWs (crab s) (with_timeouts (timeouts w) w0)).
  { unfold w2. rewrite H1. cbn [step timeouts with_timeouts].
    rewrite nth_error_app2, Nat.sub_diag by lia. cbn [nth_error].
    unfold on_timeout. cbn [wsRef with_timeouts with_sockets w0].
    unfold w0. cbn [wsRef with_sockets]. rewrite Hr, Nat.eqb_refl.
    rewrite remove_last. reflexivity. }
  rewrite H2.
  destruct (connectWs_current (crab s) (with_timeouts (timeouts w) w0))
    as (Hcur & _ & Ht & Hv).
  pose proof (connectWs_new (crab s) (with_timeouts (timeouts w) w0)) as Hnew.
  assert (Hlen : length (sockets (with_timeouts (timeouts w) w0)) = length (sockets w))
    by (simpl; apply update_nth_length).
  rewrite Hlen in Hcur, Hnew. auto.
Qed.

Lemma drop_reconnects_witness :
  let w := showing_a in
  let w1 := step w (WsClosed 0) in
  let w2 := step w1 (TimeoutFired (length (timeouts w))) in
  (onmessage (mkWebSocket "a" true true true OPEN) = true
   /\ onerror (mkWebSocket "a" true true true OPEN) = true
   /\ onclose (mkWebSocket "a" true true true OPEN) = true)
  /\ (timeouts w1 = timeouts w ++ [(0, crab (mkWebSocket "a" true true true OPEN))]
      /\ wsRef w1 = Some 0 /\ view w1 = view w)
  /\ (wsRef w2 = Some (length (sockets w))
      /\ nth_error (sockets w2) (length (sockets w))
         = Some (mkWebSocket (crab (mkWebSocket "a" true true true OPEN)) true true true
                   CONNECTING)
      /\ timeouts w2 = timeouts w
      /\ view w2 = view w).
Proof.
  apply (drop_reconnects
           [MountFetched two_crabs; LoadSettled 0 (Some snapshot_a); WsOpened 0]
           0 (mkWebSocket "a" true true true OPEN)).
  - vm_compute. reflexivity.
  - vm_compute. reflexivity.
  - discriminate.
Defined.

(** ** Frames of the socket and the transcript *)

(** X18. An [api_call] frame on the open current socket appends its call
    to the calls of the view, and the transcript of the next render starts
    with the whole transcript of the render before: the lines already shown
    keep their place and their content, the new lines come after them. *)
Theorem frame_extends_transcript (host : Host) (w : World) (ws : nat) (s : WebSocket)
    (d : ApiCall) :
  nth_error (sockets w) ws = Some s -> readyState s = OPEN -> onmessage s = true ->
  let w' := step w (WsMessage ws (Ev.api_call d)) in
  calls (view w') = calls (view w) ++ [d]
  /\ forall st', reconcile host (calls (view w')) = Ok st' ->
       exists st ls, reconcile host (calls (view w)) = Ok st
                     /\ messages st' = messages st ++ ls.
Proof.
  intros Hs Hopen Hm w'.
  assert (Hc : calls (view w') = calls (view w) ++ [d]).
  { unfold w'. cbn [step]. rewrite Hs, Hopen, Hm.
    destruct (commit_frame w (with_view (on_message (Ev.api_call d) (view w)) w))
      as (Hv & _).
    rewrite Hv. reflexivity. }
  split; [exact Hc|]. rewrite Hc, reconcile_app. intros st' H.
  apply bind_Ok in H as (st & Ha & H).
  destruct (reconcile_from_extends _ _ _ _ _ _ H) as [ls Hls]. eauto.
Qed.

Lemma frame_extends_transcript_witness :
  let w' := step showing_a (WsMessage 0 (Ev.api_call (example_call_2 "You are Ada."))) in
  calls (view w') = calls (view showing_a) ++ [example_call_2 "You are Ada."]
  /\ forall st', reconcile RefHost.host (calls (view w')) = Ok st' ->
       exists st ls, reconcile RefHost.host (calls (view showing_a)) = Ok st
                     /\ messages st' = messages st ++ ls.
Proof.
  apply (frame_extends_transcript RefHost.host showing_a 0
           (mkWebSocket "a" true true true OPEN) (example_call_2 "You are Ada."));
    vm_compute; reflexivity.
Defined.

(** ** Bubbles and labels *)

(** X19. The text of a bubble is dark exactly when the bubble is the light
    grey one, and white on every other bubble: the two expressions of the
    render agree on every line. A line flagged [isRespond] always gets the
    respond bubble, whatever its side and phase. *)
Theorem bubble_contrast (msg : Msg) :
  (textColor msg = "#111" <-> background (bubbleStyle msg) = "#e9e9eb")
  /\ (textColor msg = "#fff" <-> background (bubbleStyle msg) <> "#e9e9eb")
  /\ (isRespond msg = true -> bubbleStyle msg = respondBubble).
Proof.
  destruct msg as [sd tx ph im rs].
  unfold textColor, bubbleStyle, isLeft. cbn [side phase isRespond].
  destruct sd, ph, rs; cbn; repeat split; intros; congruence.
Qed.

(** X20. The colour of the state of a crab in the switcher depends on the
    state only through its label, and two states have the same colour exactly
    when they have the same label; every state that is not one of the three
    known ones is shown as idle. *)
Theorem state_label_and_color (a b : string) :
  stateColor a = stateColor (stateLabel a)
  /\ stateLabel (stateLabel a) = stateLabel a
  /\ (stateColor a = stateColor b <-> stateLabel a = stateLabel b)
  /\ (stateLabel a = "idle"
      <-> a <> "thinking" /\ a <> "reflecting" /\ a <> "planning").
Proof.
  unfold stateColor, stateLabel.
  destruct (String.eqb_spec a "thinking") as [->|Ha1];
    [|destruct (String.eqb_spec a "reflecting") as [->|Ha2];
      [|destruct (String.eqb_spec a "planning") as [->|Ha3]]];
  (destruct (String.eqb_spec b "thinking") as [->|Hb1];
    [|destruct (String.eqb_spec b "reflecting") as [->|Hb2];
      [|destruct (String.eqb_spec b "planning") as [->|Hb3]]]);
  cbn; repeat split; intros; try congruence; try discriminate;
    try (match goal with H : _ /\ _ /\ _ |- _ => destruct H as (? & ? & ?) end; congruence).
Qed.

(** ** The chat form *)

Section ChatForm.

Open Scope string_scope.

Lemma trimStart_split (s : string) :
  exists a, s = a ++ trimStart s /\ all_space a = true.
Proof.
  induction s as [|c s (a & Ha & Hs)]; simpl.
  - exists "". auto.
  - destruct (is_js_space c) eqn:E.
    + exists (String c a). simpl. rewrite E, Hs. split; [now f_equal | reflexivity].
    + exists "". auto.
Qed.

Lemma trimStart_fixed (s : string) : trimStart (trimStart s) = trimStart s.
Proof.
  induction s as [|c s IH]; simpl; [reflexivity|].
  destruct (is_js_space c) eqn:E; [exact IH|]. simpl. now rewrite E.
Qed.

Lemma trimEnd_empty (s : string) : trimEnd s = "" <-> all_space s = true.
Proof.
  induction s as [|c s IH]; simpl; [tauto|].
  destruct (trimEnd s) as [|d t] eqn:E.
  - destruct (is_js_space c); simpl; [|split; discriminate].
    split; intros _; [now apply IH | reflexivity].
  - split; [discriminate|]. intros H. apply andb_true_iff in H as [_ H].
    apply IH in H. discriminate H.
Qed.

Lemma trimEnd_cons (c : ascii) (s : string) :
  trimEnd (String c s) <> "" -> trimEnd (String c s) = String c (trimEnd s).
Proof.
  simpl. destruct (trimEnd s) as [|d t]; [|reflexivity].
  destruct (is_js_space c); [contradiction | reflexivity].
Qed.

Lemma trimEnd_split (s : string) :
  exists b, s = trimEnd s ++ b /\ all_space b = true.
Proof.
  induction s as [|c s (b & Hb & Hs)].
  - exists "". auto.
  - destruct (trimEnd (String c s)) as [|d t] eqn:E.
    + exists (String c s). split; [reflexivity|]. now apply trimEnd_empty.
    + rewrite trimEnd_cons in E by (rewrite E; discriminate).
      injection E as <- <-. exists b. simpl. split; [now f_equal | exact Hs].
Qed.

Lemma trimEnd_eq (c : ascii) (s : string) :
  trimEnd (String c s)
  = match trimEnd s with
    | EmptyString => if is_js_space c then EmptyString else String c EmptyString
    | String d t => String c (String d t)
    end.
Proof. reflexivity. Qed.

Lemma trimEnd_fixed (s : string) : trimEnd (trimEnd s) = trimEnd s.
Proof.
  induction s as [|c s IH]; [reflexivity|]. rewrite trimEnd_eq.
  destruct (trimEnd s) as [|d t] eqn:E.
  - destruct (is_js_space c) eqn:Ec; [reflexivity|].
    rewrite trimEnd_eq. simpl. now rewrite Ec.
  - rewrite trimEnd_eq, IH. reflexivity.
Qed.

Lemma trimStart_trimEnd (s : string) :
  trimStart s = s -> trimStart (trimEnd s) = trimEnd s.
Proof.
  destruct s as [|c s]; [reflexivity|]. intros H.
  destruct (is_js_space c) eqn:Ec.
  - exfalso. simpl in H. rewrite Ec in H.
    destruct (trimStart_split s) as (a & Ha & _).
    rewrite H in Ha. apply (f_equal String.length) in Ha.
    rewrite sapp_length in Ha. simpl in Ha. lia.
  - rewrite trimEnd_eq. destruct (trimEnd s); rewrite ?Ec; simpl; now rewrite Ec.
Qed.

Lemma all_space_app (a b : string) : all_space (a ++ b) = all_space a && all_space b.
Proof. induction a as [|c a IH]; simpl; [reflexivity|]. now rewrite IH, andb_assoc. Qed.

Lemma all_space_trimStart (s : string) : all_space s = true -> trimStart s = "".
Proof.
  induction s as [|c s IH]; simpl; [reflexivity|].
  intros H. apply andb_true_iff in H as [-> H]. auto.
Qed.

Lemma trim_empty (s : string) : trim s = "" <-> all_space s = true.
Proof.
  unfold trim. rewrite trimEnd_empty.
  destruct (trimStart_split s) as (a & Ha & Hs). split.
  - intros H. rewrite Ha, all_space_app, Hs, H. reflexivity.
  - intros H. now rewrite (all_space_trimStart s H).
Qed.

(** X21. [sendMessage] sends nothing, and leaves the view as it is, exactly
    when the text typed is empty or white space only. Otherwise it clears the
    input and posts, to the URL of the active crab, the text typed without the
    white space before and after it: a text that is not empty and neither
    starts nor ends with white space. *)
Theorem sendMessage_trims (v : View) :
  let t := trim (chatInput v) in
  (exists a b, chatInput v = a ++ t ++ b /\ all_space a = true /\ all_space b = true)
  /\ trimStart t = t /\ trimEnd t = t
  /\ (sendMessage v = (v, None) <-> all_space (chatInput v) = true)
  /\ (all_space (chatInput v) = false ->
      t <> ""
      /\ sendMessage v
         = (setChatInput "" v,
            Some (mkRequest ("/api/message" ++ crabParam v) [("text", JStr t)]))).
Proof.
  intros t. split; [|split; [|split; [|split]]].
  - destruct (trimStart_split (chatInput v)) as (a & Ha & Hsa).
    destruct (trimEnd_split (trimStart (chatInput v))) as (b & Hb & Hsb).
    exists a, b. fold (trim (chatInput v)) in Hb. fold t in Hb.
    split; [|auto]. rewrite Ha at 1. now rewrite Hb at 1.
  - apply trimStart_trimEnd, trimStart_fixed.
  - apply trimEnd_fixed.
  - unfold sendMessage. fold t. rewrite <- trim_empty. fold t.
    destruct (String.eqb_spec t ""); split; intros H; congruence.
  - intros H.
    assert (Hne : t <> "").
    { intros Ht. apply trim_empty in Ht. congruence. }
    split; [exact Hne|]. unfold sendMessage. fold t.
    apply String.eqb_neq in Hne. now rewrite Hne.
Qed.

Lemma sendMessage_trims_witness :
  sendMessage (setChatInput "  hello crab " (setActiveCrab "a" initial_view))
  = (setChatInput "" (setChatInput "  hello crab " (setActiveCrab "a" initial_view)),
     Some (mkRequest "/api/message?crab=a" [("text", JStr "hello crab")])).
Proof.
  apply (proj2 (proj2 (proj2 (proj2 (sendMessage_trims
           (setChatInput "  hello crab " (setActiveCrab "a" initial_view))))))).
  vm_compute. reflexivity.
Defined.

End ChatForm.

(** ** The walk animation *)

Lemma walk_index_bound (m : option Heading) (w : Walk) :
  walkIndexRef w < 4 -> walkIndexRef (walk_step m w) < 4.
Proof.
  intros H. destruct m as [h|]; cbn [walk_step walkIndexRef]; [|lia].
  destruct (Nat.eqb (S (frameCountRef w) mod 8) 0); [|exact H].
  change (length WALK_SEQ) with 4. apply Nat.mod_upper_bound. discriminate.
Qed.

Lemma walk_dir (m : option Heading) (w : Walk) :
  (exists h, dirRef w = heading_name h) ->
  exists h, dirRef (walk_step m w) = heading_name h.
Proof.
  intros H. destruct m as [h|]; cbn [walk_step dirRef]; [eauto | exact H].
Qed.

Lemma walk_run_bounds (ms : list (option Heading)) (w : Walk) :
  walkIndexRef w < 4 -> (exists h, dirRef w = heading_name h) ->
  walkIndexRef (walk_run ms w) < 4 /\ exists h, dirRef (walk_run ms w) = heading_name h.
Proof.
  revert w. induction ms as [|m ms IH]; intros w Hi Hd; simpl; [auto|].
  apply IH; [now apply walk_index_bound | now apply walk_dir].
Qed.

(** X22. Whatever the crab has done since the component was mounted, the
    frame that [render] draws is defined: the index into the walk sequence is
    below its length, the direction is a key of the table of frames (the
    fallback to the frames of "down" is never taken), and the frame is a
    48-pixel cell of the first three columns and four rows of the sprite
    sheet. *)
Theorem walk_frame_defined (history : list (option Heading)) (motion : option Heading) :
  let w := walk_run history initial_walk in
  walkIndexRef w < length WALK_SEQ
  /\ frames_of FRAMES (dirRef (walk_step motion w)) <> None
  /\ exists f, frame_drawn motion w = Some f
               /\ (0 <= Frame.x f /\ Frame.x f + CHAR_SIZE <= 3 * CHAR_SIZE)%Z
               /\ (0 <= Frame.y f /\ Frame.y f + CHAR_SIZE <= 4 * CHAR_SIZE)%Z.
Proof.
  intros w.
  destruct (walk_run_bounds history initial_walk) as [Hi Hd];
    [simpl; lia | exists ToDown; reflexivity|].
  fold w in Hi, Hd. split; [exact Hi|].
  pose proof (walk_index_bound motion w Hi) as Hi'.
  destruct (walk_dir motion w Hd) as [h' Hd'].
  unfold frame_drawn. rewrite Hd'.
  assert (Hidx : exists i, match motion with
                           | Some _ => nth_error WALK_SEQ (walkIndexRef (walk_step motion w))
                           | None => Some IDLE_FRAME
                           end = Some i /\ i < 3).
  { destruct motion as [h|]; [|exists 1; split; [reflexivity | lia]].
    destruct (walkIndexRef (walk_step (Some h) w)) as [|[|[|[|n]]]];
      [exists 0 | exists 1 | exists 2 | exists 1 | exfalso; lia];
      (split; [reflexivity | lia]). }
  destruct Hidx as (i & -> & Hlt).
  split; [destruct h'; discriminate|].
  destruct h', i as [|[|[|i]]]; try lia; cbn;
    eexists; (split; [reflexivity|]); unfold CHAR_SIZE; cbn; lia.
Qed.

Lemma walk_count (hs : list Heading) (w : Walk) :
  frameCountRef (walk_run (map Some hs) w) = frameCountRef w + length hs.
Proof.
  revert w. induction hs as [|h hs IH]; intros w; simpl; [lia|].
  rewrite IH. simpl. lia.
Qed.

Lemma div8_succ (c : nat) :
  S c / 8 = c / 8 + (if Nat.eqb (S c mod 8) 0 then 1 else 0).
Proof.
  pose proof (Nat.div_mod_eq c 8) as H1. pose proof (Nat.div_mod_eq (S c) 8) as H2.
  pose proof (Nat.mod_upper_bound c 8 ltac:(discriminate)) as B1.
  pose proof (Nat.mod_upper_bound (S c) 8 ltac:(discriminate)) as B2.
  destruct (Nat.eqb_spec (S c mod 8) 0) as [E|E]; lia.
Qed.

(** X23. While the crab moves, the index of the walk sequence advances by
    one, round the four entries of the sequence, each time the count of moving
    frames reaches a multiple of 8: after [n] moving frames it has advanced by
    the number of multiples of 8 passed. A frame in which the crab does not
    move puts the index back to 0 and leaves the count as it is, so the first
    advance of the next walk can come after fewer than 8 frames. *)
Theorem walk_cycle (hs : list Heading) (w : Walk) :
  walkIndexRef w < length WALK_SEQ ->
  let w' := walk_run (map Some hs) w in
  frameCountRef w' = frameCountRef w + length hs
  /\ walkIndexRef w'
     = (walkIndexRef w + ((frameCountRef w + length hs) / 8 - frameCountRef w / 8))
       mod length WALK_SEQ
  /\ walkIndexRef (walk_step None w') = 0
  /\ frameCountRef (walk_step None w') = frameCountRef w'.
Proof.
  intros Hi w'. split; [apply walk_count|]. split; [|split; reflexivity].
  unfold w'. clear w'. change (length WALK_SEQ) with 4 in *.
  revert w Hi. induction hs as [|h hs IH]; intros w Hi.
  - change (walk_run (map Some []) w) with w. change (length (@nil Heading)) with 0.
    rewrite Nat.add_0_r, Nat.sub_diag, Nat.add_0_r.
    symmetry. now apply Nat.mod_small.
  - change (walk_run (map Some (h :: hs)) w)
      with (walk_run (map Some hs) (walk_step (Some h) w)).
    rewrite (IH _ (walk_index_bound (Some h) w Hi)).
    cbn [walk_step walkIndexRef frameCountRef length].
    change (length WALK_SEQ) with 4.
    replace (frameCountRef w + S (length hs)) with (S (frameCountRef w) + length hs) by lia.
    pose proof (div8_succ (frameCountRef w)) as Hs.
    assert (Hmono : S (frameCountRef w) / 8 <= (S (frameCountRef w) + length hs) / 8)
      by (apply Nat.Div0.div_le_mono; lia).
    destruct (Nat.eqb (S (frameCountRef w) mod 8) 0).
    + rewrite Nat.Div0.add_mod_idemp_l. f_equal. lia.
    + f_equal. lia.
Qed.

Lemma walk_cycle_witness :
  let w' := walk_run (map Some (repeat ToRight 20)) initial_walk in
  frameCountRef w' = frameCountRef initial_walk + length (repeat ToRight 20)
  /\ walkIndexRef w'
     = (walkIndexRef initial_walk
        + ((frameCountRef initial_walk + length (repeat ToRight 20)) / 8
           - frameCountRef initial_walk / 8)) mod length WALK_SEQ
  /\ walkIndexRef (walk_step None w') = 0
  /\ frameCountRef (walk_step None w') = frameCountRef w'.
Proof.
  apply (walk_cycle (repeat ToRight 20) initial_walk). simpl. lia.
Defined.

(** ** The label of the activity *)

Section ActivityLabel.

Open Scope string_scope.

Lemma substring_length (n : nat) (s : string) :
  n <= String.length s -> String.length (substring 0 n s) = n.
Proof.
  revert s. induction n as [|n IH]; intros s H.
  - destruct s; reflexivity.
  - destruct s as [|c s]; simpl in *; [lia|]. rewrite IH; lia.
Qed.

Lemma substring_prefix (n : nat) (s : string) :
  exists rest, s = substring 0 n s ++ rest.
Proof.
  revert s. induction n as [|n IH]; intros s.
  - exists s. destruct s; reflexivity.
  - destruct s as [|c s]; simpl; [exists ""; reflexivity|].
    destruct (IH s) as [rest Hr]. exists rest. now rewrite <- Hr.
Qed.

(** X24. The label drawn for the detail of an activity is the detail
    itself when it has at most 40 characters; otherwise it is its first 40
    characters followed by three dots. It is never longer than 43
    characters. *)
Theorem detail_label_bounded (detail : string) :
  String.length (detail_label detail) <= 43
  /\ (String.length detail <= 40 -> detail_label detail = detail)
  /\ (40 < String.length detail ->
      String.length (detail_label detail) = 43
      /\ exists head rest, detail = head ++ rest /\ String.length head = 40
                            /\ detail_label detail = head ++ "...").
Proof.
  unfold detail_label.
  destruct (Nat.ltb_spec 40 (String.length detail)) as [H|H].
  - assert (Hl : String.length (substring 0 40 detail) = 40)
      by (apply substring_length; lia).
    split; [rewrite sapp_length, Hl; simpl; lia|]. split; [lia|]. intros _.
    split; [rewrite sapp_length, Hl; reflexivity|].
    destruct (substring_prefix 40 detail) as [rest Hr].
    exists (substring 0 40 detail), rest. auto.
  - split; [lia|]. split; [reflexivity | lia].
Qed.

End ActivityLabel.
